(** * Humanitarian CSV loaders and the displacement-events endpoint

    A shallow embedding of the data layer of the map application:
    the generic CSV loader module ([validateCoordinates],
    [parseCSVWithCoordinates], the three dataset loaders,
    [getUniqueLocations], [calculateBounds]), the [GET] handler of
    [routes/api/events/+server.ts], and the two helpers of
    [scripts/collect-hdx-data.js] that place a row on the map
    ([extractLocation], [getCoordinates]).

    Conventions.
    - A JavaScript string is a [string]: a sequence of code units, of which
      the embedding covers those below 256.
    - A JavaScript number is a binary64 [float] (Rocq's primitive floats),
      so rounding, [NaN], the infinities and the two zeros are the real ones.
    - A JavaScript object produced by the CSV library is a
      [gmap string Value]; an absent property reads as [None] ([undefined]).
    - Code that can throw returns a [result]; [try]/[catch] is a match on it.
    - [console.warn] is a log returned next to the value. *)

From Stdlib Require Import ZArith Floats Ascii String List Lia Bool.
From stdpp Require Import gmap strings list pretty.

Set Warnings "-inexact-float".

Local Open Scope string_scope.
Local Open Scope Z_scope.

(** ** JavaScript built-ins used by the sources *)

Module Js.

(** *** Strings *)

(** [WhiteSpace] and [LineTerminator] code units below 256: TAB, LF, VT,
    FF, CR, SP and NBSP. *)
Definition is_white_space (c : ascii) : bool :=
  let n := nat_of_ascii c in
  ((9 <=? n)%nat && (n <=? 13)%nat) || (n =? 32)%nat || (n =? 160)%nat.

Fixpoint trimStart (s : string) : string :=
  match s with
  | EmptyString => EmptyString
  | String c rest => if is_white_space c then trimStart rest else s
  end.

Fixpoint trimEnd (s : string) : string :=
  match s with
  | EmptyString => EmptyString
  | String c rest =>
      match trimEnd rest with
      | EmptyString => if is_white_space c then EmptyString else String c EmptyString
      | rest' => String c rest'
      end
  end.

(** [String.prototype.trim] *)
Definition trim (s : string) : string := trimEnd (trimStart s).

(** [s.split(sep)] for a one-character separator: never the empty list. *)
Fixpoint split (sep : ascii) (s : string) : list string :=
  match s with
  | EmptyString => [EmptyString]
  | String c rest =>
      if Ascii.eqb c sep then EmptyString :: split sep rest
      else match split sep rest with
           | [] => [String c EmptyString]
           | piece :: pieces => String c piece :: pieces
           end
  end.

(** [pieces.join(sep)] *)
Fixpoint join (sep : string) (pieces : list string) : string :=
  match pieces with
  | [] => EmptyString
  | [piece] => piece
  | piece :: rest => piece ++ sep ++ join sep rest
  end.

(** [String.prototype.toLowerCase] on code units below 256: A-Z, and
    U+00C0-U+00DE except the multiplication sign U+00D7. *)
Definition lower_char (c : ascii) : ascii :=
  let n := nat_of_ascii c in
  if ((65 <=? n)%nat && (n <=? 90)%nat)
     || ((192 <=? n)%nat && (n <=? 222)%nat && negb (n =? 215)%nat)
  then ascii_of_nat (n + 32) else c.

Fixpoint toLowerCase (s : string) : string :=
  match s with
  | EmptyString => EmptyString
  | String c rest => String (lower_char c) (toLowerCase rest)
  end.

(** [hay.includes(needle)] *)
Fixpoint includes (needle hay : string) : bool :=
  String.prefix needle hay ||
  match hay with
  | EmptyString => false
  | String _ rest => includes needle rest
  end.

(** *** Numbers *)

Definition isNaN (x : float) : bool := PrimFloat.is_nan x.

(** A [StrDecimalLiteral] read from the front of a string: an infinity,
    or the digits [m] and decimal exponent [e] of [m * 10^e]. *)
Inductive numeral :=
| NInfinity (neg : bool)
| NDecimal (neg : bool) (m : Z) (e : Z).

Definition is_digit (c : ascii) : bool :=
  let n := nat_of_ascii c in (48 <=? n)%nat && (n <=? 57)%nat.

Definition digit_value (c : ascii) : Z := Z.of_nat (nat_of_ascii c) - 48.

(** The longest run of decimal digits at the front of [s], appended to
    the digits already in [acc]; [n] counts the digits read. *)
Fixpoint read_digits (s : string) (acc : Z) (n : nat) : Z * nat * string :=
  match s with
  | String c rest =>
      if is_digit c then read_digits rest (10 * acc + digit_value c) (S n)
      else (acc, n, s)
  | EmptyString => (acc, n, s)
  end.

Definition read_sign (s : string) : bool * string :=
  match s with
  | String "-" rest => (true, rest)
  | String "+" rest => (false, rest)
  | _ => (false, s)
  end.

(** [ExponentPart], when one is there: [e] or [E], a sign, digits.
    Without digits the [e] is not part of the literal. *)
Definition read_exponent (s : string) : Z * string :=
  match s with
  | String c rest =>
      if Ascii.eqb c "e" || Ascii.eqb c "E" then
        let '(neg, rest') := read_sign rest in
        let '(x, n, rest'') := read_digits rest' 0 0%nat in
        match n with
        | O => (0, s)
        | S _ => (if neg then - x else x, rest'')
        end
      else (0, s)
  | EmptyString => (0, s)
  end.

(** The longest prefix of [s] that is a [StrDecimalLiteral], and what
    follows it. *)
Definition read_numeral (s : string) : option (numeral * string) :=
  let '(neg, s1) := read_sign s in
  if String.prefix "Infinity" s1
  then Some (NInfinity neg, String.substring 8 (String.length s1 - 8) s1)
  else
    let '(int, ni, s2) := read_digits s1 0 0%nat in
    match s2 with
    | String "." s3 =>
        let '(m, nf, s4) := read_digits s3 int 0%nat in
        match ni, nf with
        | O, O => None
        | _, _ =>
            let '(e, s5) := read_exponent s4 in
            Some (NDecimal neg m (e - Z.of_nat nf), s5)
        end
    | _ =>
        match ni with
        | O => None
        | S _ =>
            let '(e, s5) := read_exponent s2 in
            Some (NDecimal neg int e, s5)
        end
    end.

(** The binary64 value nearest to [m * 10^e] (ties to even), through the
    arbitrary-precision operations of [SpecFloat]. *)
Definition decimal_to_float (neg : bool) (m e : Z) : float :=
  match m with
  | Zpos p =>
      if 0 <=? e
      then SF2Prim (binary_normalize prec emax
                      (cond_Zopp neg (Zpos p * 10 ^ e)) 0 false)
      else SF2Prim (SFdiv prec emax
                      (S754_finite neg p 0)
                      (S754_finite false (Z.to_pos (10 ^ (- e))) 0))
  | _ => if neg then neg_zero else PrimFloat.zero
  end.

Definition numeral_to_float (n : numeral) : float :=
  match n with
  | NInfinity neg => if neg then neg_infinity else infinity
  | NDecimal neg m e => decimal_to_float neg m e
  end.

(** The global [parseFloat]. *)
Definition parseFloat (s : string) : float :=
  match read_numeral (trimStart s) with
  | Some (n, _) => numeral_to_float n
  | None => nan
  end.

(** A [NonDecimalIntegerLiteral]: [0x], [0o] or [0b] (either case) and
    at least one digit of that radix, nothing else. *)
Definition radix_digit (radix : Z) (c : ascii) : option Z :=
  let n := Z.of_nat (nat_of_ascii c) in
  let d := if (48 <=? n) && (n <=? 57) then n - 48
           else if (97 <=? n) && (n <=? 102) then n - 87
           else if (65 <=? n) && (n <=? 70) then n - 55
           else radix in
  if d <? radix then Some d else None.

Fixpoint read_radix (radix : Z) (s : string) (acc : Z) : option Z :=
  match s with
  | EmptyString => Some acc
  | String c rest =>
      match radix_digit radix c with
      | Some d => read_radix radix rest (radix * acc + d)
      | None => None
      end
  end.

Definition read_non_decimal (s : string) : option Z :=
  match s with
  | String "0" (String c (String d rest)) =>
      let digits := String d rest in
      if Ascii.eqb c "x" || Ascii.eqb c "X" then read_radix 16 digits 0
      else if Ascii.eqb c "o" || Ascii.eqb c "O" then read_radix 8 digits 0
      else if Ascii.eqb c "b" || Ascii.eqb c "B" then read_radix 2 digits 0
      else None
  | _ => None
  end.

(** [StringToNumber]: the whole trimmed string must be a numeric
    literal; the empty string is zero. *)
Definition StringToNumber (s : string) : float :=
  match trim s with
  | EmptyString => PrimFloat.zero
  | t =>
      match read_numeral t with
      | Some (n, EmptyString) => numeral_to_float n
      | _ =>
          match read_non_decimal t with
          | Some m => decimal_to_float false m 0
          | None => nan
          end
      end
  end.

(** [Math.max(...xs)] and [Math.min(...xs)]: any [NaN] wins, a positive
    zero is above a negative zero, and the empty call gives the
    infinity the scan starts from. *)
Fixpoint max_from (highest : float) (xs : list float) : float :=
  match xs with
  | [] => highest
  | x :: rest =>
      if isNaN x then nan
      else if PrimFloat.Leibniz.eqb x PrimFloat.zero && PrimFloat.Leibniz.eqb highest neg_zero
           then max_from PrimFloat.zero rest
      else if PrimFloat.ltb highest x then max_from x rest
      else max_from highest rest
  end.

Fixpoint min_from (lowest : float) (xs : list float) : float :=
  match xs with
  | [] => lowest
  | x :: rest =>
      if isNaN x then nan
      else if PrimFloat.Leibniz.eqb x neg_zero && PrimFloat.Leibniz.eqb lowest PrimFloat.zero
           then min_from neg_zero rest
      else if PrimFloat.ltb x lowest then min_from x rest
      else min_from lowest rest
  end.

Definition Math_max (xs : list float) : float := max_from neg_infinity xs.
Definition Math_min (xs : list float) : float := min_from infinity xs.

End Js.


(** ** Values, objects and exceptions *)

(** What a cast function returns, and so what a property of a parsed
    record holds: a number or a string. *)
Inductive Value :=
| VNum (x : float)
| VStr (s : string).

(** A parsed record; [o !! k] is [o[k]], with [None] for [undefined]. *)
Abbreviation object := (gmap string Value).

Inductive exn :=
| Error (message : string)              (* [new Error(message)] *)
| TypeError                             (* a method call on [undefined] or a number *)
| FsError (path : string)               (* [readFileSync] *)
| CsvRecordLength (columns got : nat)   (* csv-parse: a record as long as the header is expected *)
| CsvColumnDefinition                   (* csv-parse: a header cell that is not a string *)
| CsvSyntax (code : string).            (* csv-parse: the tokenizer gave up *)

Inductive result (A : Type) :=
| Ok (a : A)
| Throw (e : exn).
Arguments Ok {A} a.
Arguments Throw {A} e.

#[export] Instance result_ret : MRet result := @Ok.
#[export] Instance result_bind : MBind result := fun A B f m =>
  match m with
  | Ok a => f a
  | Throw e => Throw e
  end.

(** [ToNumber] of a property read. *)
Definition ToNumber (v : option Value) : float :=
  match v with
  | None => nan
  | Some (VNum x) => x
  | Some (VStr s) => Js.StringToNumber s
  end.

(** [ToBoolean] of a property read: [undefined], [0], [-0], [NaN] and the
    empty string are falsy. *)
Definition truthy (v : option Value) : bool :=
  match v with
  | None => false
  | Some (VNum x) => negb (PrimFloat.eqb x PrimFloat.zero || Js.isNaN x)
  | Some (VStr s) => negb (String.eqb s "")
  end.

(** [v === s] for a string [s]. *)
Definition strict_eq_string (v : option Value) (s : string) : bool :=
  match v with
  | Some (VStr t) => String.eqb t s
  | _ => false
  end.

(** The property names of [Object.prototype].  A parsed record is a
    plain object: it inherits them all, whatever its columns are. *)
Definition Object_prototype_names : list string :=
  ["constructor"; "__defineGetter__"; "__defineSetter__"; "hasOwnProperty";
   "__lookupGetter__"; "__lookupSetter__"; "isPrototypeOf"; "propertyIsEnumerable";
   "toString"; "valueOf"; "__proto__"; "toLocaleString"].

(** What [record[key]] gives when the key can be any string: the
    record's own property; or, under a name the record inherits, the
    inherited function (the prototype itself under [__proto__]); or
    [undefined].  Where the key is a fixed name that is not inherited
    ([record.location], [record.figure]) the read is [record !! key]. *)
Inductive read :=
| Own_property (v : Value)
| Inherited_property (name : string)
| No_property.

Definition Get (record : object) (key : string) : read :=
  match record !! key with
  | Some v => Own_property v
  | None =>
      if bool_decide (key ∈ Object_prototype_names) then Inherited_property key
      else No_property
  end.

(** [key in record]: own and inherited properties alike. *)
Definition HasProperty (record : object) (key : string) : bool :=
  match Get record key with
  | No_property => false
  | _ => true
  end.

(** [ToNumber] of what was read: an inherited function or object
    converts to [NaN], as [undefined] does. *)
Definition read_ToNumber (r : read) : float :=
  match r with
  | Own_property v => ToNumber (Some v)
  | Inherited_property _ => nan
  | No_property => nan
  end.

(** ** The csv-parse library: [parse(text, {columns: true, skip_empty_lines: true, cast})]

    The tokenizer (delimiters, quoting, record delimiters, skipping of
    empty lines) is a parameter of the development: every statement below
    holds whatever it does.  What is fixed here is how the library uses
    the tokenizer's output: fields are cast one by one as they are
    completed, the first record names the columns, every later record must
    be as long as the header and becomes an object, and the first error
    stops everything. *)

Module Csv.

(** What the tokenizer finds in a text: the complete records in order
    and, when it gives up, the fields it had completed in the record it
    was reading together with the error code. *)
Record scan := Scan {
  rows : list (list string);
  broken : option (list string * string)
}.

(** [context.column]: the field's index while the header is read, the
    column name afterwards, [null] for a field beyond the last column. *)
Inductive column :=
| ColIndex (i : nat)
| ColName (name : string)
| ColNull.

Definition context_column (columns : option (list string)) (i : nat) : column :=
  match columns with
  | None => ColIndex i
  | Some names =>
      match names !! i with
      | Some name => ColName name
      | None => ColNull
      end
  end.

(** [names.includes(column)]: only a name can be found in a list of names. *)
Definition includes (names : list string) (c : column) : bool :=
  match c with
  | ColName name => bool_decide (name ∈ names)
  | _ => false
  end.

(** [`${column}`] *)
Definition column_text (c : column) : string :=
  match c with
  | ColIndex i => pretty i
  | ColName name => name
  | ColNull => "null"
  end.

(** The plain fragment of the tokenizer: for a text with no quote and no
    carriage return, records are the non-empty lines and fields are
    separated by commas. *)
Definition plain_tokenize (text : string) : scan :=
  Scan (map (Js.split ",")
          (filter (fun line => line ≠ "") (Js.split "010" text)))
       None.

Section Parse.
Variable tokenize : string -> scan.
Variable cast : string -> column -> result Value.

(** The fields of one record, cast left to right; [i] is the number
    of fields already in the record. *)
Fixpoint cast_fields (columns : option (list string)) (i : nat)
    (fields : list string) : result (list Value) :=
  match fields with
  | [] => Ok []
  | field :: rest =>
      v ← cast field (context_column columns i);
      vs ← cast_fields columns (S i) rest;
      Ok (v :: vs)
  end.

(** The header as column names. *)
Fixpoint normalize_columns (header : list Value) : result (list string) :=
  match header with
  | [] => Ok []
  | VStr name :: rest => names ← normalize_columns rest; Ok (name :: names)
  | VNum _ :: _ => Throw CsvColumnDefinition
  end.

(** [obj[columns[i].name] = record[i]] for each field in turn: a
    repeated name keeps the last value.  Column names are taken to be
    ordinary property names (not [__proto__], whose assignment a plain
    object treats specially). *)
Definition make_object (names : list string) (vs : list Value) : object :=
  fold_left (fun obj '(name, v) => <[name := v]> obj) (zip names vs) ∅.

Fixpoint records_of (names : list string) (data : list (list string))
    : result (list object) :=
  match data with
  | [] => Ok []
  | fields :: rest =>
      vs ← cast_fields (Some names) 0 fields;
      if (length fields =? length names)%nat then
        objs ← records_of names rest;
        Ok (make_object names vs :: objs)
      else Throw (CsvRecordLength (length names) (length fields))
  end.

(** The end of the input: a tokenizer that gave up has cast the
    fields it had, and now raises its error. *)
Definition finish (columns : option (list string))
    (broken : option (list string * string)) (objs : list object)
    : result (list object) :=
  match broken with
  | None => Ok objs
  | Some (fields, code) =>
      _ ← cast_fields columns 0 fields;
      Throw (CsvSyntax code)
  end.

Definition parse (text : string) : result (list object) :=
  let s := tokenize text in
  match rows s with
  | [] => finish None (broken s) []
  | header :: data =>
      hs ← cast_fields None 0 header;
      names ← normalize_columns hs;
      objs ← records_of names data;
      finish (Some names) (broken s) objs
  end.
End Parse.

End Csv.

(** ** Console and file system *)

Inductive console :=
| Warn_invalid_coordinates (location : option Value) (lat lng : read)
    (* [console.warn(`Invalid coordinates for ${record.location}: ${lat}, ${lng}`)] *)
| Console_error (label : string) (error : exn).
    (* [console.error(label, error)] *)

(** The files under [process.cwd()], by relative path; [readFileSync]
    throws for a path that cannot be read. *)
Definition readFileSync (files : gmap string string) (path : string) : result string :=
  match files !! path with
  | Some content => Ok content
  | None => Throw (FsError path)
  end.

Definition dquote : string := String "034" EmptyString.
Definition newline : string := String "010" EmptyString.

(** ** The loader module *)

Record GeographicData := {
  latitude : float;
  longitude : float;
  location : string;
  area : string
}.

Record Bounds := {
  north : float;
  south : float;
  east : float;
  west : float
}.

Module Loader.

Definition validateCoordinates (lat lng : float) : bool :=
  PrimFloat.leb 31.0 lat && PrimFloat.leb lat 32.0
  && PrimFloat.leb 34.0 lng && PrimFloat.leb lng 35.0.

(** [`Invalid numeric value "${value}" in column "${column}"`] *)
Definition invalid_numeric_message (value column : string) : string :=
  "Invalid numeric value " ++ dquote ++ value ++ dquote
  ++ " in column " ++ dquote ++ column ++ dquote.

(** The [cast] callback of [parseCSVWithCoordinates]. *)
Definition cast (numericColumns coordinateColumns : list string)
    (value : string) (column : Csv.column) : result Value :=
  if Csv.includes numericColumns column || Csv.includes coordinateColumns column
  then
    let num := Js.parseFloat value in
    if Js.isNaN num
    then Throw (Error (invalid_numeric_message value (Csv.column_text column)))
    else Ok (VNum num)
  else Ok (VStr (Js.trim value)).

(** The callback of [records.map]: the warning it may log, and the
    record it returns.  [col in record] holds for the record's columns
    and for the names every object inherits, such as [constructor].
    [coordinateColumns[i]] beyond the end of the array is [undefined],
    which as a property key reads ["undefined"]. *)
Definition check_record (coordinateColumns : list string) (record : object)
    : list console * object :=
  if forallb (fun col => HasProperty record col) coordinateColumns
  then
    let lat := Get record (nth 0 coordinateColumns "undefined") in
    let lng := Get record (nth 1 coordinateColumns "undefined") in
    if negb (validateCoordinates (read_ToNumber lat) (read_ToNumber lng))
    then ([Warn_invalid_coordinates (record !! "location") lat lng], record)
    else ([], record)
  else ([], record).

(** [records.map(f)] for a callback that logs. *)
Fixpoint map_logging {A B} (f : A -> list console * B) (xs : list A)
    : list console * list B :=
  match xs with
  | [] => ([], [])
  | x :: rest =>
      let '(log1, y) := f x in
      let '(log2, ys) := map_logging f rest in
      ((log1 ++ log2)%list, y :: ys)
  end.

Definition default_coordinateColumns : list string := ["latitude"; "longitude"].

Section WithTokenizer.
Variable tokenize : string -> Csv.scan.

Definition parseCSVWithCoordinates (csvContent : string)
    (numericColumns coordinateColumns : list string)
    : result (list console * list object) :=
  records ← Csv.parse tokenize (cast numericColumns coordinateColumns) csvContent;
  Ok (map_logging (check_record coordinateColumns) records).

(** The shape the three loaders share: [try { read; parse } catch
    (error) { console.error(label, error); throw new Error(message) }]. *)
Definition load (files : gmap string string) (path : string)
    (numericColumns : list string) (label message : string)
    : list console * result (list object) :=
  match
    csvContent ← readFileSync files path;
    parseCSVWithCoordinates csvContent numericColumns default_coordinateColumns
  with
  | Ok (log, records) => (log, Ok records)
  | Throw error => ([Console_error label error], Throw (Error message))
  end.

Definition loadCasualtiesData (files : gmap string string) :=
  load files "data/casualties.csv"
    ["killed"; "injured"; "children_killed"; "women_killed"; "latitude"; "longitude"]
    "Error loading casualties data:" "Failed to load casualties data".

Definition loadInfrastructureData (files : gmap string string) :=
  load files "data/infrastructure.csv"
    ["hospitals_damaged"; "schools_damaged"; "homes_destroyed"; "latitude"; "longitude"]
    "Error loading infrastructure data:" "Failed to load infrastructure data".

Definition loadDisplacementData (files : gmap string string) :=
  load files "data/displacement.csv"
    ["people_displaced"; "displacement_centers"; "capacity"; "latitude"; "longitude"]
    "Error loading displacement data:" "Failed to load displacement data".
End WithTokenizer.

(** A [Map<string, V>]: the entries in insertion order. *)
Definition Map_has {V} (m : list (string * V)) (key : string) : bool :=
  existsb (fun entry => String.eqb (fst entry) key) m.

Definition Map_set {V} (m : list (string * V)) (key : string) (v : V)
    : list (string * V) :=
  if Map_has m key
  then map (fun entry => if String.eqb (fst entry) key then (key, v) else entry) m
  else (m ++ [(key, v)])%list.

Definition Map_values {V} (m : list (string * V)) : list V := map snd m.

(** [`${record.location}-${record.area}`] *)
Definition location_key (record : GeographicData) : string :=
  location record ++ "-" ++ area record.

Definition getUniqueLocations (records : list GeographicData) : list GeographicData :=
  let locationMap :=
    fold_left
      (fun locationMap record =>
         let key := location_key record in
         if negb (Map_has locationMap key)
         then Map_set locationMap key
                {| latitude := latitude record;
                   longitude := longitude record;
                   location := location record;
                   area := area record |}
         else locationMap)
      records []
  in
  Map_values locationMap.

Definition default_bounds : Bounds :=
  {| north := 31.6; south := 31.2; east := 34.5; west := 34.2 |}.

Definition calculateBounds (records : list GeographicData) : Bounds :=
  if (length records =? 0)%nat then default_bounds
  else
    let lats := map latitude records in
    let lngs := map longitude records in
    {| north := Js.Math_max lats;
       south := Js.Math_min lats;
       east := Js.Math_max lngs;
       west := Js.Math_min lngs |}.

End Loader.

(** ** The displacement-events endpoint *)

Module Events.

Record Summary := {
  total_events : nat;
  total_displaced : float;
  gaza_displaced : float;
  west_bank_displaced : float;
  gaza_events_count : nat;
  west_bank_events_count : nat;
  largest_displacement : float
}.

(** The object handed to [json]: the fields the statements below are
    about.  Left out are [date_range], [most_recent_event] and
    [data] (the valid records again, in the order the in-place sort for
    [most_recent_event] leaves them), which depend on [Date] parsing and
    on the engine's sort, and [sources] and [event_types], about which
    nothing is stated here. *)
Inductive Body :=
| Success_body (gaza_events west_bank_events : list object)
    (summary : Summary) (bounds : Bounds)
| Error_body (error : string).

Record Response := {
  body : Body;
  status : nat
}.

Definition numeric_columns : list string :=
  ["latitude"; "longitude"; "figure"; "year"].

(** The [cast] callback of [GET]. *)
Definition cast (value : string) (column : Csv.column) : result Value :=
  if Csv.includes numeric_columns column
  then
    let num := Js.parseFloat value in
    Ok (VNum (if Js.isNaN num then PrimFloat.zero else num))
  else Ok (VStr value).

(** [[headers, ...dataLines].join('\n')] with [headers = lines[0]] and
    [dataLines = lines.slice(2)]. *)
Definition cleanedCSV (csvContent : string) : string :=
  let lines := Js.split "010" csvContent in
  let headers := hd EmptyString lines in
  let dataLines := drop 2 lines in
  Js.join newline (headers :: dataLines).

(** The callback of the first [filter]. *)
Definition is_valid (record : object) : bool :=
  truthy (record !! "latitude")
  && truthy (record !! "longitude")
  && PrimFloat.ltb PrimFloat.zero (ToNumber (record !! "figure"))
  && truthy (record !! "displacement_date")
  && strict_eq_string (record !! "country") "Palestine".

(** [record.locations_name.toLowerCase().includes('gaza')]: a
    [TypeError] unless the property is a string. *)
Definition mentions_gaza (record : object) : result bool :=
  match record !! "locations_name" with
  | Some (VStr name) => Ok (Js.includes "gaza" (Js.toLowerCase name))
  | _ => Throw TypeError
  end.

(** [xs.filter(p)] for a callback that can throw. *)
Fixpoint filter_throwing {A} (p : A -> result bool) (xs : list A) : result (list A) :=
  match xs with
  | [] => Ok []
  | x :: rest =>
      keep ← p x;
      kept ← filter_throwing p rest;
      Ok (if keep : bool then x :: kept else kept)
  end.

(** [xs.reduce((sum, record) => sum + record.figure, 0)].  The cast
    leaves a number under [figure], or nothing ([sum + undefined] is
    [NaN]); see [figure_is_number]. *)
Definition sum_figures (xs : list object) : float :=
  fold_left (fun sum record => PrimFloat.add sum (ToNumber (record !! "figure")))
    xs PrimFloat.zero.

Definition validRecords (records : list object) : list object :=
  List.filter is_valid records.

(** Everything after the parse, up to the object handed to [json]. *)
Definition respond (records : list object) : result Body :=
  let validRecords := validRecords records in
  gazaEvents ← filter_throwing mentions_gaza validRecords;
  westBankEvents ← filter_throwing
                     (fun record => b ← mentions_gaza record; Ok (negb b))
                     validRecords;
  let totalDisplaced := sum_figures validRecords in
  let gazaDisplaced := sum_figures gazaEvents in
  let westBankDisplaced := sum_figures westBankEvents in
  let lats := map (fun r => ToNumber (r !! "latitude")) validRecords in
  let lngs := map (fun r => ToNumber (r !! "longitude")) validRecords in
  let bounds :=
    {| north := Js.Math_max lats;
       south := Js.Math_min lats;
       east := Js.Math_max lngs;
       west := Js.Math_min lngs |} in
  Ok (Success_body gazaEvents westBankEvents
        {| total_events := length validRecords;
           total_displaced := totalDisplaced;
           gaza_displaced := gazaDisplaced;
           west_bank_displaced := westBankDisplaced;
           gaza_events_count := length gazaEvents;
           west_bank_events_count := length westBankEvents;
           largest_displacement :=
             Js.Math_max (map (fun r => ToNumber (r !! "figure")) validRecords) |}
        bounds).

Section WithTokenizer.
Variable tokenize : string -> Csv.scan.

(** The records the handler parses from the file's content. *)
Definition parse_events (csvContent : string) : result (list object) :=
  Csv.parse tokenize cast (cleanedCSV csvContent).

Definition GET (files : gmap string string) : list console * Response :=
  match
    csvContent ← readFileSync files "data/event_data_pse.csv";
    records ← parse_events csvContent;
    respond records
  with
  | Ok body => ([], {| body := body; status := 200 |})
  | Throw error =>
      ([Console_error "Error reading displacement events:" error],
       {| body := Error_body "Failed to load displacement events data";
          status := 500 |})
  end.
End WithTokenizer.

End Events.

(** ** The collection script, [scripts/collect-hdx-data.js]

    The two pure helpers that place a row of a downloaded table on the
    map: [extractLocation] picks the row's location name and
    [getCoordinates] looks it up in the table [GAZA_COORDINATES]. *)

Module Collect.

Record Coordinates := {
  lat : float;
  lng : float;
  area : string
}.

(** What reading a property of the object literal [GAZA_COORDINATES]
    gives: one of its entries; or, under a name that every object
    inherits ([constructor], [toString], ...), the inherited function or
    (under [__proto__]) the prototype, neither of which has coordinates;
    or [undefined]. *)
Inductive property :=
| Entry (coords : Coordinates)
| Inherited (name : string)
| Undefined.

Definition GAZA_COORDINATES : list (string * Coordinates) :=
  [("Gaza", {| lat := 31.5017; lng := 34.4668; area := "North Gaza" |});
   ("Gaza City", {| lat := 31.5017; lng := 34.4668; area := "North Gaza" |});
   ("Khan Younis", {| lat := 31.3469; lng := 34.3044; area := "South Gaza" |});
   ("Rafah", {| lat := 31.2948; lng := 34.2492; area := "South Gaza" |});
   ("Deir al-Balah", {| lat := 31.4181; lng := 34.3517; area := "Central Gaza" |});
   ("Jabalia", {| lat := 31.5314; lng := 34.4831; area := "North Gaza" |});
   ("Gaza Strip", {| lat := 31.4181; lng := 34.3668; area := "Gaza Strip" |})].

(** The property names of [Object.prototype]. *)
Definition Object_prototype : list string :=
  ["constructor"; "__defineGetter__"; "__defineSetter__"; "hasOwnProperty";
   "__lookupGetter__"; "__lookupSetter__"; "isPrototypeOf"; "propertyIsEnumerable";
   "toString"; "valueOf"; "__proto__"; "toLocaleString"].

(** An own property of an object literal, by its key. *)
Fixpoint own {V} (key : string) (entries : list (string * V)) : option V :=
  match entries with
  | [] => None
  | (k, v) :: rest => if String.eqb k key then Some v else own key rest
  end.

(** [GAZA_COORDINATES[location]] *)
Definition Get (location : string) : property :=
  match own location GAZA_COORDINATES with
  | Some coords => Entry coords
  | None =>
      if bool_decide (location ∈ Object_prototype) then Inherited location
      else Undefined
  end.

(** The test of the partial match, for one key of the table. *)
Definition partial_match (location key : string) : bool :=
  Js.includes (Js.toLowerCase key) (Js.toLowerCase location)
  || Js.includes (Js.toLowerCase location) (Js.toLowerCase key).

Definition getCoordinates (location : string) : property :=
  match Get location with
  | Undefined =>
      match List.find (fun entry => partial_match location (fst entry)) GAZA_COORDINATES with
      | Some (_, coords) => Entry coords
      | None => Get "Gaza Strip"
      end
  | found => found
  end.

Definition locationFields : list string :=
  ["location"; "admin1"; "admin2"; "region"; "area"; "place"].

(** The loop of [extractLocation] over the fields still to try.
    [rowData] holds the cells of one row under the header names: strings,
    and nothing under a name that is not a header. *)
Fixpoint extractLocation_from (rowData : gmap string string) (fields : list string)
    : option string :=
  match fields with
  | [] => None
  | field :: rest =>
      match rowData !! field with
      | Some value =>
          if negb (String.eqb value "") && Js.includes "gaza" (Js.toLowerCase value)
          then Some value
          else extractLocation_from rowData rest
      | None => extractLocation_from rowData rest
      end
  end.

Definition extractLocation (rowData : gmap string string) : string :=
  match extractLocation_from rowData locationFields with
  | Some value => value
  | None => "Gaza Strip"
  end.

End Collect.

(** * Properties *)

(** An equation between closed terms, by evaluation. *)
Ltac by_evaluation :=
  lazymatch goal with
  | |- ?lhs = ?rhs => vm_cast_no_check (@eq_refl _ rhs)
  end.

(** ** The CSV library *)

Section CsvFacts.
Variable tokenize : string -> Csv.scan.
Variable cast : string -> Csv.column -> result Value.

Lemma bind_Ok {A B} (m : result A) (f : A -> result B) (b : B) :
  m ≫= f = Ok b -> exists a, m = Ok a /\ f a = Ok b.
Proof. destruct m as [a|e]; simpl; [eauto | discriminate]. Qed.

Lemma bind_Throw {A B} (m : result A) (f : A -> result B) (e : exn) :
  m ≫= f = Throw e -> m = Throw e \/ exists a, m = Ok a /\ f a = Throw e.
Proof. destruct m as [a|e']; simpl; [eauto | intros [= ->]; auto]. Qed.

(** A record that is cast has had each of its fields cast, in place. *)
Lemma cast_fields_Ok columns fields : forall i vs,
  Csv.cast_fields cast columns i fields = Ok vs ->
  length vs = length fields /\
  forall j field, fields !! j = Some field ->
    exists v, vs !! j = Some v /\
              cast field (Csv.context_column columns (i + j)) = Ok v.
Proof.
  induction fields as [|f rest IH]; intros i vs H; simpl in H.
  - injection H as <-. split; [reflexivity | intros j field Hj; discriminate].
  - apply bind_Ok in H as (v & Hv & H).
    apply bind_Ok in H as (vs' & Hvs & H). injection H as <-.
    destruct (IH _ _ Hvs) as [Hlen Hall]. split; [simpl; congruence|].
    intros [|j] field Hj; simpl in Hj.
    + injection Hj as <-. exists v. rewrite Nat.add_0_r. auto.
    + destruct (Hall j field Hj) as (w & Hw & Hc). exists w. split; [exact Hw|].
      replace (i + S j)%nat with (S i + j)%nat by lia. exact Hc.
Qed.

(** A record whose cast throws has a field whose cast throws that. *)
Lemma cast_fields_Throw columns fields : forall i e,
  Csv.cast_fields cast columns i fields = Throw e ->
  exists j field, fields !! j = Some field /\
                  cast field (Csv.context_column columns (i + j)) = Throw e.
Proof.
  induction fields as [|f rest IH]; intros i e H; simpl in H; [discriminate|].
  apply bind_Throw in H as [H | (v & Hv & H)].
  - exists 0%nat, f. rewrite Nat.add_0_r. auto.
  - apply bind_Throw in H as [H | (vs & _ & H)]; [|discriminate].
    destruct (IH _ _ H) as (j & field & Hj & Hc). exists (S j), field.
    replace (i + S j)%nat with (S i + j)%nat by lia. auto.
Qed.

(** With a cast that never throws, every record is cast. *)
Lemma cast_fields_total columns fields i :
  (forall field column, exists v, cast field column = Ok v) ->
  exists vs, Csv.cast_fields cast columns i fields = Ok vs.
Proof.
  intros Htotal. destruct (Csv.cast_fields cast columns i fields) as [vs|e] eqn:H; [eauto|].
  apply cast_fields_Throw in H as (j & field & _ & Hc).
  destruct (Htotal field (Csv.context_column columns (i + j))) as [v Hv]. congruence.
Qed.

(** What [records_of] returns: one object per record, each record as
    long as the header. *)
Lemma records_of_Ok names data : forall objs,
  Csv.records_of cast names data = Ok objs ->
  Forall2 (fun fields obj =>
             length fields = length names /\
             exists vs, Csv.cast_fields cast (Some names) 0 fields = Ok vs /\
                        obj = Csv.make_object names vs)
          data objs.
Proof.
  induction data as [|fields rest IH]; intros objs H; simpl in H.
  - injection H as <-. constructor.
  - apply bind_Ok in H as (vs & Hvs & H).
    destruct (Nat.eqb_spec (length fields) (length names)) as [Hlen|]; [|discriminate].
    apply bind_Ok in H as (objs' & Hobjs & H). injection H as <-.
    constructor; eauto.
Qed.

(** What [records_of] throws: the error of the first record that fails,
    in its cast or in its length. *)
Lemma records_of_Throw names data : forall e,
  Csv.records_of cast names data = Throw e ->
  exists fields, fields ∈ data /\
    (Csv.cast_fields cast (Some names) 0 fields = Throw e \/
     (length fields <> length names /\
      e = CsvRecordLength (length names) (length fields))).
Proof.
  induction data as [|fields rest IH]; intros e H; simpl in H; [discriminate|].
  apply bind_Throw in H as [H | (vs & Hvs & H)].
  - exists fields. split; [left | auto].
  - destruct (Nat.eqb_spec (length fields) (length names)) as [Hlen|Hlen].
    + apply bind_Throw in H as [H | (objs & _ & H)]; [|discriminate].
      destruct (IH _ H) as (fields' & Hin & Hwhy). exists fields'. split; [by right | exact Hwhy].
    + injection H as <-. exists fields. split; [left | auto].
Qed.

(** Records that all cast and all have the header's length are parsed. *)
Lemma records_of_total names data :
  Forall (fun fields => length fields = length names /\
                        exists vs, Csv.cast_fields cast (Some names) 0 fields = Ok vs) data ->
  exists objs, Csv.records_of cast names data = Ok objs.
Proof.
  induction 1 as [|fields rest [Hlen [vs Hvs]] _ [objs IH]]; simpl; [eauto|].
  rewrite Hvs. simpl. rewrite Hlen, Nat.eqb_refl, IH. simpl. eauto.
Qed.

(** A successful parse, taken apart. *)
Lemma parse_Ok text objs header data :
  Csv.parse tokenize cast text = Ok objs ->
  Csv.rows (tokenize text) = header :: data ->
  Csv.broken (tokenize text) = None /\
  exists hs names,
    Csv.cast_fields cast None 0 header = Ok hs /\
    Csv.normalize_columns hs = Ok names /\
    Csv.records_of cast names data = Ok objs.
Proof.
  unfold Csv.parse. intros H Hrows. rewrite Hrows in H.
  apply bind_Ok in H as (hs & Hhs & H).
  apply bind_Ok in H as (names & Hnames & H).
  apply bind_Ok in H as (objs' & Hobjs & H).
  unfold Csv.finish in H. destruct (Csv.broken (tokenize text)) as [[fields code]|].
  - apply bind_Ok in H as (? & _ & H). discriminate.
  - injection H as <-. split; [reflexivity | eauto].
Qed.

(** The property under a name in an object built from a record: the
    value at the last column of that name. *)
Lemma fold_insert_absent (l : list (string * Value)) k : forall m : object,
  (forall j v, l !! j <> Some (k, v)) ->
  fold_left (fun obj '(name, v) => <[name := v]> obj) l m !! k = m !! k.
Proof.
  induction l as [|[k' v'] l IH]; intros m Habs; simpl; [reflexivity|].
  rewrite IH.
  - apply lookup_insert_ne. intros ->. exact (Habs 0%nat v' eq_refl).
  - intros j v. exact (Habs (S j) v).
Qed.

Lemma fold_insert_last (l : list (string * Value)) k v : forall j (m : object),
  l !! j = Some (k, v) ->
  (forall j' v', (j < j')%nat -> l !! j' <> Some (k, v')) ->
  fold_left (fun obj '(name, v) => <[name := v]> obj) l m !! k = Some v.
Proof.
  induction l as [|[k' v'] l IH]; intros j m Hj Hlast; [discriminate|].
  destruct j as [|j]; simpl in *.
  - injection Hj as -> ->. rewrite fold_insert_absent.
    + apply lookup_insert_eq.
    + intros j v'. apply (Hlast (S j) v'). lia.
  - apply (IH j); [exact Hj|]. intros j' w Hlt. apply (Hlast (S j') w). lia.
Qed.

Lemma fold_insert_Some (l : list (string * Value)) k v : forall m : object,
  fold_left (fun obj '(name, v) => <[name := v]> obj) l m !! k = Some v ->
  m !! k = Some v \/ exists j, l !! j = Some (k, v).
Proof.
  induction l as [|[k' v'] l IH]; intros m H; simpl in H; [auto|].
  destruct (IH _ H) as [Hm | [j Hj]].
  - destruct (decide (k' = k)) as [->|Hne].
    + rewrite lookup_insert_eq in Hm. injection Hm as ->. right. by exists 0%nat.
    + rewrite lookup_insert_ne in Hm by exact Hne. auto.
  - right. by exists (S j).
Qed.

Lemma make_object_last names vs j name v :
  names !! j = Some name -> vs !! j = Some v ->
  (forall j', (j < j')%nat -> names !! j' <> Some name) ->
  Csv.make_object names vs !! name = Some v.
Proof.
  intros Hn Hv Hlast. unfold Csv.make_object. apply (fold_insert_last _ _ _ j).
  - apply lookup_zip_with_Some. eauto.
  - intros j' v' Hlt H. apply lookup_zip_with_Some in H as (n & w & [= <- <-] & Hn' & _).
    exact (Hlast j' Hlt Hn').
Qed.

Lemma make_object_Some names vs name v :
  Csv.make_object names vs !! name = Some v ->
  exists j, names !! j = Some name /\ vs !! j = Some v.
Proof.
  intros H. apply fold_insert_Some in H as [H | [j H]].
  - rewrite lookup_empty in H. discriminate.
  - apply lookup_zip_with_Some in H as (n & w & [= <- <-] & Hn & Hv). eauto.
Qed.
End CsvFacts.

(** ** The generic parser *)

Section LoaderFacts.
Variable tokenize : string -> Csv.scan.
Variables numericColumns coordinateColumns : list string.

Local Abbreviation cast := (Loader.cast numericColumns coordinateColumns).

(** The columns whose cells the cast converts. *)
Definition numeric (name : string) : Prop :=
  name ∈ numericColumns \/ name ∈ coordinateColumns.

(** A cell of the table [header :: data] that lies in a numeric column
    named [name] and whose text [raw] does not read as a number. *)
Definition bad_cell (header : list string) (data : list (list string))
    (name raw : string) : Prop :=
  exists fields j hname,
    fields ∈ data /\ header !! j = Some hname /\ Js.trim hname = name /\
    fields !! j = Some raw /\
    numeric name /\ Js.isNaN (Js.parseFloat raw) = true.

Lemma includes_numeric column :
  Csv.includes numericColumns column || Csv.includes coordinateColumns column = true
  <-> exists name, column = Csv.ColName name /\ numeric name.
Proof.
  unfold numeric. destruct column as [i|name|]; simpl.
  - split; [discriminate | intros (? & [=] & _)].
  - rewrite orb_true_iff, !bool_decide_eq_true. split.
    + intros H. eauto.
    + intros (? & [= <-] & H). exact H.
  - split; [discriminate | intros (? & [=] & _)].
Qed.

Lemma cast_numeric name raw :
  numeric name ->
  cast raw (Csv.ColName name) =
    if Js.isNaN (Js.parseFloat raw)
    then Throw (Error (Loader.invalid_numeric_message raw name))
    else Ok (VNum (Js.parseFloat raw)).
Proof.
  intros H. unfold Loader.cast.
  destruct (includes_numeric (Csv.ColName name)) as [_ ->]; [reflexivity | eauto].
Qed.

Lemma cast_text column raw :
  (forall name, column = Csv.ColName name -> ~ numeric name) ->
  cast raw column = Ok (VStr (Js.trim raw)).
Proof.
  intros H. unfold Loader.cast.
  destruct (Csv.includes numericColumns column || Csv.includes coordinateColumns column) eqn:E;
    [|reflexivity].
  apply includes_numeric in E as (name & -> & Hn). destruct (H name eq_refl Hn).
Qed.

Lemma cast_Throw raw column e :
  cast raw column = Throw e ->
  exists name, column = Csv.ColName name /\ numeric name /\
               Js.isNaN (Js.parseFloat raw) = true /\
               e = Error (Loader.invalid_numeric_message raw name).
Proof.
  unfold Loader.cast.
  destruct (Csv.includes numericColumns column || Csv.includes coordinateColumns column) eqn:E;
    [|discriminate].
  apply includes_numeric in E as (name & -> & Hn). simpl.
  destruct (Js.isNaN (Js.parseFloat raw)); [|discriminate].
  intros [= <-]. eauto.
Qed.

(** The header is cast with its indexes for columns, so it is trimmed. *)
Lemma cast_header header : forall i,
  Csv.cast_fields cast None i header = Ok (map (fun h => VStr (Js.trim h)) header).
Proof.
  induction header as [|h rest IH]; intros i; cbn [Csv.cast_fields map]; [reflexivity|].
  rewrite cast_text by (intros name [=]). rewrite IH. reflexivity.
Qed.

Lemma normalize_trimmed header :
  Csv.normalize_columns (map (fun h => VStr (Js.trim h)) header)
  = Ok (map Js.trim header).
Proof. induction header as [|h rest IH]; simpl; [|rewrite IH]; reflexivity. Qed.

(** The parse of a text with a header is the parse of its records
    under the trimmed header names. *)
Lemma parse_with_header text header data :
  Csv.rows (tokenize text) = header :: data ->
  Csv.parse tokenize cast text =
    objs ← Csv.records_of cast (map Js.trim header) data;
    Csv.finish cast (Some (map Js.trim header)) (Csv.broken (tokenize text)) objs.
Proof.
  intros Hrows. unfold Csv.parse. rewrite Hrows, cast_header. simpl.
  rewrite normalize_trimmed. reflexivity.
Qed.

(** The value the cast gives a cell, by the name of its column. *)
Definition cell_value (name raw : string) : Value :=
  if bool_decide (name ∈ numericColumns) || bool_decide (name ∈ coordinateColumns)
  then VNum (Js.parseFloat raw)
  else VStr (Js.trim raw).

Lemma cast_Ok raw name v :
  cast raw (Csv.ColName name) = Ok v -> v = cell_value name raw.
Proof.
  unfold Loader.cast, cell_value. simpl.
  destruct (bool_decide (name ∈ numericColumns) || bool_decide (name ∈ coordinateColumns));
    [|congruence].
  destruct (Js.isNaN (Js.parseFloat raw)); [discriminate | congruence].
Qed.

(** [records.map] returns the records it was given. *)
Lemma map_logging_records (records : list object) :
  snd (Loader.map_logging (Loader.check_record coordinateColumns) records) = records.
Proof.
  induction records as [|record rest IH]; simpl; [reflexivity|].
  destruct (Loader.map_logging _ rest) as [log2 ys]. simpl in IH. subst ys.
  unfold Loader.check_record.
  destruct (forallb _ coordinateColumns); [|reflexivity].
  destruct (negb _); reflexivity.
Qed.

(** The warnings of one record: one, when the record has every
    coordinate column and its pair is outside the box. *)
Definition warnings_of (record : object) : list console :=
  fst (Loader.check_record coordinateColumns record).

Lemma map_logging_log (records : list object) :
  fst (Loader.map_logging (Loader.check_record coordinateColumns) records)
  = flat_map warnings_of records.
Proof.
  induction records as [|record rest IH]; simpl; [reflexivity|].
  destruct (Loader.map_logging _ rest) as [log2 ys]. simpl in IH. subst log2.
  unfold warnings_of. destruct (Loader.check_record coordinateColumns record). reflexivity.
Qed.

Lemma parseCSVWithCoordinates_Ok text log records :
  Loader.parseCSVWithCoordinates tokenize text numericColumns coordinateColumns
    = Ok (log, records) ->
  Csv.parse tokenize cast text = Ok records.
Proof.
  unfold Loader.parseCSVWithCoordinates. intros H.
  apply bind_Ok in H as (records' & Hp & H). injection H as H.
  rewrite Hp. f_equal. rewrite <- (map_logging_records records'), H. reflexivity.
Qed.
End LoaderFacts.

Section ParserClaims.
Variable tokenize : string -> Csv.scan.
Variables numericColumns coordinateColumns : list string.

Local Abbreviation cast := (Loader.cast numericColumns coordinateColumns).
Local Abbreviation parseCSV :=
  (fun text => Loader.parseCSVWithCoordinates tokenize text numericColumns coordinateColumns).
Local Abbreviation bad := (bad_cell numericColumns coordinateColumns).

Lemma bad_cell_of_Throw header data fields e :
  fields ∈ data ->
  Csv.cast_fields cast (Some (map Js.trim header)) 0 fields = Throw e ->
  exists name raw, bad header data name raw /\
                   e = Error (Loader.invalid_numeric_message raw name).
Proof.
  intros Hin H. apply cast_fields_Throw in H as (j & raw & Hj & Hc).
  apply cast_Throw in Hc as (name & Hcol & Hnum & Hnan & ->).
  exists name, raw. split; [|reflexivity].
  unfold Csv.context_column in Hcol. simpl in Hcol.
  destruct (map Js.trim header !! j) as [name'|] eqn:Hname; [|discriminate].
  injection Hcol as ->. rewrite list_lookup_fmap in Hname.
  destruct (header !! j) as [hname|] eqn:Hh; [|discriminate]. injection Hname as Hname.
  exists fields, j, hname. auto 10.
Qed.


Lemma classic_numeric name :
  numeric numericColumns coordinateColumns name \/
  ~ numeric numericColumns coordinateColumns name.
Proof.
  unfold numeric.
  destruct (decide (name ∈ numericColumns)); destruct (decide (name ∈ coordinateColumns)); tauto.
Qed.

Lemma cell_value_numeric name raw :
  numeric numericColumns coordinateColumns name ->
  cell_value numericColumns coordinateColumns name raw = VNum (Js.parseFloat raw).
Proof.
  intros [H|H]; unfold cell_value.
  - by rewrite (bool_decide_eq_true_2 _ H).
  - by rewrite (bool_decide_eq_true_2 _ H), orb_true_r.
Qed.

Lemma cell_value_text name raw :
  ~ numeric numericColumns coordinateColumns name ->
  cell_value numericColumns coordinateColumns name raw = VStr (Js.trim raw).
Proof.
  intros H. unfold cell_value, numeric in *.
  rewrite !bool_decide_eq_false_2; [reflexivity | tauto | tauto].
Qed.

(** C2.  When [parseCSVWithCoordinates] succeeds on a text whose table is
    [header :: data], it returns one record per data record, in order,
    and each field of each record is the cast of the raw cell under the
    (trimmed) column name: the parsed float when the name is in the
    numeric or coordinate columns, the trimmed text otherwise.  Where a
    name repeats in the header the field holds the cell of its last
    column; and a record has no other fields. *)
Theorem parseCSVWithCoordinates_fields text header data log records :
  Csv.rows (tokenize text) = header :: data ->
  parseCSV text = Ok (log, records) ->
  length records = length data /\
  forall i fields record,
    data !! i = Some fields -> records !! i = Some record ->
    (forall j hname raw,
        header !! j = Some hname -> fields !! j = Some raw ->
        (forall j' hname', (j < j')%nat -> header !! j' = Some hname' ->
                           Js.trim hname' <> Js.trim hname) ->
        (numeric numericColumns coordinateColumns (Js.trim hname) ->
         record !! Js.trim hname = Some (VNum (Js.parseFloat raw))) /\
        (~ numeric numericColumns coordinateColumns (Js.trim hname) ->
         record !! Js.trim hname = Some (VStr (Js.trim raw)))) /\
    (forall name v,
        record !! name = Some v ->
        exists j hname raw,
          header !! j = Some hname /\ Js.trim hname = name /\
          fields !! j = Some raw /\
          ((numeric numericColumns coordinateColumns name /\
            v = VNum (Js.parseFloat raw)) \/
           (~ numeric numericColumns coordinateColumns name /\
            v = VStr (Js.trim raw)))).
Proof.
  intros Hrows H. apply parseCSVWithCoordinates_Ok in H.
  destruct (parse_Ok _ _ _ _ _ _ H Hrows) as (_ & hs & names & Hhs & Hnames & Hrec).
  rewrite cast_header in Hhs. injection Hhs as <-.
  rewrite normalize_trimmed in Hnames. injection Hnames as <-.
  apply records_of_Ok in Hrec. split; [symmetry; exact (Forall2_length _ _ _ Hrec)|].
  intros i fields record Hi Hr.
  destruct (Forall2_lookup_lr _ _ _ _ _ _ Hrec Hi Hr) as (Hlen & vs & Hvs & ->).
  apply cast_fields_Ok in Hvs as [Hlenvs Hvs]. split.
  - intros j hname raw Hh Hraw Hlast.
    destruct (Hvs j raw Hraw) as (v & Hv & Hc).
    unfold Csv.context_column in Hc. simpl in Hc.
    rewrite list_lookup_fmap, Hh in Hc. simpl in Hc. apply cast_Ok in Hc. subst v.
    assert (Hobj : Csv.make_object (map Js.trim header) vs !! Js.trim hname
                   = Some (cell_value numericColumns coordinateColumns (Js.trim hname) raw)).
    { apply (make_object_last _ _ j); [by rewrite list_lookup_fmap, Hh | exact Hv |].
      intros j' Hlt Hj'. rewrite list_lookup_fmap in Hj'.
      destruct (header !! j') as [hname'|] eqn:Hh'; [|discriminate].
      injection Hj' as Hj'. exact (Hlast j' hname' Hlt Hh' Hj'). }
    split; intros Hn; rewrite Hobj; f_equal;
      [by apply cell_value_numeric | by apply cell_value_text].
  - intros name v Hobj. apply make_object_Some in Hobj as (j & Hn & Hv).
    rewrite list_lookup_fmap in Hn.
    destruct (header !! j) as [hname|] eqn:Hh; [|discriminate]. injection Hn as Hn.
    assert (Hj : (j < length fields)%nat).
    { rewrite <- Hlenvs. by apply lookup_lt_Some in Hv. }
    apply lookup_lt_is_Some in Hj as [raw Hraw].
    destruct (Hvs j raw Hraw) as (v' & Hv' & Hc). rewrite Hv in Hv'. injection Hv' as <-.
    unfold Csv.context_column in Hc. simpl in Hc.
    rewrite list_lookup_fmap, Hh in Hc. simpl in Hc. rewrite Hn in Hc.
    apply cast_Ok in Hc. exists j, hname, raw. repeat split; try assumption.
    destruct (classic_numeric name) as [Hnum|Hnum].
    + left. split; [exact Hnum|]. by rewrite Hc, cell_value_numeric.
    + right. split; [exact Hnum|]. by rewrite Hc, cell_value_text.
Qed.

(** C8.  The validation pass of [parseCSVWithCoordinates] changes nothing
    in its result: the function returns exactly the records the library
    parsed, in the same order, each one unchanged, and throws exactly
    what the library threw.  [validateCoordinates] only decides what is
    logged: a record in which every coordinate column is a property
    ([col in record]) and whose pair is outside the box adds one warning,
    any other record adds none, and either way the record stays. *)
Theorem validation_never_changes_records text :
  parseCSV text =
    (records ← Csv.parse tokenize cast text;
     Ok (flat_map (warnings_of coordinateColumns) records, records))
  /\
  forall record : object,
    let lat := Get record (nth 0 coordinateColumns "undefined") in
    let lng := Get record (nth 1 coordinateColumns "undefined") in
    snd (Loader.check_record coordinateColumns record) = record /\
    warnings_of coordinateColumns record =
      if forallb (fun col => HasProperty record col) coordinateColumns
         && negb (Loader.validateCoordinates (read_ToNumber lat) (read_ToNumber lng))
      then [Warn_invalid_coordinates (record !! "location") lat lng]
      else [].
Proof.
  split.
  - unfold Loader.parseCSVWithCoordinates.
    destruct (Csv.parse tokenize cast text) as [records|e]; simpl; [|reflexivity].
    pose proof (map_logging_log coordinateColumns records) as Hlog.
    pose proof (map_logging_records coordinateColumns records) as Hrecs.
    destruct (Loader.map_logging _ records) as [log out]. simpl in *. by subst.
  - intros record lat lng. unfold warnings_of, Loader.check_record. subst lat lng.
    destruct (forallb _ coordinateColumns); simpl; [|done].
    by destruct (Loader.validateCoordinates _ _).
Qed.

End ParserClaims.

(** *** The parser on two small casualty files *)

Definition casualties_columns : list string :=
  ["killed"; "injured"; "children_killed"; "women_killed"; "latitude"; "longitude"].

Definition casualties_header : string :=
  "date,killed,injured,children_killed,women_killed,latitude,longitude,location,area,source".

(** Two records; the second lies outside the box. *)
Definition casualties_csv : string :=
  Js.join newline
    [casualties_header;
     "2023-10-07, 12,30,4,3,31.5,34.45, Gaza City ,Gaza,MoH";
     "2023-10-08,1,2,0,0,33.5,34.45,Elsewhere,Gaza,MoH";
     ""].

(** The same with an injured count that is not a number. *)
Definition bad_casualties_csv : string :=
  Js.join newline
    [casualties_header;
     "2023-10-07, 12,30,4,3,31.5,34.45, Gaza City ,Gaza,MoH";
     "2023-10-08,1,n/a,0,0,33.5,34.45,Elsewhere,Gaza,MoH";
     ""].


(** A record with one field too many, before a record whose [killed] is
    not a number. *)
Definition ragged_csv : string :=
  Js.join newline
    ["location,killed";
     "x,1";
     "y,2,extra";
     "z,bad"].


(** In a header without repeated names no later column has the name of
    an earlier one. *)
Lemma no_later_column {A} (f : A -> string) (header : list A) :
  NoDup (map f header) ->
  forall j name, header !! j = Some name ->
  forall j' name', (j < j')%nat -> header !! j' = Some name' -> f name' <> f name.
Proof.
  intros Hnodup j name Hj j' name' Hlt Hj' Heq.
  assert (j = j'); [|lia].
  apply (NoDup_lookup _ _ _ (f name) Hnodup); rewrite list_lookup_fmap.
  - by rewrite Hj.
  - rewrite Hj'. simpl. by rewrite Heq.
Qed.

(** The two records of the good file, as the parser returns them. *)
Definition gaza_city_record : object :=
  list_to_map
    [("date", VStr "2023-10-07"); ("killed", VNum 12); ("injured", VNum 30);
     ("children_killed", VNum 4); ("women_killed", VNum 3);
     ("latitude", VNum 31.5); ("longitude", VNum 34.45);
     ("location", VStr "Gaza City"); ("area", VStr "Gaza"); ("source", VStr "MoH")].

Definition elsewhere_record : object :=
  list_to_map
    [("date", VStr "2023-10-08"); ("killed", VNum 1); ("injured", VNum 2);
     ("children_killed", VNum 0); ("women_killed", VNum 0);
     ("latitude", VNum 33.5); ("longitude", VNum 34.45);
     ("location", VStr "Elsewhere"); ("area", VStr "Gaza"); ("source", VStr "MoH")].

Lemma casualties_csv_parsed :
  Loader.parseCSVWithCoordinates Csv.plain_tokenize casualties_csv
    casualties_columns Loader.default_coordinateColumns
  = Ok ([Warn_invalid_coordinates (Some (VStr "Elsewhere"))
           (Own_property (VNum 33.5)) (Own_property (VNum 34.45))],
        [gaza_city_record; elsewhere_record]).
Proof. by_evaluation. Qed.

Lemma parseCSVWithCoordinates_fields_witness :
  let header := Js.split "," casualties_header in
  let data := tl (Csv.rows (Csv.plain_tokenize casualties_csv)) in
  Csv.rows (Csv.plain_tokenize casualties_csv) = header :: data /\
  Loader.parseCSVWithCoordinates Csv.plain_tokenize casualties_csv
    casualties_columns Loader.default_coordinateColumns
  = Ok ([Warn_invalid_coordinates (Some (VStr "Elsewhere"))
           (Own_property (VNum 33.5)) (Own_property (VNum 34.45))],
        [gaza_city_record; elsewhere_record]) /\
  header !! 1%nat = Some "killed" /\ header !! 7%nat = Some "location" /\
  data !! 0%nat = Some (Js.split "," "2023-10-07, 12,30,4,3,31.5,34.45, Gaza City ,Gaza,MoH") /\
  gaza_city_record !! "killed" = Some (VNum (Js.parseFloat " 12")) /\
  gaza_city_record !! "location" = Some (VStr (Js.trim " Gaza City ")).
Proof.
  intros header data.
  assert (Hrows : Csv.rows (Csv.plain_tokenize casualties_csv) = header :: data)
    by by_evaluation.
  assert (Hdata : data !! 0%nat
                  = Some (Js.split "," "2023-10-07, 12,30,4,3,31.5,34.45, Gaza City ,Gaza,MoH"))
    by by_evaluation.
  assert (Hlast : forall j name, header !! j = Some name ->
                    forall j' hname', (j < j')%nat -> header !! j' = Some hname' ->
                                      Js.trim hname' <> Js.trim name).
  { apply no_later_column. apply (bool_decide_unpack (NoDup _)). vm_compute. exact I. }
  destruct (parseCSVWithCoordinates_fields Csv.plain_tokenize
              casualties_columns Loader.default_coordinateColumns
              casualties_csv header data _ _ Hrows casualties_csv_parsed) as [_ Hfields].
  destruct (Hfields 0%nat _ gaza_city_record Hdata eq_refl) as [Hcells _].
  split; [exact Hrows|]. split; [exact casualties_csv_parsed|].
  split; [reflexivity|]. split; [reflexivity|].
  split; [exact Hdata|]. split.
  - destruct (Hcells 1%nat "killed" " 12" eq_refl eq_refl (Hlast 1%nat "killed" eq_refl))
      as [Hnum _].
    apply Hnum. left. apply list_elem_of_In. simpl. tauto.
  - destruct (Hcells 7%nat "location" " Gaza City " eq_refl eq_refl
                (Hlast 7%nat "location" eq_refl)) as [_ Htext].
    apply Htext. intros [Hin|Hin]; apply list_elem_of_In in Hin; simpl in Hin;
      intuition discriminate.
Defined.

(** ** The loaders and the handler at their boundary *)

Section Boundary.
Variable tokenize : string -> Csv.scan.

(** What a loader owes at its boundary, for the file at [path]: a file
    that cannot be read and a parse that throws both end in the fixed
    [Error message], the original error going to the console only; a
    parse that succeeds is passed on. *)
Definition loader_contract
    (loader : gmap string string -> list console * result (list object))
    (path : string) (numericColumns : list string) (label message : string) : Prop :=
  forall files : gmap string string,
    (files !! path = None ->
     loader files = ([Console_error label (FsError path)], Throw (Error message))) /\
    (forall content original,
        files !! path = Some content ->
        Loader.parseCSVWithCoordinates tokenize content numericColumns
          Loader.default_coordinateColumns = Throw original ->
        loader files = ([Console_error label original], Throw (Error message))) /\
    (forall content log records,
        files !! path = Some content ->
        Loader.parseCSVWithCoordinates tokenize content numericColumns
          Loader.default_coordinateColumns = Ok (log, records) ->
        loader files = (log, Ok records)) /\
    (forall e, snd (loader files) = Throw e -> e = Error message).

Lemma load_contract path numericColumns label message :
  loader_contract (fun files => Loader.load tokenize files path numericColumns label message)
    path numericColumns label message.
Proof.
  intros files. unfold Loader.load, readFileSync. repeat split.
  - by intros ->.
  - intros content original -> H. simpl. by rewrite H.
  - intros content log records -> H. simpl. by rewrite H.
  - intros e. destruct (files !! path) as [content|]; simpl.
    + destruct (Loader.parseCSVWithCoordinates _ _ _ _) as [[log records]|e']; simpl; congruence.
    + congruence.
Qed.

Definition events_path : string := "data/event_data_pse.csv".

Definition events_failure : Events.Response :=
  {| Events.body := Events.Error_body "Failed to load displacement events data";
     Events.status := 500 |}.

(** C9.  Each of the three generic loaders turns every failure inside it
    (the file cannot be read, or the parser throws) into exactly its
    fixed ["Failed to load <dataset> data"] error, with the original
    error logged and not passed on; and the displacement-events handler
    turns every failure inside it (the file cannot be read, the parser
    throws, or the computation of the response throws) into the response
    [{ success: false, error: 'Failed to load displacement events data' }]
    with status 500; any other run answers with status 200. *)
Theorem loaders_fail_uniformly :
  loader_contract (Loader.loadCasualtiesData tokenize) "data/casualties.csv"
    ["killed"; "injured"; "children_killed"; "women_killed"; "latitude"; "longitude"]
    "Error loading casualties data:" "Failed to load casualties data" /\
  loader_contract (Loader.loadInfrastructureData tokenize) "data/infrastructure.csv"
    ["hospitals_damaged"; "schools_damaged"; "homes_destroyed"; "latitude"; "longitude"]
    "Error loading infrastructure data:" "Failed to load infrastructure data" /\
  loader_contract (Loader.loadDisplacementData tokenize) "data/displacement.csv"
    ["people_displaced"; "displacement_centers"; "capacity"; "latitude"; "longitude"]
    "Error loading displacement data:" "Failed to load displacement data" /\
  forall files : gmap string string,
    let failed original :=
      Events.GET tokenize files =
        ([Console_error "Error reading displacement events:" original], events_failure) in
    (files !! events_path = None -> failed (FsError events_path)) /\
    (forall content original,
        files !! events_path = Some content ->
        Events.parse_events tokenize content = Throw original -> failed original) /\
    (forall content records original,
        files !! events_path = Some content ->
        Events.parse_events tokenize content = Ok records ->
        Events.respond records = Throw original -> failed original) /\
    (forall content records body,
        files !! events_path = Some content ->
        Events.parse_events tokenize content = Ok records ->
        Events.respond records = Ok body ->
        Events.GET tokenize files = ([], {| Events.body := body; Events.status := 200 |})) /\
    (Events.status (snd (Events.GET tokenize files)) = 200%nat \/
     snd (Events.GET tokenize files) = events_failure).
Proof.
  split; [apply load_contract|]. split; [apply load_contract|]. split; [apply load_contract|].
  intros files failed. subst failed. unfold Events.GET, readFileSync, events_path.
  repeat split.
  - by intros ->.
  - intros content original -> H. simpl. by rewrite H.
  - intros content records original -> H1 H2. simpl. rewrite H1. simpl. by rewrite H2.
  - intros content records body -> H1 H2. simpl. rewrite H1. simpl. by rewrite H2.
  - destruct (files !! "data/event_data_pse.csv") as [content|]; simpl; [|by right].
    destruct (Events.parse_events tokenize content) as [records|e]; simpl; [|by right].
    destruct (Events.respond records); [by left | by right].
Qed.

End Boundary.

(** A directory with a good casualty file, a bad one in the place of the
    infrastructure file, and nothing else. *)
Definition some_files : gmap string string :=
  {[ "data/casualties.csv" := casualties_csv;
     "data/infrastructure.csv" := bad_casualties_csv ]}.

Lemma loaders_fail_uniformly_witness :
  Loader.loadDisplacementData Csv.plain_tokenize some_files
  = ([Console_error "Error loading displacement data:" (FsError "data/displacement.csv")],
     Throw (Error "Failed to load displacement data")) /\
  Events.GET Csv.plain_tokenize some_files
  = ([Console_error "Error reading displacement events:" (FsError events_path)],
     events_failure).
Proof.
  destruct (loaders_fail_uniformly Csv.plain_tokenize) as (_ & _ & Hdisp & Hget). split.
  - destruct (Hdisp some_files) as [Hmissing _]. apply Hmissing. reflexivity.
  - destruct (Hget some_files) as [Hmissing _]. apply Hmissing. reflexivity.
Defined.

(** ** Binary64 facts

    What the statements below need of the ordering and of the exact
    values of floats, from the specification of the primitive
    operations ([FloatAxioms]) and the format's validity predicate. *)

Section Binary64.

Lemma digits2_pos_bounds m :
  2 ^ (Zpos (digits2_pos m) - 1) <= Zpos m < 2 ^ Zpos (digits2_pos m).
Proof.
  induction m as [m IH|m IH|]; simpl digits2_pos.
  - rewrite Pos2Z.inj_succ. replace (Z.succ (Zpos (digits2_pos m)) - 1) with (Z.succ (Zpos (digits2_pos m) - 1)) by lia.
    rewrite !Z.pow_succ_r by lia. lia.
  - rewrite Pos2Z.inj_succ. replace (Z.succ (Zpos (digits2_pos m)) - 1) with (Z.succ (Zpos (digits2_pos m) - 1)) by lia.
    rewrite !Z.pow_succ_r by lia. lia.
  - simpl. lia.
Qed.

Lemma valid_finite s m e :
  valid_binary (S754_finite s m e) = true ->
  -1074 <= e <= 971 /\ Zpos m < 9007199254740992 /\
  (e = -1074 \/ 4503599627370496 <= Zpos m).
Proof.
  unfold valid_binary, bounded, canonical_mantissa, fexp, SpecFloat.emin, prec, emax.
  intros H. apply andb_true_iff in H as [H1 H2].
  apply Z.eqb_eq in H1. apply Z.leb_le in H2.
  pose proof (digits2_pos_bounds m) as [Hlo Hhi].
  assert (Hd : Zpos (digits2_pos m) <= 53) by lia.
  split; [lia|]. split.
  - apply (Z.lt_le_trans _ _ _ Hhi). change 9007199254740992 with (2 ^ 53).
    apply Z.pow_le_mono_r; lia.
  - destruct (Z.eq_dec e (-1074)) as [|Hne]; [by left|right].
    assert (Zpos (digits2_pos m) = 53) by lia.
    replace (Zpos (digits2_pos m) - 1) with 52 in Hlo by lia. exact Hlo.
Qed.

Lemma Prim2SF_not_nan x : PrimFloat.is_nan x = false -> Prim2SF x <> S754_nan.
Proof.
  unfold Prim2SF. intros ->.
  destruct (is_zero x); [discriminate|]. destruct (is_infinity x); [discriminate|].
  destruct (Z.frexp x) as [r ex]. destruct (shr_fexp _ _ _ _ _) as [shr e'].
  destruct (shr_m shr); discriminate.
Qed.

Lemma Prim2SF_nan x : PrimFloat.is_nan x = true -> Prim2SF x = S754_nan.
Proof. unfold Prim2SF. by intros ->. Qed.

(** An order-preserving numbering of the binary64 values: the sign, then
    the exponent, then the mantissa. *)
Definition rank (f : spec_float) : Z :=
  match f with
  | S754_zero _ => 0
  | S754_infinity s => cond_Zopp s (4096 * 9007199254740992)
  | S754_nan => 0
  | S754_finite s m e => cond_Zopp s ((e + 1075) * 9007199254740992 + Zpos m)
  end.

Lemma SFcompare_rank x y :
  valid_binary x = true -> valid_binary y = true ->
  x <> S754_nan -> y <> S754_nan ->
  SFcompare x y = Some (rank x ?= rank y).
Proof.
  intros Hx Hy Hnx Hny.
  destruct x as [sx|sx| |sx mx ex]; [| | congruence |];
  destruct y as [sy|sy| |sy my ey]; try congruence;
  try (apply valid_finite in Hx as (Hx1 & Hx2 & _));
  try (apply valid_finite in Hy as (Hy1 & Hy2 & _));
  unfold SFcompare, rank, cond_Zopp; f_equal; symmetry;
  repeat match goal with s : bool |- _ => destruct s end;
  try reflexivity;
  try (apply Z.compare_lt_iff; lia); try (apply Z.compare_gt_iff; lia).
  - destruct (Z.compare_spec ex ey) as [->|Hlt|Hgt].
    + rewrite Z.compare_opp, Z.add_compare_mono_l.
      change (PosDef.Pos.compare_cont Eq mx my) with (Z.pos mx ?= Z.pos my).
      apply Z.compare_antisym.
    + apply Z.compare_gt_iff; lia.
    + apply Z.compare_lt_iff; lia.
  - destruct (Z.compare_spec ex ey) as [->|Hlt|Hgt].
    + apply Z.add_compare_mono_l.
    + apply Z.compare_lt_iff; lia.
    + apply Z.compare_gt_iff; lia.
Qed.

Lemma ltb_rank x y :
  PrimFloat.is_nan x = false -> PrimFloat.is_nan y = false ->
  PrimFloat.ltb x y = (rank (Prim2SF x) <? rank (Prim2SF y)).
Proof.
  intros Hx Hy. rewrite ltb_spec. unfold SFltb.
  rewrite SFcompare_rank by auto using Prim2SF_valid, Prim2SF_not_nan.
  unfold Z.ltb. by destruct (_ ?= _).
Qed.

Lemma leb_rank x y :
  PrimFloat.is_nan x = false -> PrimFloat.is_nan y = false ->
  PrimFloat.leb x y = (rank (Prim2SF x) <=? rank (Prim2SF y)).
Proof.
  intros Hx Hy. rewrite leb_spec. unfold SFleb.
  rewrite SFcompare_rank by auto using Prim2SF_valid, Prim2SF_not_nan.
  unfold Z.leb. by destruct (_ ?= _).
Qed.

Lemma ltb_nan_l x y : PrimFloat.is_nan x = true -> PrimFloat.ltb x y = false.
Proof. intros H. rewrite ltb_spec, (Prim2SF_nan _ H). reflexivity. Qed.
Lemma ltb_nan_r x y : PrimFloat.is_nan y = true -> PrimFloat.ltb x y = false.
Proof. intros H. rewrite ltb_spec, (Prim2SF_nan _ H). unfold SFltb, SFcompare. by destruct (Prim2SF x). Qed.

Lemma rank_least f :
  valid_binary f = true -> f <> S754_nan ->
  rank f <= rank (S754_infinity true) -> f = S754_infinity true.
Proof.
  intros Hv Hn. destruct f as [s|s| |s m e]; simpl; try congruence; intros H.
  - exfalso; lia.
  - destruct s; [reflexivity | simpl in H; exfalso; lia].
  - apply valid_finite in Hv as (He & Hm & _). destruct s; simpl in H; exfalso; lia.
Qed.

Lemma rank_greatest f :
  valid_binary f = true -> f <> S754_nan ->
  rank (S754_infinity false) <= rank f -> f = S754_infinity false.
Proof.
  intros Hv Hn. destruct f as [s|s| |s m e]; simpl; try congruence; intros H.
  - exfalso; lia.
  - destruct s; [simpl in H; exfalso; lia | reflexivity].
  - apply valid_finite in Hv as (He & Hm & _). destruct s; simpl in H; exfalso; lia.
Qed.

(** The exact value of a finite float, in units of [2^-1074]. *)
Definition scaled (x : float) : option Z :=
  match Prim2SF x with
  | S754_zero _ => Some 0
  | S754_finite s m e => Some (cond_Zopp s (Zpos m * 2 ^ (e + 1074)))
  | _ => None
  end.

Lemma canonical_unique m e m' e' :
  -1074 <= e -> Zpos m < 9007199254740992 ->
  (e' = -1074 \/ 4503599627370496 <= Zpos m') ->
  e < e' -> Zpos m * 2 ^ (e + 1074) <> Zpos m' * 2 ^ (e' + 1074).
Proof.
  intros He Hm Hm' Hlt Heq.
  replace (e' + 1074) with ((e' - e) + (e + 1074)) in Heq by lia.
  rewrite (Z.pow_add_r 2 (e' - e) (e + 1074)), Z.mul_assoc in Heq by lia.
  apply Z.mul_cancel_r in Heq; [|apply Z.pow_nonzero; lia].
  assert (2 ^ 1 <= 2 ^ (e' - e)) by (apply Z.pow_le_mono_r; lia).
  change (2 ^ 1) with 2 in *. nia.
Qed.

Lemma scaled_inj x y z :
  scaled x = Some z -> scaled y = Some z -> z <> 0 -> x = y.
Proof.
  unfold scaled. intros Hx Hy Hz. apply Prim2SF_inj.
  pose proof (Prim2SF_valid x) as Vx. pose proof (Prim2SF_valid y) as Vy.
  destruct (Prim2SF x) as [| | |sx mx ex]; try discriminate; [congruence|].
  destruct (Prim2SF y) as [| | |sy my ey]; try discriminate; [congruence|].
  apply valid_finite in Vx as (Hex & Hmx & Hnx). apply valid_finite in Vy as (Hey & Hmy & Hny).
  injection Hx as Hx. injection Hy as Hy.
  assert (0 < 2 ^ (ex + 1074)) by (apply Z.pow_pos_nonneg; lia).
  assert (0 < 2 ^ (ey + 1074)) by (apply Z.pow_pos_nonneg; lia).
  assert (sx = sy) as -> by (destruct sx, sy; simpl in *; [reflexivity | nia | nia | reflexivity]).
  assert (Hval : Zpos mx * 2 ^ (ex + 1074) = Zpos my * 2 ^ (ey + 1074))
    by (destruct sy; simpl in *; lia).
  destruct (Z.lt_trichotomy ex ey) as [Hlt | [-> | Hgt]].
  - destruct (canonical_unique mx ex my ey); auto; lia.
  - apply Z.mul_cancel_r in Hval; [congruence | lia].
  - symmetry in Hval. destruct (canonical_unique my ey mx ex); auto; lia.
Qed.

Lemma scaled_positive x z :
  PrimFloat.ltb PrimFloat.zero x = true -> scaled x = Some z -> 0 < z.
Proof.
  rewrite ltb_spec. unfold scaled. pose proof (Prim2SF_valid x) as V.
  change (Prim2SF PrimFloat.zero) with (S754_zero false).
  destruct (Prim2SF x) as [| | |s m e]; try discriminate.
  apply valid_finite in V as (He & _). destruct s; [discriminate|].
  intros _ [= <-]. simpl. assert (0 < 2 ^ (e + 1074)) by (apply Z.pow_pos_nonneg; lia). nia.
Qed.

(** *** Additions that do not round *)

Lemma digits2_pos_unique m d :
  2 ^ (d - 1) <= Zpos m < 2 ^ d -> Zpos (digits2_pos m) = d.
Proof.
  intros [Hlo Hhi]. pose proof (digits2_pos_bounds m) as [Hlo' Hhi'].
  set (d' := Zpos (digits2_pos m)) in *.
  assert (0 < d).
  { destruct (Z.lt_trichotomy d 0) as [H|[H|H]]; [|subst d; simpl in *; lia | exact H].
    rewrite Z.pow_neg_r in Hhi by lia. lia. }
  destruct (Z.lt_trichotomy d' d) as [H1|[H1|H1]]; [|exact H1|]; exfalso.
  - assert (2 ^ d' <= 2 ^ (d - 1)) by (apply Z.pow_le_mono_r; lia). lia.
  - assert (2 ^ d <= 2 ^ (d' - 1)) by (apply Z.pow_le_mono_r; lia). lia.
Qed.

Lemma digits2_pos_shift m n k :
  0 <= k -> Zpos n = Zpos m * 2 ^ k ->
  Zpos (digits2_pos n) = Zpos (digits2_pos m) + k.
Proof.
  intros Hk Hn. apply digits2_pos_unique. rewrite Hn.
  pose proof (digits2_pos_bounds m) as [Hlo Hhi].
  replace (Zpos (digits2_pos m) + k - 1) with ((Zpos (digits2_pos m) - 1) + k) by lia.
  rewrite !Z.pow_add_r by lia.
  assert (0 < 2 ^ k) by (apply Z.pow_pos_nonneg; lia). nia.
Qed.

Lemma iter_xO m d : Zpos (Pos.iter xO m d) = Zpos m * 2 ^ Zpos d.
Proof.
  induction d as [|d IH] using Pos.peano_ind.
  - simpl. lia.
  - rewrite Pos.iter_succ, Pos2Z.inj_xO, IH, Pos2Z.inj_succ, Z.pow_succ_r by lia. ring.
Qed.

Lemma shl_align_value mx ex ez :
  ez <= ex ->
  shl_align mx ex ez = (Z.to_pos (Zpos mx * 2 ^ (ex - ez)), ez).
Proof.
  intros Hle. unfold shl_align.
  destruct (ez - ex) as [|d|d] eqn:Hd; try lia.
  - assert (ex = ez) as -> by lia. rewrite Z.sub_diag, Z.mul_1_r. reflexivity.
  - f_equal. apply Pos2Z.inj. rewrite iter_xO.
    replace (ex - ez) with (Zpos d) by lia.
    rewrite Z2Pos.id; [reflexivity|]. assert (0 < 2 ^ Zpos d) by (apply Z.pow_pos_nonneg; lia). nia.
Qed.

Lemma pos_shift_mul (m p : positive) : Zpos (m * 2 ^ p) = Zpos m * 2 ^ Zpos p.
Proof. by rewrite Pos2Z.inj_mul, Pos2Z.inj_pow. Qed.

(** Shifting out [p] zero bits is exact. *)
Lemma iter_pos_shr_exact p : forall (m : positive) (M : Z),
  M = Zpos m * 2 ^ Zpos p ->
  SpecFloat.iter_pos shr_1 p {| shr_m := M; shr_r := false; shr_s := false |}
  = {| shr_m := Zpos m; shr_r := false; shr_s := false |}.
Proof.
  induction p as [p IH|p IH|]; intros m M HM; simpl SpecFloat.iter_pos.
  - assert (M = Zpos ((m * 2 ^ p * 2 ^ p)~0)) as ->.
    { rewrite HM, (Pos2Z.inj_xO (m * 2 ^ p * 2 ^ p)), !pos_shift_mul, (Pos2Z.inj_xI p).
      rewrite Z.pow_add_r, Z.pow_1_r by lia.
      replace (2 * Zpos p) with (Zpos p + Zpos p) by lia.
      rewrite Z.pow_add_r by lia. ring. }
    simpl shr_1. rewrite (IH (m * 2 ^ p)%positive) by apply pos_shift_mul.
    apply IH, pos_shift_mul.
  - rewrite (IH (m * 2 ^ p)%positive).
    + apply IH, pos_shift_mul.
    + rewrite HM, pos_shift_mul, (Pos2Z.inj_xO p).
      replace (2 * Zpos p) with (Zpos p + Zpos p) by lia.
      rewrite Z.pow_add_r by lia. ring.
  - assert (M = Zpos m~0) as -> by (rewrite HM; lia). reflexivity.
Qed.

Lemma bounded_canonical m e :
  bounded prec emax m e = true ->
  fexp prec emax (Zpos (digits2_pos m) + e) = e /\ -1074 <= e <= 971.
Proof.
  intros H. pose proof (valid_finite false m e H) as (He & _ & _).
  unfold bounded, canonical_mantissa in H. apply andb_true_iff in H as [H _].
  apply Z.eqb_eq in H. by split.
Qed.

(** Two writings [X * 2^ex] and [m * 2^e] of one number have the same
    magnitude. *)
Lemma same_value_digits X ex m e :
  -1074 <= ex -> -1074 <= e ->
  Zpos X * 2 ^ (ex + 1074) = Zpos m * 2 ^ (e + 1074) ->
  Zpos (digits2_pos X) + ex = Zpos (digits2_pos m) + e /\
  (ex <= e -> Zpos X = Zpos m * 2 ^ (e - ex)) /\
  (e <= ex -> Zpos m = Zpos X * 2 ^ (ex - e)).
Proof.
  intros Hex He Hval.
  assert (Hle : forall X ex m e, -1074 <= ex -> ex <= e ->
                  Zpos X * 2 ^ (ex + 1074) = Zpos m * 2 ^ (e + 1074) ->
                  Zpos X = Zpos m * 2 ^ (e - ex)).
  { clear. intros X ex m e Hex Hle Hval.
    replace (e + 1074) with ((e - ex) + (ex + 1074)) in Hval by lia.
    rewrite (Z.pow_add_r 2 (e - ex)), Z.mul_assoc in Hval by lia.
    apply Z.mul_cancel_r in Hval; [exact Hval | apply Z.pow_nonzero; lia]. }
  destruct (Z.le_ge_cases ex e) as [H|H].
  - pose proof (Hle X ex m e Hex H Hval) as HX.
    rewrite (digits2_pos_shift m X (e - ex)) by (lia || exact HX).
    split; [lia|]. split; [auto|]. intros H'. assert (e = ex) as -> by lia.
    rewrite Z.sub_diag, Z.mul_1_r in *. lia.
  - symmetry in Hval. pose proof (Hle m e X ex He H Hval) as Hm.
    rewrite (digits2_pos_shift X m (ex - e)) by (lia || exact Hm).
    split; [lia|]. split; [|auto]. intros H'. assert (e = ex) as -> by lia.
    rewrite Z.sub_diag, Z.mul_1_r in *. lia.
Qed.

(** Reducing a mantissa to the canonical exponent of its value, when the
    value is a float, shifts out zeros only. *)
Lemma shr_fexp_exact X ex m e :
  bounded prec emax m e = true -> -1074 <= ex -> ex <= e ->
  Zpos X * 2 ^ (ex + 1074) = Zpos m * 2 ^ (e + 1074) ->
  shr_fexp prec emax (Zpos X) ex loc_Exact
  = ({| shr_m := Zpos m; shr_r := false; shr_s := false |}, e).
Proof.
  intros Hb Hex Hle Hval. destruct (bounded_canonical m e Hb) as [Hcan He].
  destruct (same_value_digits X ex m e Hex ltac:(lia) Hval) as (Hdig & HX & _).
  specialize (HX Hle). unfold shr_fexp. simpl Zdigits2. rewrite Hdig, Hcan.
  unfold shr, shr_record_of_loc. destruct (e - ex) as [|p|p] eqn:Hp; try lia.
  - assert (e = ex) as -> by lia. rewrite Z.mul_1_r in HX. by rewrite HX.
  - rewrite (iter_pos_shr_exact p m) by exact HX. f_equal. lia.
Qed.

Lemma binary_round_aux_exact X ex m e :
  bounded prec emax m e = true -> -1074 <= ex -> ex <= e ->
  Zpos X * 2 ^ (ex + 1074) = Zpos m * 2 ^ (e + 1074) ->
  binary_round_aux prec emax false (Zpos X) ex loc_Exact = S754_finite false m e.
Proof.
  intros Hb Hex Hle Hval. unfold binary_round_aux.
  rewrite (shr_fexp_exact X ex m e Hb Hex Hle Hval). simpl shr_m. simpl loc_of_shr_record.
  simpl round_nearest_even.
  rewrite (shr_fexp_exact m e m e Hb) by (lia || (destruct (bounded_canonical m e Hb); lia)).
  simpl shr_m. destruct (bounded_canonical m e Hb) as [_ He].
  destruct (Z.leb_spec e (emax - prec)) as [_|H]; [reflexivity|].
  unfold emax, prec in H. lia.
Qed.

(** Rounding a number that is a float gives that float. *)
Lemma binary_round_exact M ez m e :
  bounded prec emax m e = true -> -1074 <= ez ->
  Zpos M * 2 ^ (ez + 1074) = Zpos m * 2 ^ (e + 1074) ->
  binary_round prec emax false M ez = S754_finite false m e.
Proof.
  intros Hb Hez Hval. destruct (bounded_canonical m e Hb) as [Hcan He].
  destruct (same_value_digits M ez m e Hez ltac:(lia) Hval) as (Hdig & _ & Hm).
  unfold binary_round. rewrite Hdig, Hcan.
  destruct (Z.le_gt_cases ez e) as [Hle|Hgt].
  - assert (Hsh : shl_align M ez e = (M, ez)).
    { unfold shl_align. destruct (e - ez) eqn:Hd; try reflexivity. lia. }
    rewrite Hsh. by apply binary_round_aux_exact.
  - rewrite shl_align_value by lia. rewrite <- Hm by lia. simpl Z.to_pos.
    apply binary_round_aux_exact; [exact Hb | lia | lia | reflexivity].
Qed.

(** The sum of two positive floats, when it is a float, is that float. *)
Lemma SFadd_exact mx ex my ey m e :
  bounded prec emax mx ex = true -> bounded prec emax my ey = true ->
  bounded prec emax m e = true ->
  Zpos mx * 2 ^ (ex + 1074) + Zpos my * 2 ^ (ey + 1074) = Zpos m * 2 ^ (e + 1074) ->
  SFadd prec emax (S754_finite false mx ex) (S754_finite false my ey)
  = S754_finite false m e.
Proof.
  intros Hx Hy Hb Hval.
  destruct (bounded_canonical mx ex Hx) as [_ Hex].
  destruct (bounded_canonical my ey Hy) as [_ Hey].
  unfold SFadd. set (ez := Z.min ex ey).
  rewrite !shl_align_value by lia. simpl fst. unfold cond_Zopp.
  assert (0 < 2 ^ (ex - ez)) by (apply Z.pow_pos_nonneg; lia).
  assert (0 < 2 ^ (ey - ez)) by (apply Z.pow_pos_nonneg; lia).
  rewrite !Z2Pos.id by nia.
  destruct (Zpos mx * 2 ^ (ex - ez) + Zpos my * 2 ^ (ey - ez)) as [|M|M] eqn:HM; try nia.
  simpl binary_normalize. apply binary_round_exact; [exact Hb | lia |].
  rewrite <- HM, <- Hval, Z.mul_add_distr_r, <- !Z.mul_assoc, <- !Z.pow_add_r by lia.
  f_equal; f_equal; f_equal; lia.
Qed.

Lemma scaled_finite x a :
  scaled x = Some a -> 0 < a ->
  exists m e, Prim2SF x = S754_finite false m e /\ bounded prec emax m e = true /\
              a = Zpos m * 2 ^ (e + 1074).
Proof.
  unfold scaled. intros H Ha. pose proof (Prim2SF_valid x) as V.
  destruct (Prim2SF x) as [| | |s m e]; try discriminate; injection H as <-; [lia|].
  pose proof (valid_finite s m e V) as (He & _).
  assert (0 < 2 ^ (e + 1074)) by (apply Z.pow_pos_nonneg; lia).
  destruct s; simpl in Ha; [nia|]. exists m, e. by repeat split.
Qed.

Lemma scaled_zero x : scaled x = Some 0 -> exists s, Prim2SF x = S754_zero s.
Proof.
  unfold scaled. pose proof (Prim2SF_valid x) as V.
  destruct (Prim2SF x) as [s| | |s m e]; try discriminate; [eauto|].
  pose proof (valid_finite s m e V) as (He & _).
  assert (0 < 2 ^ (e + 1074)) by (apply Z.pow_pos_nonneg; lia).
  intros [= H']. destruct s; simpl in H'; nia.
Qed.

(** A floating-point addition of non-negative floats whose exact sum is
    a float gives that float. *)
Lemma add_exact x y z a b :
  scaled x = Some a -> scaled y = Some b -> 0 <= a -> 0 <= b -> 0 < a + b ->
  scaled z = Some (a + b) -> (x + y)%float = z.
Proof.
  intros Hx Hy Ha Hb Hab Hz. apply Prim2SF_inj. rewrite add_spec. unfold SF64add.
  destruct (scaled_finite z _ Hz Hab) as (mz & ez & Ez & Bz & Vz).
  destruct (Z.eq_dec a 0) as [->|Hna]; [|destruct (Z.eq_dec b 0) as [->|Hnb]].
  - assert (y = z) as -> by (apply (scaled_inj y z b); [exact Hy | exact Hz | lia]).
    destruct (scaled_zero x Hx) as [s ->]. by rewrite Ez.
  - rewrite Z.add_0_r in Hz.
    assert (x = z) as -> by (apply (scaled_inj x z a); [exact Hx | exact Hz | lia]).
    destruct (scaled_zero y Hy) as [s ->]. by rewrite Ez.
  - destruct (scaled_finite x _ Hx ltac:(lia)) as (mx & ex & -> & Bx & Vx).
    destruct (scaled_finite y _ Hy ltac:(lia)) as (my & ey & -> & By & Vy).
    rewrite Ez. apply SFadd_exact; try assumption. lia.
Qed.

(** The whole numbers below [2^53] are floats. *)
Lemma whole_float n :
  0 < n < 2 ^ 53 -> exists z, scaled z = Some (n * 2 ^ 1074).
Proof.
  intros [Hpos Hlt]. destruct n as [|p|p]; try lia.
  pose proof (digits2_pos_bounds p) as [Hlo Hhi].
  set (d := Zpos (digits2_pos p)) in *.
  assert (Hd : d <= 53).
  { destruct (Z.le_gt_cases d 53) as [H|H]; [exact H|].
    assert (2 ^ 53 <= 2 ^ (d - 1)) by (apply Z.pow_le_mono_r; lia). lia. }
  assert (0 < 2 ^ (53 - d)) by (apply Z.pow_pos_nonneg; lia).
  set (m := Z.to_pos (Zpos p * 2 ^ (53 - d))).
  assert (Hm : Zpos m = Zpos p * 2 ^ (53 - d)) by (unfold m; rewrite Z2Pos.id; nia).
  assert (Hb : bounded prec emax m (d - 53) = true).
  { unfold bounded, canonical_mantissa, fexp, SpecFloat.emin, prec, emax.
    rewrite (digits2_pos_shift p m (53 - d)) by (lia || exact Hm). fold d.
    apply andb_true_iff. split; [apply Z.eqb_eq | apply Z.leb_le]; lia. }
  exists (SF2Prim (S754_finite false m (d - 53))). unfold scaled.
  rewrite Prim2SF_SF2Prim by exact Hb. simpl. f_equal. rewrite Hm, <- Z.mul_assoc.
  f_equal. rewrite <- Z.pow_add_r by lia. f_equal. lia.
Qed.

End Binary64.

(** ** The aggregator: unique locations *)

Section UniqueLocations.

(** The body of the [forEach] callback. *)
Definition add_location (locationMap : list (string * GeographicData))
    (record : GeographicData) : list (string * GeographicData) :=
  let key := Loader.location_key record in
  if negb (Loader.Map_has locationMap key)
  then Loader.Map_set locationMap key
         {| latitude := latitude record;
            longitude := longitude record;
            location := location record;
            area := area record |}
  else locationMap.

Lemma getUniqueLocations_fold records :
  Loader.getUniqueLocations records = map snd (fold_left add_location records []).
Proof. reflexivity. Qed.

Lemma Map_has_true {V} (m : list (string * V)) key :
  Loader.Map_has m key = true <-> exists v, (key, v) ∈ m.
Proof.
  unfold Loader.Map_has. rewrite existsb_exists. split.
  - intros ([k v] & Hin & Heq). apply String.eqb_eq in Heq. simpl in Heq. subst k.
    exists v. by apply list_elem_of_In.
  - intros [v Hin]. exists (key, v). split; [by apply list_elem_of_In | apply String.eqb_refl].
Qed.

Lemma copy_record (record : GeographicData) :
  {| latitude := latitude record; longitude := longitude record;
     location := location record; area := area record |} = record.
Proof. by destruct record. Qed.

(** What the map holds once the records [seen] have been visited: each
    key once; under each key the first record seen with that key; and a
    key for every record seen. *)
Definition map_invariant (seen : list GeographicData)
    (m : list (string * GeographicData)) : Prop :=
  NoDup (map fst m) /\
  (forall key g, (key, g) ∈ m ->
     key = Loader.location_key g /\
     exists i, seen !! i = Some g /\
               forall j r, (j < i)%nat -> seen !! j = Some r ->
                           Loader.location_key r <> key) /\
  (forall r, r ∈ seen -> exists g, (Loader.location_key r, g) ∈ m).

Lemma add_location_invariant seen m record :
  map_invariant seen m -> map_invariant (seen ++ [record]) (add_location m record).
Proof.
  intros (Hnodup & Hfirst & Hall). unfold add_location.
  destruct (Loader.Map_has m (Loader.location_key record)) eqn:Hhas; simpl.
  - (* the key is there: nothing changes *)
    split; [exact Hnodup|]. split.
    + intros key g Hin. destruct (Hfirst key g Hin) as (Hkey & i & Hi & Hbefore).
      split; [exact Hkey|]. exists i. split; [by apply lookup_app_l_Some|].
      intros j r Hlt Hj. apply (Hbefore j r Hlt).
      rewrite lookup_app_l in Hj; [exact Hj|]. apply lookup_lt_Some in Hi. lia.
    + intros r Hin. apply elem_of_app in Hin as [Hin | Hin]; [by apply Hall|].
      apply list_elem_of_singleton in Hin as ->. by apply Map_has_true.
  - (* a new key: one entry more, for this record *)
    assert (Hnew : forall v, (Loader.location_key record, v) ∉ m).
    { intros v Hin. assert (Loader.Map_has m (Loader.location_key record) = true)
        by (apply Map_has_true; eauto). congruence. }
    unfold Loader.Map_set. rewrite Hhas, copy_record. split; [|split].
    + rewrite map_app. simpl. apply NoDup_app. split; [exact Hnodup|]. split.
      * intros key Hin Hin'. apply list_elem_of_singleton in Hin' as ->.
        apply list_elem_of_fmap in Hin as ([k v] & Hk & Hin). simpl in Hk. subst k.
        exact (Hnew v Hin).
      * apply NoDup_singleton.
    + intros key g Hin. apply elem_of_app in Hin as [Hin | Hin].
      * destruct (Hfirst key g Hin) as (Hkey & i & Hi & Hbefore).
        split; [exact Hkey|]. exists i. split; [by apply lookup_app_l_Some|].
        intros j r Hlt Hj. apply (Hbefore j r Hlt).
        rewrite lookup_app_l in Hj; [exact Hj|]. apply lookup_lt_Some in Hi. lia.
      * apply list_elem_of_singleton in Hin as [= -> ->]. split; [reflexivity|].
        exists (length seen). split; [by rewrite list_lookup_middle|].
        intros j r Hlt Hj Hkey. rewrite lookup_app_l in Hj by exact Hlt.
        destruct (Hall r) as [g Hg]; [by eapply list_elem_of_lookup_2|].
        rewrite Hkey in Hg. exact (Hnew g Hg).
    + intros r Hin. apply elem_of_app in Hin as [Hin | Hin].
      * destruct (Hall r Hin) as [g Hg]. exists g. apply elem_of_app. by left.
      * apply list_elem_of_singleton in Hin as ->. exists record.
        apply elem_of_app. right. by apply list_elem_of_singleton.
Qed.

Lemma fold_add_location_invariant records :
  map_invariant records (fold_left add_location records []).
Proof.
  induction records as [|record records IH] using rev_ind.
  - split; [constructor|]. split; [intros ? ? H | intros ? H]; by apply elem_of_nil in H.
  - rewrite fold_left_app. simpl. by apply add_location_invariant.
Qed.


(** X6.  When no two pairs of the input share a key, that is one entry per
    distinct pair [(location, area)]. *)
Lemma getUniqueLocations_by_pair records :
  (forall r r', r ∈ records -> r' ∈ records ->
     Loader.location_key r = Loader.location_key r' ->
     location r = location r' /\ area r = area r') ->
  let result := Loader.getUniqueLocations records in
  NoDup (map (fun g => (location g, area g)) result) /\
  (forall r, r ∈ records ->
     exists g, g ∈ result /\ location g = location r /\ area g = area r).
Proof.
  intros Hinj result. subst result. rewrite getUniqueLocations_fold.
  destruct (fold_add_location_invariant records) as (Hnodup & Hfirst & Hall).
  set (m := fold_left add_location records []) in *. split.
  - apply (NoDup_fmap_1 (fun p : string * string => (p.1 ++ "-" ++ p.2)%string)).
    rewrite <- list_fmap_compose.
    replace ((fun p : string * string => (p.1 ++ "-" ++ p.2)%string)
               ∘ (fun g => (location g, area g)) <$> map snd m) with (map fst m);
      [exact Hnodup|].
    rewrite <- list_fmap_compose. apply map_ext_in. intros [k g] Hin. simpl.
    apply list_elem_of_In in Hin. by destruct (Hfirst k g Hin) as [-> _].
  - intros r Hin. destruct (Hall r Hin) as [g Hg]. exists g.
    split; [apply list_elem_of_fmap; by exists (Loader.location_key r, g)|].
    destruct (Hfirst _ _ Hg) as (Hkey & i & Hi & _). apply Hinj; [|exact Hin|by rewrite <- Hkey].
    by eapply list_elem_of_lookup_2.
Qed.

End UniqueLocations.

(** Two different places whose names and areas join to the same key. *)
Definition deir_al_balah : GeographicData :=
  {| latitude := 31.417; longitude := 34.35; location := "Deir al-Balah"; area := "Middle" |}.
Definition deir_al : GeographicData :=
  {| latitude := 31.9; longitude := 35.2; location := "Deir al"; area := "Balah-Middle" |}.

(** C4, at the failing input.  Two records with different
    [(location, area)] pairs whose joined keys coincide come out as one
    entry: the second place is lost. *)
Theorem getUniqueLocations_merges_distinct_pairs :
  (location deir_al_balah, area deir_al_balah) <> (location deir_al, area deir_al) /\
  Loader.location_key deir_al_balah = Loader.location_key deir_al /\
  Loader.getUniqueLocations [deir_al_balah; deir_al] = [deir_al_balah].
Proof. split; [discriminate|]. split; reflexivity. Qed.

(** ** The aggregator: bounds *)

Section Extremes.

Local Abbreviation below x y := (rank (Prim2SF x) <= rank (Prim2SF y)).

Lemma max_from_NaN xs : forall highest,
  Exists (fun x => Js.isNaN x = true) xs -> Js.max_from highest xs = nan.
Proof.
  induction xs as [|x rest IH]; intros highest H; [by apply Exists_nil in H|].
  simpl. destruct (Js.isNaN x) eqn:Hx; [reflexivity|].
  apply Exists_cons in H as [H|H]; [congruence|].
  destruct (_ && _); [by apply IH|]. destruct (PrimFloat.ltb highest x); by apply IH.
Qed.

Lemma min_from_NaN xs : forall lowest,
  Exists (fun x => Js.isNaN x = true) xs -> Js.min_from lowest xs = nan.
Proof.
  induction xs as [|x rest IH]; intros lowest H; [by apply Exists_nil in H|].
  simpl. destruct (Js.isNaN x) eqn:Hx; [reflexivity|].
  apply Exists_cons in H as [H|H]; [congruence|].
  destruct (_ && _); [by apply IH|]. destruct (PrimFloat.ltb x lowest); by apply IH.
Qed.

(** Without a [NaN], the scan for the maximum ends on its start value or
    on an element, and nothing scanned is above the result. *)
Lemma max_from_spec xs : forall highest,
  Js.isNaN highest = false -> Forall (fun x => Js.isNaN x = false) xs ->
  let r := Js.max_from highest xs in
  Js.isNaN r = false /\ (r = highest \/ r ∈ xs) /\
  below highest r /\ Forall (fun x => below x r) xs.
Proof.
  induction xs as [|x rest IH]; intros highest Hh Hxs; simpl.
  - repeat split; [exact Hh | by left | lia | constructor].
  - apply Forall_cons in Hxs as [Hx Hrest]. rewrite Hx.
    destruct (PrimFloat.Leibniz.eqb x PrimFloat.zero
              && PrimFloat.Leibniz.eqb highest neg_zero) eqn:Hzero.
    + apply andb_true_iff in Hzero as [H1 H2].
      apply FloatAxioms.Leibniz.eqb_spec in H1, H2. subst x highest.
      destruct (IH PrimFloat.zero Hx Hrest) as (Hr & Hin & Hle & Hall).
      repeat split; [exact Hr | | exact Hle | constructor; assumption].
      destruct Hin as [->|Hin]; right; [by left | by right].
    + destruct (PrimFloat.ltb highest x) eqn:Hlt.
      * rewrite ltb_rank in Hlt by assumption. apply Z.ltb_lt in Hlt.
        destruct (IH x Hx Hrest) as (Hr & Hin & Hle & Hall).
        repeat split; [exact Hr | | lia | constructor; assumption].
        destruct Hin as [->|Hin]; right; [by left | by right].
      * rewrite ltb_rank in Hlt by assumption. apply Z.ltb_ge in Hlt.
        destruct (IH highest Hh Hrest) as (Hr & Hin & Hle & Hall).
        repeat split; [exact Hr | | exact Hle | constructor; [lia | assumption]].
        destruct Hin as [->|Hin]; [by left | right; by right].
Qed.

Lemma min_from_spec xs : forall lowest,
  Js.isNaN lowest = false -> Forall (fun x => Js.isNaN x = false) xs ->
  let r := Js.min_from lowest xs in
  Js.isNaN r = false /\ (r = lowest \/ r ∈ xs) /\
  below r lowest /\ Forall (fun x => below r x) xs.
Proof.
  induction xs as [|x rest IH]; intros lowest Hl Hxs; simpl.
  - repeat split; [exact Hl | by left | lia | constructor].
  - apply Forall_cons in Hxs as [Hx Hrest]. rewrite Hx.
    destruct (PrimFloat.Leibniz.eqb x neg_zero
              && PrimFloat.Leibniz.eqb lowest PrimFloat.zero) eqn:Hzero.
    + apply andb_true_iff in Hzero as [H1 H2].
      apply FloatAxioms.Leibniz.eqb_spec in H1, H2. subst x lowest.
      destruct (IH neg_zero Hx Hrest) as (Hr & Hin & Hle & Hall).
      repeat split; [exact Hr | | exact Hle | constructor; assumption].
      destruct Hin as [->|Hin]; right; [by left | by right].
    + destruct (PrimFloat.ltb x lowest) eqn:Hlt.
      * rewrite ltb_rank in Hlt by assumption. apply Z.ltb_lt in Hlt.
        destruct (IH x Hx Hrest) as (Hr & Hin & Hle & Hall).
        repeat split; [exact Hr | | lia | constructor; assumption].
        destruct Hin as [->|Hin]; right; [by left | by right].
      * rewrite ltb_rank in Hlt by assumption. apply Z.ltb_ge in Hlt.
        destruct (IH lowest Hl Hrest) as (Hr & Hin & Hle & Hall).
        repeat split; [exact Hr | | exact Hle | constructor; [lia | assumption]].
        destruct Hin as [->|Hin]; [by left | right; by right].
Qed.

(** [Math.max] of a non-empty list without [NaN] is one of its elements
    and no element is above it. *)
Lemma Math_max_greatest xs :
  xs <> [] -> Forall (fun x => Js.isNaN x = false) xs ->
  Js.Math_max xs ∈ xs /\ Forall (fun x => PrimFloat.leb x (Js.Math_max xs) = true) xs.
Proof.
  intros Hne Hxs. unfold Js.Math_max.
  destruct (max_from_spec xs neg_infinity eq_refl Hxs) as (Hr & Hin & _ & Hall).
  split.
  - destruct Hin as [Heq|Hin]; [|exact Hin].
    destruct xs as [|x rest]; [congruence|].
    apply Forall_cons in Hall as [Hx _]. apply Forall_cons in Hxs as [Hnx _].
    rewrite Heq in Hx |- *.
    assert (x = neg_infinity) as ->; [|by left].
    apply Prim2SF_inj. apply rank_least;
      [apply Prim2SF_valid | by apply Prim2SF_not_nan | exact Hx].
  - rewrite Forall_forall in Hall, Hxs |- *. intros x Hx.
    rewrite leb_rank by auto. apply Z.leb_le. by apply Hall.
Qed.

Lemma Math_min_least xs :
  xs <> [] -> Forall (fun x => Js.isNaN x = false) xs ->
  Js.Math_min xs ∈ xs /\ Forall (fun x => PrimFloat.leb (Js.Math_min xs) x = true) xs.
Proof.
  intros Hne Hxs. unfold Js.Math_min.
  destruct (min_from_spec xs infinity eq_refl Hxs) as (Hr & Hin & _ & Hall).
  split.
  - destruct Hin as [Heq|Hin]; [|exact Hin].
    destruct xs as [|x rest]; [congruence|].
    apply Forall_cons in Hall as [Hx _]. apply Forall_cons in Hxs as [Hnx _].
    rewrite Heq in Hx |- *.
    assert (x = infinity) as ->; [|by left].
    apply Prim2SF_inj. apply rank_greatest;
      [apply Prim2SF_valid | by apply Prim2SF_not_nan | exact Hx].
  - rewrite Forall_forall in Hall, Hxs |- *. intros x Hx.
    rewrite leb_rank by auto. apply Z.leb_le. by apply Hall.
Qed.

(** X1.  [calculateBounds] does what the bounds are meant to be: the default
    box for no record, and otherwise (no coordinate being [NaN], as after
    the generic parser) the greatest and least latitude and longitude
    among the records. *)
Lemma calculateBounds_extremes records :
  (records = [] -> Loader.calculateBounds records = Loader.default_bounds) /\
  (records <> [] ->
   Forall (fun r => Js.isNaN (latitude r) = false /\ Js.isNaN (longitude r) = false)
     records ->
   let b := Loader.calculateBounds records in
   (north b ∈ map latitude records /\
    Forall (fun r => PrimFloat.leb (latitude r) (north b) = true) records) /\
   (south b ∈ map latitude records /\
    Forall (fun r => PrimFloat.leb (south b) (latitude r) = true) records) /\
   (east b ∈ map longitude records /\
    Forall (fun r => PrimFloat.leb (longitude r) (east b) = true) records) /\
   (west b ∈ map longitude records /\
    Forall (fun r => PrimFloat.leb (west b) (longitude r) = true) records)).
Proof.
  split; [by intros ->|]. intros Hne Hnan b. subst b. unfold Loader.calculateBounds.
  destruct records as [|r0 rest]; [congruence|]. cbn [length Nat.eqb north south east west].
  set (records := r0 :: rest) in *.
  assert (Hlat : Forall (fun x => Js.isNaN x = false) (map latitude records))
    by (apply Forall_fmap; eapply Forall_impl; [exact Hnan | by intros ? [? ?]]).
  assert (Hlng : Forall (fun x => Js.isNaN x = false) (map longitude records))
    by (apply Forall_fmap; eapply Forall_impl; [exact Hnan | by intros ? [? ?]]).
  assert (map latitude records <> []) by discriminate.
  assert (map longitude records <> []) by discriminate.
  destruct (Math_max_greatest _ H Hlat) as [? Hn%Forall_fmap].
  destruct (Math_min_least _ H Hlat) as [? Hs%Forall_fmap].
  destruct (Math_max_greatest _ H0 Hlng) as [? He%Forall_fmap].
  destruct (Math_min_least _ H0 Hlng) as [? Hw%Forall_fmap].
  repeat split; assumption.
Qed.

End Extremes.

(** ** Lines: [split] and [join] *)

Section Lines.
Variable sep : ascii.

(** No separator occurs in the string. *)
Fixpoint free_of (s : string) : Prop :=
  match s with
  | EmptyString => True
  | String c rest => c <> sep /\ free_of rest
  end.

Lemma split_not_nil s : Js.split sep s <> [].
Proof.
  destruct s as [|c rest]; simpl; [discriminate|].
  destruct (Ascii.eqb c sep); [discriminate|]. destruct (Js.split sep rest); discriminate.
Qed.

Lemma split_free s : Forall free_of (Js.split sep s).
Proof.
  induction s as [|c rest IH]; simpl; [by repeat constructor|].
  destruct (Ascii.eqb_spec c sep) as [->|Hne]; [by constructor|].
  destruct (Js.split sep rest) as [|piece pieces]; [by repeat constructor|].
  apply Forall_cons in IH as [Hp Hps]. by repeat constructor.
Qed.

Lemma join_cons piece pieces :
  pieces <> [] ->
  Js.join (String sep EmptyString) (piece :: pieces)
  = (piece ++ String sep (Js.join (String sep EmptyString) pieces))%string.
Proof. destruct pieces; [congruence | reflexivity]. Qed.

Lemma split_append piece s :
  free_of piece ->
  Js.split sep (piece ++ String sep s) = piece :: Js.split sep s.
Proof.
  induction piece as [|c rest IH]; simpl.
  - intros _. by rewrite Ascii.eqb_refl.
  - intros [Hne Hfree]. destruct (Ascii.eqb_spec c sep) as [|_]; [congruence|].
    by rewrite IH.
Qed.

Lemma split_free_string piece : free_of piece -> Js.split sep piece = [piece].
Proof.
  induction piece as [|c rest IH]; simpl; [reflexivity|].
  intros [Hne Hfree]. destruct (Ascii.eqb_spec c sep) as [|_]; [congruence|].
  by rewrite IH.
Qed.

(** Splitting what was joined gives the pieces back. *)
Lemma split_join pieces :
  pieces <> [] -> Forall free_of pieces ->
  Js.split sep (Js.join (String sep EmptyString) pieces) = pieces.
Proof.
  induction pieces as [|piece rest IH]; [congruence|]. intros _ Hfree.
  apply Forall_cons in Hfree as [Hp Hrest].
  destruct rest as [|piece' rest']; [by apply split_free_string|].
  rewrite join_cons by discriminate. rewrite split_append by exact Hp.
  f_equal. by apply IH.
Qed.

(** Joining what was split gives the string back. *)
Lemma join_split s : Js.join (String sep EmptyString) (Js.split sep s) = s.
Proof.
  induction s as [|c rest IH]; simpl; [reflexivity|].
  destruct (Ascii.eqb_spec c sep) as [->|Hne].
  - rewrite join_cons by apply split_not_nil. simpl. by rewrite IH.
  - pose proof (split_not_nil rest) as Hnil.
    destruct (Js.split sep rest) as [|piece pieces]; [congruence|].
    destruct pieces as [|piece' pieces']; simpl in *; by rewrite <- IH.
Qed.

End Lines.

(** ** The displacement-events parser *)

Section EventsParser.
Variable tokenize : string -> Csv.scan.

(** The value the handler's cast gives a cell, by the name of its column. *)
Definition event_value (name raw : string) : Value :=
  if bool_decide (name ∈ Events.numeric_columns)
  then VNum (if Js.isNaN (Js.parseFloat raw) then PrimFloat.zero else Js.parseFloat raw)
  else VStr raw.

Lemma events_cast_name raw name :
  Events.cast raw (Csv.ColName name) = Ok (event_value name raw).
Proof.
  unfold Events.cast, event_value. simpl.
  by destruct (bool_decide (name ∈ Events.numeric_columns)).
Qed.

Lemma events_cast_total raw column : exists v, Events.cast raw column = Ok v.
Proof. unfold Events.cast. destruct (Csv.includes _ column); eauto. Qed.

Lemma events_cast_header header : forall i,
  Csv.cast_fields Events.cast None i header = Ok (map VStr header).
Proof.
  induction header as [|h rest IH]; intros i; cbn [Csv.cast_fields map]; [reflexivity|].
  simpl. by rewrite IH.
Qed.

Lemma normalize_strings header : Csv.normalize_columns (map VStr header) = Ok header.
Proof. induction header as [|h rest IH]; simpl; [|rewrite IH]; reflexivity. Qed.

Lemma events_finish columns broken objs :
  Csv.finish Events.cast columns broken objs =
    match broken with
    | None => Ok objs
    | Some (_, code) => Throw (CsvSyntax code)
    end.
Proof.
  unfold Csv.finish. destruct broken as [[fields code]|]; [|reflexivity].
  destruct (cast_fields_total Events.cast columns fields 0 events_cast_total) as [vs ->].
  reflexivity.
Qed.

Lemma events_parse_with_header text header data :
  Csv.rows (tokenize text) = header :: data ->
  Csv.parse tokenize Events.cast text =
    objs ← Csv.records_of Events.cast header data;
    match Csv.broken (tokenize text) with
    | None => Ok objs
    | Some (_, code) => Throw (CsvSyntax code)
    end.
Proof.
  intros Hrows. unfold Csv.parse. rewrite Hrows, events_cast_header. simpl.
  rewrite normalize_strings. simpl.
  destruct (Csv.records_of Events.cast header data); simpl; [|reflexivity].
  apply events_finish.
Qed.

(** The handler's parse throws only the library's own errors. *)
Lemma events_parse_Throw text e :
  Csv.parse tokenize Events.cast text = Throw e ->
  (exists columns got, columns <> got /\ e = CsvRecordLength columns got) \/
  (exists code, e = CsvSyntax code).
Proof.
  destruct (Csv.rows (tokenize text)) as [|header data] eqn:Hrows.
  - unfold Csv.parse. rewrite Hrows, events_finish.
    destruct (Csv.broken (tokenize text)) as [[? code]|]; [|discriminate].
    intros [= <-]. eauto.
  - rewrite (events_parse_with_header _ _ _ Hrows).
    destruct (Csv.records_of Events.cast header data) as [objs|e'] eqn:Hrec; simpl.
    + destruct (Csv.broken (tokenize text)) as [[? code]|]; [|discriminate].
      intros [= <-]. eauto.
    + intros [= ->]. apply records_of_Throw in Hrec as (fields & _ & [Hc | [Hlen ->]]).
      * apply cast_fields_Throw in Hc as (j & raw & _ & Hc).
        destruct (events_cast_total raw (Csv.context_column (Some header) (0 + j))). congruence.
      * left. eauto.
Qed.

(** A table whose records all have the header's length, read to the
    end by the tokenizer, is parsed whatever its cells hold. *)
Lemma events_parse_total text header data :
  Csv.rows (tokenize text) = header :: data ->
  Csv.broken (tokenize text) = None ->
  Forall (fun fields => length fields = length header) data ->
  exists records, Csv.parse tokenize Events.cast text = Ok records.
Proof.
  intros Hrows Hbroken Hrect. rewrite (events_parse_with_header _ _ _ Hrows), Hbroken.
  destruct (records_of_total Events.cast header data) as [objs ->]; [|simpl; eauto].
  eapply Forall_impl; [exact Hrect|]. intros fields Hlen. split; [exact Hlen|].
  apply cast_fields_total, events_cast_total.
Qed.

(** The fields of a parsed record: the cast of the cell under the last
    column of each name. *)
Lemma events_parse_fields text header data records :
  Csv.rows (tokenize text) = header :: data ->
  Csv.parse tokenize Events.cast text = Ok records ->
  length records = length data /\
  forall i fields record,
    data !! i = Some fields -> records !! i = Some record ->
    (forall j name raw,
        header !! j = Some name -> fields !! j = Some raw ->
        (forall j', (j < j')%nat -> header !! j' <> Some name) ->
        record !! name = Some (event_value name raw)) /\
    (forall name v, record !! name = Some v ->
                    exists raw, v = event_value name raw).
Proof.
  intros Hrows H.
  destruct (parse_Ok _ _ _ _ _ _ H Hrows) as (_ & hs & names & Hhs & Hnames & Hrec).
  rewrite events_cast_header in Hhs. injection Hhs as <-.
  rewrite normalize_strings in Hnames. injection Hnames as <-.
  apply records_of_Ok in Hrec. split; [symmetry; exact (Forall2_length _ _ _ Hrec)|].
  intros i fields record Hi Hr.
  destruct (Forall2_lookup_lr _ _ _ _ _ _ Hrec Hi Hr) as (Hlen & vs & Hvs & ->).
  apply cast_fields_Ok in Hvs as [Hlenvs Hvs]. split.
  - intros j name raw Hh Hraw Hlast.
    destruct (Hvs j raw Hraw) as (v & Hv & Hc).
    unfold Csv.context_column in Hc. simpl in Hc. rewrite Hh, events_cast_name in Hc.
    injection Hc as <-. by apply (make_object_last _ _ j).
  - intros name v Hobj. apply make_object_Some in Hobj as (j & Hn & Hv).
    assert (Hj : (j < length fields)%nat).
    { rewrite <- Hlenvs. by apply lookup_lt_Some in Hv. }
    apply lookup_lt_is_Some in Hj as [raw Hraw].
    destruct (Hvs j raw Hraw) as (v' & Hv' & Hc). rewrite Hv in Hv'. injection Hv' as <-.
    unfold Csv.context_column in Hc. simpl in Hc. rewrite Hn, events_cast_name in Hc.
    injection Hc as <-. eauto.
Qed.

(** What the cast leaves under a numeric column is a number, and not
    [NaN]; in particular [figure] never holds a string. *)
Lemma figure_is_number content records record name v :
  Events.parse_events tokenize content = Ok records ->
  record ∈ records -> name ∈ Events.numeric_columns ->
  record !! name = Some v ->
  exists x, v = VNum x /\ Js.isNaN x = false.
Proof.
  unfold Events.parse_events. intros Hparse Hin Hname Hv.
  destruct (Csv.rows (tokenize (Events.cleanedCSV content))) as [|header data] eqn:Hrows.
  - unfold Csv.parse in Hparse. rewrite Hrows, events_finish in Hparse.
    destruct (Csv.broken _) as [[? ?]|]; [discriminate|]. injection Hparse as <-.
    by apply elem_of_nil in Hin.
  - destruct (events_parse_fields _ _ _ _ Hrows Hparse) as [Hlen Hfields].
    apply list_elem_of_lookup in Hin as [i Hi].
    assert (Hlt : (i < length data)%nat) by (rewrite <- Hlen; by apply lookup_lt_Some in Hi).
    apply lookup_lt_is_Some in Hlt as [fields Hf].
    destruct (Hfields i fields record Hf Hi) as [_ Hall].
    destruct (Hall name v Hv) as [raw ->]. unfold event_value.
    rewrite (bool_decide_eq_true_2 _ Hname).
    destruct (Js.isNaN (Js.parseFloat raw)) eqn:Hnan; eauto.
Qed.

End EventsParser.

(** ** The displacement-events handler *)

Section EventsClaims.
Variable tokenize : string -> Csv.scan.

Lemma is_valid_zero (record : object) name :
  name ∈ ["latitude"; "longitude"; "figure"] ->
  record !! name = Some (VNum PrimFloat.zero) ->
  Events.is_valid record = false.
Proof.
  intros Hin H. unfold Events.is_valid.
  apply elem_of_cons in Hin as [->|Hin]; [by rewrite H|].
  apply elem_of_cons in Hin as [->|Hin]; [by rewrite H, andb_false_r|].
  apply list_elem_of_singleton in Hin as ->. rewrite H. simpl.
  by rewrite andb_false_r.
Qed.

Lemma elem_of_validRecords (record : object) records :
  record ∈ Events.validRecords records <->
  record ∈ records /\ Events.is_valid record = true.
Proof. unfold Events.validRecords. rewrite !list_elem_of_In. apply filter_In. Qed.

(** The handler answers with a success body exactly when the file is
    read, parsed, and the response computed. *)
Lemma GET_success files log gaza west summary bounds st :
  Events.GET tokenize files =
    (log, {| Events.body := Events.Success_body gaza west summary bounds;
             Events.status := st |}) ->
  exists content records,
    files !! "data/event_data_pse.csv" = Some content /\
    Events.parse_events tokenize content = Ok records /\
    Events.respond records = Ok (Events.Success_body gaza west summary bounds).
Proof.
  unfold Events.GET, readFileSync.
  destruct (files !! "data/event_data_pse.csv") as [content|]; simpl; [|discriminate].
  destruct (Events.parse_events tokenize content) as [records|e] eqn:Hp; simpl; [|discriminate].
  destruct (Events.respond records) as [body|e] eqn:Hr; [|discriminate].
  intros H. injection H as _ Hbody _. subst body. by exists content, records.
Qed.

(** A filter whose callback did not throw is a filter. *)
Lemma filter_throwing_Ok {A} (p : A -> result bool) xs : forall kept,
  Events.filter_throwing p xs = Ok kept ->
  Forall (fun x => exists b, p x = Ok b) xs /\
  kept = List.filter (fun x => match p x with Ok b => b | Throw _ => false end) xs.
Proof.
  induction xs as [|x rest IH]; intros kept H; simpl in H.
  - injection H as <-. by split.
  - apply bind_Ok in H as (keep & Hkeep & H). apply bind_Ok in H as (kept' & Hkept & H).
    injection H as <-. destruct (IH _ Hkept) as [Hall ->]. split; [constructor; eauto|].
    simpl. by rewrite Hkeep.
Qed.

(** Whether a record's location names Gaza, once it has a location name. *)
Definition in_gaza (record : object) : bool :=
  match Events.mentions_gaza record with
  | Ok b => b
  | Throw _ => false
  end.

(** The response, taken apart. *)
Lemma respond_Ok records gaza west summary bounds :
  Events.respond records = Ok (Events.Success_body gaza west summary bounds) ->
  let valid := Events.validRecords records in
  Forall (fun r => exists name, r !! "locations_name" = Some (VStr name)) valid /\
  gaza = List.filter in_gaza valid /\
  west = List.filter (fun r => negb (in_gaza r)) valid /\
  summary =
    {| Events.total_events := length valid;
       Events.total_displaced := Events.sum_figures valid;
       Events.gaza_displaced := Events.sum_figures gaza;
       Events.west_bank_displaced := Events.sum_figures west;
       Events.gaza_events_count := length gaza;
       Events.west_bank_events_count := length west;
       Events.largest_displacement :=
         Js.Math_max (map (fun r => ToNumber (r !! "figure")) valid) |} /\
  bounds =
    {| north := Js.Math_max (map (fun r => ToNumber (r !! "latitude")) valid);
       south := Js.Math_min (map (fun r => ToNumber (r !! "latitude")) valid);
       east := Js.Math_max (map (fun r => ToNumber (r !! "longitude")) valid);
       west := Js.Math_min (map (fun r => ToNumber (r !! "longitude")) valid) |}.
Proof.
  intros H valid. unfold Events.respond in H. fold valid in H.
  apply bind_Ok in H as (g & Hg & H). apply bind_Ok in H as (w & Hw & H).
  injection H as <- <- <- <-.
  apply filter_throwing_Ok in Hg as [Hall ->]. apply filter_throwing_Ok in Hw as [_ ->].
  assert (Hnames : Forall (fun r => exists name, r !! "locations_name" = Some (VStr name)) valid).
  { eapply Forall_impl; [exact Hall|]. intros r [b Hb]. unfold Events.mentions_gaza in Hb.
    destruct (r !! "locations_name") as [[x|name]|]; try discriminate. eauto. }
  assert (Hwest : List.filter (fun r => match (b ← Events.mentions_gaza r; Ok (negb b)) with
                                      | Ok b => b
                                      | Throw _ => false
                                      end) valid
                  = List.filter (fun r => negb (in_gaza r)) valid).
  { apply filter_ext_in. intros r Hin. rewrite Forall_forall in Hnames.
    destruct (Hnames r) as [name Hname]; [by apply list_elem_of_In|].
    unfold in_gaza, Events.mentions_gaza. by rewrite Hname. }
  rewrite Hwest.
  by repeat split.
Qed.

(** A filter whose callback throws for some element throws. *)
Lemma filter_throwing_Throw {A} (p : A -> result bool) e xs :
  Forall (fun x => (exists b, p x = Ok b) \/ p x = Throw e) xs ->
  Exists (fun x => p x = Throw e) xs ->
  Events.filter_throwing p xs = Throw e.
Proof.
  induction xs as [|x rest IH]; intros Hall Hex; [by apply Exists_nil in Hex|].
  apply Forall_cons in Hall as [Hx Hrest]. simpl.
  destruct Hx as [[b Hb]|Hx]; [|by rewrite Hx].
  rewrite Hb. simpl. apply Exists_cons in Hex as [Hex|Hex]; [congruence|].
  by rewrite (IH Hrest Hex).
Qed.

Lemma filter_throwing_total {A} (p : A -> result bool) xs :
  Forall (fun x => exists b, p x = Ok b) xs ->
  exists kept, Events.filter_throwing p xs = Ok kept.
Proof.
  induction 1 as [|x rest [b Hb] _ [kept IH]]; simpl; [eauto|].
  rewrite Hb, IH. simpl. eauto.
Qed.

(** In a parsed record [locations_name], when it is there, is a string. *)
Lemma locations_name_is_string content records record :
  Events.parse_events tokenize content = Ok records -> record ∈ records ->
  is_Some (record !! "locations_name") ->
  exists name, record !! "locations_name" = Some (VStr name).
Proof.
  unfold Events.parse_events. intros Hparse Hin [v Hv].
  destruct (Csv.rows (tokenize (Events.cleanedCSV content))) as [|header data] eqn:Hrows.
  - unfold Csv.parse in Hparse. rewrite Hrows, events_finish in Hparse.
    destruct (Csv.broken _) as [[? ?]|]; [discriminate|]. injection Hparse as <-.
    by apply elem_of_nil in Hin.
  - destruct (events_parse_fields _ _ _ _ _ Hrows Hparse) as [Hlen Hfields].
    apply list_elem_of_lookup in Hin as [i Hi].
    assert (Hlt : (i < length data)%nat) by (rewrite <- Hlen; by apply lookup_lt_Some in Hi).
    apply lookup_lt_is_Some in Hlt as [fields Hf].
    destruct (Hfields i fields record Hf Hi) as [_ Hall].
    destruct (Hall _ v Hv) as [raw ->]. rewrite Hv. eauto.
Qed.

(** A file that is read and parsed, and whose valid records all have a
    [locations_name], is answered with status 200 and the summary of
    its valid records. *)
Lemma GET_answers files content records :
  files !! events_path = Some content ->
  Events.parse_events tokenize content = Ok records ->
  Forall (fun r : object => is_Some (r !! "locations_name")) (Events.validRecords records) ->
  exists gaza west summary bounds,
    Events.GET tokenize files =
      ([], {| Events.body := Events.Success_body gaza west summary bounds;
              Events.status := 200 |}) /\
    Events.total_events summary = length (Events.validRecords records) /\
    Events.total_displaced summary =
      fold_left (fun sum record => PrimFloat.add sum (ToNumber (record !! "figure")))
        (Events.validRecords records) PrimFloat.zero.
Proof.
  intros Hfile Hparse Hall. unfold Events.GET, readFileSync. unfold events_path in Hfile.
  rewrite Hfile. simpl. rewrite Hparse. simpl.
  assert (Hok : Forall (fun r => exists b, Events.mentions_gaza r = Ok b)
                  (Events.validRecords records)).
  { apply Forall_forall. intros r Hr. rewrite Forall_forall in Hall.
    pose proof (Hall r Hr) as Hsome. apply elem_of_validRecords in Hr as [Hr _].
    destruct (locations_name_is_string _ _ _ Hparse Hr Hsome) as [name Hname].
    unfold Events.mentions_gaza. rewrite Hname. eauto. }
  assert (Hok' : Forall (fun r => exists b,
                           (b ← Events.mentions_gaza r; Ok (negb b)) = Ok b)
                   (Events.validRecords records)).
  { eapply Forall_impl; [exact Hok|]. intros r [b ->]. simpl. eauto. }
  unfold Events.respond.
  destruct (filter_throwing_total _ _ Hok) as [gaza ->]. simpl.
  destruct (filter_throwing_total _ _ Hok') as [west ->]. simpl.
  eexists _, _, _, _. split; [reflexivity|]. by split.
Qed.

(** C10.  The handler's cast turns a cell of [latitude], [longitude],
    [figure] or [year] that does not parse as a number into [0] and never
    throws, so the handler's parse fails only on the library's own errors
    (a record of the wrong length, a tokenizer error), never on a cell.
    In a table whose records have the header's length the parse succeeds
    whatever the cells hold, and the endpoint answers 200 with the
    summary of the valid records (their [locations_name] being there, as
    the grouping needs it, with or without unparseable cells); a record
    whose [latitude], [longitude] or [figure] cell does not parse has [0]
    there, is not among the valid records and so is not counted. *)
Theorem events_unparseable_number_is_zero :
  (forall raw name,
      name ∈ Events.numeric_columns -> Js.isNaN (Js.parseFloat raw) = true ->
      Events.cast raw (Csv.ColName name) = Ok (VNum PrimFloat.zero)) /\
  (forall raw column, exists v, Events.cast raw column = Ok v) /\
  (forall content e,
      Events.parse_events tokenize content = Throw e ->
      (exists columns got, columns <> got /\ e = CsvRecordLength columns got) \/
      (exists code, e = CsvSyntax code)) /\
  (forall content header data,
      Csv.rows (tokenize (Events.cleanedCSV content)) = header :: data ->
      Csv.broken (tokenize (Events.cleanedCSV content)) = None ->
      Forall (fun fields => length fields = length header) data ->
      exists records,
        Events.parse_events tokenize content = Ok records /\
        length records = length data /\
        (forall files,
            files !! events_path = Some content ->
            Forall (fun r : object => is_Some (r !! "locations_name"))
              (Events.validRecords records) ->
            exists gaza west summary bounds,
              Events.GET tokenize files =
                ([], {| Events.body := Events.Success_body gaza west summary bounds;
                        Events.status := 200 |}) /\
              Events.total_events summary = length (Events.validRecords records)) /\
        forall i fields record j name raw,
          data !! i = Some fields -> records !! i = Some record ->
          header !! j = Some name -> fields !! j = Some raw ->
          (forall j', (j < j')%nat -> header !! j' <> Some name) ->
          name ∈ ["latitude"; "longitude"; "figure"] ->
          Js.isNaN (Js.parseFloat raw) = true ->
          record !! name = Some (VNum PrimFloat.zero) /\
          Events.is_valid record = false /\
          record ∉ Events.validRecords records).
Proof.
  split; [|split; [|split]].
  - intros raw name Hin Hnan. rewrite events_cast_name. unfold event_value.
    by rewrite (bool_decide_eq_true_2 _ Hin), Hnan.
  - apply events_cast_total.
  - intros content e. apply events_parse_Throw.
  - intros content header data Hrows Hbroken Hrect. unfold Events.parse_events.
    destruct (events_parse_total tokenize _ _ _ Hrows Hbroken Hrect) as [records Hp].
    exists records. split; [exact Hp|].
    destruct (events_parse_fields tokenize _ _ _ _ Hrows Hp) as [Hlen Hfields].
    split; [exact Hlen|]. split.
    { intros files Hfile Hnamed.
      destruct (GET_answers files content records Hfile Hp Hnamed)
        as (gaza & west & summary & bounds & HGET & Hcount & _).
      by exists gaza, west, summary, bounds. }
    intros i fields record j name raw Hi Hr Hh Hraw Hlast Hin Hnan.
    destruct (Hfields i fields record Hi Hr) as [Hcells _].
    assert (Hzero : record !! name = Some (VNum PrimFloat.zero)).
    { rewrite (Hcells j name raw Hh Hraw Hlast). unfold event_value.
      rewrite bool_decide_eq_true_2, Hnan; [reflexivity|].
      clear -Hin. unfold Events.numeric_columns.
      repeat (apply elem_of_cons in Hin as [-> | Hin]; [apply list_elem_of_In; simpl; tauto|]).
      by apply elem_of_nil in Hin. }
    split; [exact Hzero|]. pose proof (is_valid_zero record name Hin Hzero) as Hinvalid.
    split; [exact Hinvalid|]. intros Hv. apply elem_of_validRecords in Hv as [_ Hv]. congruence.
Qed.

Lemma strict_eq_string_true v s :
  strict_eq_string v s = true <-> v = Some (VStr s).
Proof.
  unfold strict_eq_string. destruct v as [[x|t]|]; try (split; [discriminate | congruence]).
  rewrite String.eqb_eq. split; congruence.
Qed.

(** C5.  Of the records parsed from the file, the handler keeps as valid
    exactly those whose [latitude] and [longitude] are truthy, whose
    [figure] is above zero, whose [displacement_date] is truthy and whose
    [country] is the string ['Palestine']; and in its answer
    [total_displaced] is the sum, from [0] and in order, of the [figure]
    of exactly these records ([total_events] being their number).  The
    answer is given, with status 200, whenever every valid record has
    the [locations_name] that the grouping reads; and no success answer
    reports any other total. *)
Theorem valid_records_and_total_displaced files content records :
  files !! events_path = Some content ->
  Events.parse_events tokenize content = Ok records ->
  (forall record,
      record ∈ Events.validRecords records <->
      record ∈ records /\
      truthy (record !! "latitude") = true /\
      truthy (record !! "longitude") = true /\
      PrimFloat.ltb PrimFloat.zero (ToNumber (record !! "figure")) = true /\
      truthy (record !! "displacement_date") = true /\
      record !! "country" = Some (VStr "Palestine")) /\
  (Forall (fun r : object => is_Some (r !! "locations_name")) (Events.validRecords records) ->
   exists gaza west summary bounds,
     Events.GET tokenize files =
       ([], {| Events.body := Events.Success_body gaza west summary bounds;
               Events.status := 200 |}) /\
     Events.total_events summary = length (Events.validRecords records) /\
     Events.total_displaced summary =
       fold_left (fun sum record => PrimFloat.add sum (ToNumber (record !! "figure")))
         (Events.validRecords records) PrimFloat.zero) /\
  (forall log gaza west summary bounds st,
      Events.GET tokenize files =
        (log, {| Events.body := Events.Success_body gaza west summary bounds;
                 Events.status := st |}) ->
      Events.total_events summary = length (Events.validRecords records) /\
      Events.total_displaced summary =
        fold_left (fun sum record => PrimFloat.add sum (ToNumber (record !! "figure")))
          (Events.validRecords records) PrimFloat.zero).
Proof.
  intros Hfile Hparse. split; [|split].
  - intros record. rewrite elem_of_validRecords. unfold Events.is_valid.
    rewrite !andb_true_iff, strict_eq_string_true. tauto.
  - intros Hnamed. exact (GET_answers files content records Hfile Hparse Hnamed).
  - intros log gaza west summary bounds st HGET.
    apply GET_success in HGET as (content' & records' & Hfile' & Hparse' & Hrespond).
    unfold events_path in Hfile. rewrite Hfile in Hfile'. injection Hfile' as <-.
    rewrite Hparse in Hparse'. injection Hparse' as <-.
    apply respond_Ok in Hrespond as (_ & _ & _ & -> & _). by split.
Qed.

Lemma cleanedCSV_lines content :
  Events.cleanedCSV content = Js.join newline (delete 1%nat (Js.split "010" content)) /\
  Js.split "010" (Events.cleanedCSV content) = delete 1%nat (Js.split "010" content).
Proof.
  unfold Events.cleanedCSV.
  pose proof (split_not_nil "010" content) as Hnil.
  pose proof (split_free "010" content) as Hfree.
  destruct (Js.split "010" content) as [|line0 rest]; [congruence|].
  assert (Heq : hd EmptyString (line0 :: rest) :: drop 2 (line0 :: rest)
                = delete 1%nat (line0 :: rest)) by (by destruct rest).
  rewrite Heq. split; [reflexivity|]. apply split_join; [by destruct rest|].
  apply Forall_cons in Hfree as [H0 Hrest]. destruct rest as [|line1 rest]; simpl.
  - by repeat constructor.
  - apply Forall_cons in Hrest as [_ Hrest]. by constructor.
Qed.

(** C7.  The handler parses the file's content without its line of index
    1: the text it hands to the library has the lines of the content
    except that one, line 0 first (the header), then the lines from index
    2 on.  So the records it parses are those the library reads after the
    header in that text; and from a file of a header line, one metadata
    line and three data lines which the library reads (without the
    metadata line) as a header and three records of the header's length,
    it parses exactly three records. *)
Theorem events_metadata_line_is_removed :
  (forall content,
      Events.cleanedCSV content = Js.join newline (delete 1%nat (Js.split "010" content)) /\
      Js.split "010" (Events.cleanedCSV content) = delete 1%nat (Js.split "010" content)) /\
  (forall content header data,
      Csv.rows (tokenize (Js.join newline (delete 1%nat (Js.split "010" content))))
        = header :: data ->
      Csv.broken (tokenize (Js.join newline (delete 1%nat (Js.split "010" content)))) = None ->
      Forall (fun fields => length fields = length header) data ->
      exists records,
        Events.parse_events tokenize content = Ok records /\
        length records = length data) /\
  (forall header_line metadata_line line1 line2 line3 header row1 row2 row3,
      Forall (free_of "010") [header_line; metadata_line; line1; line2; line3] ->
      tokenize (Js.join newline [header_line; line1; line2; line3])
        = Csv.Scan [header; row1; row2; row3] None ->
      Forall (fun fields => length fields = length header) [row1; row2; row3] ->
      exists records,
        Events.parse_events tokenize
          (Js.join newline [header_line; metadata_line; line1; line2; line3]) = Ok records /\
        length records = 3%nat).
Proof.
  assert (Hgeneral : forall content header data,
      Csv.rows (tokenize (Js.join newline (delete 1%nat (Js.split "010" content))))
        = header :: data ->
      Csv.broken (tokenize (Js.join newline (delete 1%nat (Js.split "010" content)))) = None ->
      Forall (fun fields => length fields = length header) data ->
      exists records,
        Events.parse_events tokenize content = Ok records /\
        length records = length data).
  { intros content header data Hrows Hbroken Hrect.
    destruct (cleanedCSV_lines content) as [Hclean _]. rewrite <- Hclean in Hrows, Hbroken.
    destruct (events_parse_total tokenize _ _ _ Hrows Hbroken Hrect) as [records Hp].
    exists records. split; [exact Hp|].
    by destruct (events_parse_fields tokenize _ _ _ _ Hrows Hp) as [Hlen _]. }
  split; [exact cleanedCSV_lines|]. split; [exact Hgeneral|].
  intros header_line metadata_line line1 line2 line3 header row1 row2 row3 Hfree Htok Hrect.
  apply (Hgeneral _ header [row1; row2; row3]); [| |exact Hrect];
    change newline with (String "010" EmptyString) at 2;
    rewrite (split_join "010") by (discriminate || exact Hfree);
    cbn [delete list_delete]; by rewrite Htok.
Qed.

(** *** Sums of figures, and when they are exact *)

(** The figures the three [reduce] calls add up. *)
Definition figures (records : list object) : list float :=
  map (fun record => ToNumber (record !! "figure")) records.

(** The floating-point addition [x + y] is exact: both are finite and
    the result is their sum without rounding. *)
Definition exact_add (x y : float) : bool :=
  match scaled x, scaled y, scaled (x + y)%float with
  | Some a, Some b, Some c => c =? a + b
  | _, _, _ => false
  end.

(** Every addition of the left-to-right sum of [xs] from [acc] is exact. *)
Fixpoint adds_exactly (acc : float) (xs : list float) : bool :=
  match xs with
  | [] => true
  | x :: rest => exact_add acc x && adds_exactly (acc + x)%float rest
  end.

(** The exact sum of finite floats, in units of [2^-1074]. *)
Definition exact_sum (xs : list float) : Z :=
  fold_right (fun x s => default 0 (scaled x) + s) 0 xs.

Lemma sum_figures_fold records :
  Events.sum_figures records = fold_left PrimFloat.add (figures records) PrimFloat.zero.
Proof.
  unfold Events.sum_figures, figures. generalize PrimFloat.zero.
  induction records as [|record rest IH]; intros acc; simpl; [reflexivity | apply IH].
Qed.

Lemma exact_add_true x y :
  exact_add x y = true ->
  exists a b, scaled x = Some a /\ scaled y = Some b /\ scaled (x + y)%float = Some (a + b).
Proof.
  unfold exact_add.
  destruct (scaled x) as [a|], (scaled y) as [b|], (scaled (x + y)%float) as [c|];
    try discriminate.
  intros H%Z.eqb_eq. subst c. eauto.
Qed.

Lemma adds_exactly_sum xs : forall acc a,
  adds_exactly acc xs = true -> scaled acc = Some a ->
  scaled (fold_left PrimFloat.add xs acc) = Some (a + exact_sum xs) /\
  Forall (fun x => is_Some (scaled x)) xs.
Proof.
  induction xs as [|x rest IH]; intros acc a H Hacc; simpl in *.
  - split; [by rewrite Z.add_0_r | constructor].
  - apply andb_true_iff in H as [Hadd Hrest].
    apply exact_add_true in Hadd as (a' & b & Ha & Hb & Hsum).
    rewrite Hacc in Ha. injection Ha as <-.
    destruct (IH _ _ Hrest Hsum) as [Hfold Hall]. rewrite Hfold, Hb. simpl.
    split; [f_equal; lia | constructor; eauto].
Qed.

Lemma exact_sum_split (p : object -> bool) records :
  exact_sum (figures records)
  = exact_sum (figures (List.filter p records))
    + exact_sum (figures (List.filter (fun r => negb (p r)) records)).
Proof.
  induction records as [|record rest IH]; simpl; [reflexivity|].
  destruct (p record); simpl; lia.
Qed.

Lemma exact_sum_nonneg records :
  Forall (fun r => Events.is_valid r = true) records ->
  0 <= exact_sum (figures records).
Proof.
  induction 1 as [|r rest Hr _ IH]; simpl; [lia|].
  destruct (scaled (ToNumber (r !! "figure"))) as [z|] eqn:Hz; simpl; [|lia].
  assert (0 < z); [|lia].
  apply (scaled_positive (ToNumber (r !! "figure"))); [|exact Hz].
  unfold Events.is_valid in Hr. rewrite !andb_true_iff in Hr. tauto.
Qed.

Lemma exact_sum_positive records :
  records <> [] ->
  Forall (fun r => Events.is_valid r = true) records ->
  Forall (fun x => is_Some (scaled x)) (figures records) ->
  0 < exact_sum (figures records).
Proof.
  intros Hne Hvalid Hfinite. destruct records as [|r rest]; [congruence|]. simpl in *.
  apply Forall_cons in Hvalid as [Hr Hrest]. apply Forall_cons in Hfinite as [[z Hz] _].
  pose proof (exact_sum_nonneg rest Hrest). rewrite Hz. simpl.
  assert (0 < z); [|lia].
  apply (scaled_positive (ToNumber (r !! "figure"))); [|exact Hz].
  unfold Events.is_valid in Hr. rewrite !andb_true_iff in Hr. tauto.
Qed.

(** The float [x] is the whole number [n]. *)
Definition whole (x : float) (n : Z) : Prop := scaled x = Some (n * 2 ^ 1074).

Lemma exact_sum_whole xs ns :
  Forall2 whole xs ns -> exact_sum xs = fold_right Z.add 0 ns * 2 ^ 1074.
Proof.
  induction 1 as [|x n xs ns Hx _ IH]; simpl; [reflexivity|].
  unfold whole in Hx. rewrite Hx, IH. simpl. ring.
Qed.

(** Positive whole numbers whose total stays below [2^53] add up without
    rounding. *)
Lemma adds_exactly_whole xs : forall acc A,
  whole acc A -> 0 <= A ->
  Forall (fun x => exists n, 0 < n /\ whole x n) xs ->
  A * 2 ^ 1074 + exact_sum xs < 2 ^ 53 * 2 ^ 1074 ->
  adds_exactly acc xs = true.
Proof.
  assert (HP : 0 < 2 ^ 1074) by (by apply Z.pow_pos_nonneg).
  induction xs as [|x rest IH]; intros acc A Hacc HA Hall Hlt; simpl; [reflexivity|].
  apply Forall_cons in Hall as [(n & Hn & Hx) Hrest]. unfold whole in Hacc, Hx.
  simpl in Hlt. rewrite Hx in Hlt. simpl in Hlt.
  assert (Hrest0 : 0 <= exact_sum rest).
  { clear -Hrest HP. induction Hrest as [|y ys (k & Hk & Hy) _ IHys]; simpl; [lia|].
    unfold whole in Hy. rewrite Hy. simpl. nia. }
  assert (HAn : 0 < A + n < 2 ^ 53) by nia.
  destruct (whole_float (A + n) HAn) as [z Hz].
  assert (Hsum : (acc + x)%float = z).
  { apply (add_exact acc x z (A * 2 ^ 1074) (n * 2 ^ 1074)); try assumption; try nia.
    rewrite Hz. f_equal. ring. }
  apply andb_true_iff. split.
  - unfold exact_add. rewrite Hacc, Hx, Hsum, Hz. apply Z.eqb_eq. ring.
  - apply (IH _ (A + n)); [by rewrite Hsum | lia | exact Hrest | lia].
Qed.

(** C6, amended.  In a successful answer every valid record has a
    location name and lies in exactly one of [gaza_events] and
    [west_bank_events], according to whether its name in lower case
    contains ['gaza']; the two groups hold valid records only; so
    [gaza_events_count + west_bank_events_count = total_events].  The
    three sums of figures are floating-point sums taken separately:
    [gaza_displaced + west_bank_displaced = total_displaced] holds
    whenever no addition inside the three sums rounds, and so whenever
    the figures of the valid records are whole numbers whose total is
    below [2^53]. *)
Theorem gaza_and_west_bank_partition files log gaza west summary bounds st :
  Events.GET tokenize files =
    (log, {| Events.body := Events.Success_body gaza west summary bounds;
             Events.status := st |}) ->
  exists content records,
    files !! events_path = Some content /\
    Events.parse_events tokenize content = Ok records /\
    let valid := Events.validRecords records in
    (forall record,
        record ∈ valid ->
        exists name,
          record !! "locations_name" = Some (VStr name) /\
          if Js.includes "gaza" (Js.toLowerCase name)
          then record ∈ gaza /\ record ∉ west
          else record ∈ west /\ record ∉ gaza) /\
    (forall record, record ∈ gaza \/ record ∈ west -> record ∈ valid) /\
    (Events.gaza_events_count summary + Events.west_bank_events_count summary
     = Events.total_events summary)%nat /\
    (adds_exactly PrimFloat.zero (figures valid) = true ->
     adds_exactly PrimFloat.zero (figures gaza) = true ->
     adds_exactly PrimFloat.zero (figures west) = true ->
     (Events.gaza_displaced summary + Events.west_bank_displaced summary)%float
     = Events.total_displaced summary) /\
    (forall ns,
        Forall2 whole (figures valid) ns ->
        fold_right Z.add 0 ns < 2 ^ 53 ->
        (Events.gaza_displaced summary + Events.west_bank_displaced summary)%float
        = Events.total_displaced summary).
Proof.
  intros HGET. apply GET_success in HGET as (content & records & Hfile & Hparse & Hrespond).
  exists content, records. split; [exact Hfile|]. split; [exact Hparse|]. intros valid.
  apply respond_Ok in Hrespond as (Hnames & Hgaza & Hwest & Hsummary & _).
  fold valid in Hnames, Hgaza, Hwest, Hsummary. rewrite Hsummary. simpl.
  assert (Hvalid : Forall (fun r => Events.is_valid r = true) valid).
  { apply Forall_forall. intros x Hx. by apply elem_of_validRecords in Hx as [_ Hx]. }
  assert (Hvg : Forall (fun r => Events.is_valid r = true) gaza).
  { rewrite Hgaza. apply Forall_forall. intros x Hx%list_elem_of_In%filter_In.
    rewrite Forall_forall in Hvalid. apply Hvalid, list_elem_of_In. tauto. }
  assert (Hvw : Forall (fun r => Events.is_valid r = true) west).
  { rewrite Hwest. apply Forall_forall. intros x Hx%list_elem_of_In%filter_In.
    rewrite Forall_forall in Hvalid. apply Hvalid, list_elem_of_In. tauto. }
  assert (Hexact :
    adds_exactly PrimFloat.zero (figures valid) = true ->
    adds_exactly PrimFloat.zero (figures gaza) = true ->
    adds_exactly PrimFloat.zero (figures west) = true ->
    (Events.sum_figures gaza + Events.sum_figures west)%float = Events.sum_figures valid).
  { intros Hv Hg Hw. rewrite !sum_figures_fold.
    destruct (adds_exactly_sum _ _ 0 Hv eq_refl) as [Htotal Hfinite].
    destruct (adds_exactly_sum _ _ 0 Hg eq_refl) as [Hgsum _].
    destruct (adds_exactly_sum _ _ 0 Hw eq_refl) as [Hwsum _].
    destruct valid as [|r rest] eqn:Hvalid_eq.
    - subst gaza west. reflexivity.
    - pose proof (exact_sum_positive (r :: rest) ltac:(discriminate) Hvalid Hfinite).
      pose proof (exact_sum_nonneg gaza Hvg). pose proof (exact_sum_nonneg west Hvw).
      pose proof (exact_sum_split in_gaza (r :: rest)) as Hsplit.
      rewrite <- Hgaza, <- Hwest in Hsplit.
      apply (add_exact _ _ _ _ _ Hgsum Hwsum); [lia | lia | lia |].
      rewrite Htotal. f_equal. lia. }
  split; [|split; [|split; [|split]]].
  - intros record Hin. rewrite Forall_forall in Hnames.
    destruct (Hnames record Hin) as [name Hname]. exists name. split; [exact Hname|].
    assert (Hg : in_gaza record = Js.includes "gaza" (Js.toLowerCase name))
      by (unfold in_gaza, Events.mentions_gaza; by rewrite Hname).
    assert (Hing : record ∈ gaza <-> in_gaza record = true).
    { rewrite Hgaza, list_elem_of_In, filter_In, <- list_elem_of_In. tauto. }
    assert (Hinw : record ∈ west <-> negb (in_gaza record) = true).
    { rewrite Hwest, list_elem_of_In, filter_In, <- list_elem_of_In. tauto. }
    rewrite Hg in Hing, Hinw.
    destruct (Js.includes "gaza" (Js.toLowerCase name)); simpl in *;
      rewrite Hing, Hinw; intuition discriminate.
  - intros record. rewrite Hgaza, Hwest, !list_elem_of_In, !filter_In. tauto.
  - rewrite Hgaza, Hwest. apply filter_length.
  - exact Hexact.
  - intros ns Hwhole Hlt.
    assert (HP : 0 < 2 ^ 1074) by (by apply Z.pow_pos_nonneg).
    assert (Hpos : Forall (fun x => exists n, 0 < n /\ whole x n) (figures valid)).
    { clear -Hwhole Hvalid HP. unfold figures in *.
      induction valid as [|r rest IH] in ns, Hwhole, Hvalid |- *; [constructor|].
      apply Forall_cons in Hvalid as [Hr Hrest]. simpl in Hwhole.
      inversion Hwhole as [|x n xs ns' Hx Hxs]; subst. constructor; [|by eapply IH].
      exists n. split; [|exact Hx]. unfold Events.is_valid in Hr.
      rewrite !andb_true_iff in Hr.
      assert (Hfig : PrimFloat.ltb PrimFloat.zero (ToNumber (r !! "figure")) = true) by tauto.
      pose proof (scaled_positive _ _ Hfig Hx). nia. }
    assert (Hsub : forall p : object -> bool,
               Forall (fun x => exists n, 0 < n /\ whole x n) (figures (List.filter p valid))).
    { intros p. clear -Hpos. unfold figures in *.
      induction valid as [|r rest IH]; [constructor|].
      apply Forall_cons in Hpos as [Hr Hrest]. simpl.
      destruct (p r); [constructor|]; auto. }
    pose proof (exact_sum_whole _ _ Hwhole) as Htot.
    pose proof (exact_sum_split in_gaza valid) as Hsplit.
    rewrite <- Hgaza, <- Hwest in Hsplit.
    pose proof (exact_sum_nonneg gaza Hvg). pose proof (exact_sum_nonneg west Hvw).
    assert (Hwz : whole PrimFloat.zero 0) by reflexivity.
    apply Hexact; apply (adds_exactly_whole _ _ 0 Hwz); try nia.
    + exact Hpos.
    + rewrite Hgaza. apply Hsub.
    + rewrite Hwest. apply Hsub.
Qed.

(** The bounds the handler reports when no record is valid: the values
    [Math.max] and [Math.min] give for no argument. *)
Lemma GET_bounds_without_valid_record files log gaza west summary bounds st records content :
  Events.GET tokenize files =
    (log, {| Events.body := Events.Success_body gaza west summary bounds;
             Events.status := st |}) ->
  files !! events_path = Some content ->
  Events.parse_events tokenize content = Ok records ->
  Events.validRecords records = [] ->
  bounds = {| north := neg_infinity; south := infinity;
              east := neg_infinity; west := infinity |}.
Proof.
  intros HGET Hfile Hparse Hvalid.
  apply GET_success in HGET as (content' & records' & Hfile' & Hparse' & Hrespond).
  unfold events_path in Hfile. rewrite Hfile in Hfile'. injection Hfile' as <-.
  rewrite Hparse in Hparse'. injection Hparse' as <-.
  apply respond_Ok in Hrespond as (_ & _ & _ & _ & ->). by rewrite Hvalid.
Qed.

(** X14.  With a valid record, the handler's bounds are the greatest and least
    latitude and longitude among the valid records, as [calculateBounds]
    has them. *)
Lemma GET_bounds_with_valid_records files log gaza_events west_events summary bounds st
    records content :
  Events.GET tokenize files =
    (log, {| Events.body := Events.Success_body gaza_events west_events summary bounds;
             Events.status := st |}) ->
  files !! events_path = Some content ->
  Events.parse_events tokenize content = Ok records ->
  Events.validRecords records <> [] ->
  let lats := map (fun r => ToNumber (r !! "latitude")) (Events.validRecords records) in
  let lngs := map (fun r => ToNumber (r !! "longitude")) (Events.validRecords records) in
  (north bounds ∈ lats /\ Forall (fun x => PrimFloat.leb x (north bounds) = true) lats) /\
  (south bounds ∈ lats /\ Forall (fun x => PrimFloat.leb (south bounds) x = true) lats) /\
  (east bounds ∈ lngs /\ Forall (fun x => PrimFloat.leb x (east bounds) = true) lngs) /\
  (west bounds ∈ lngs /\ Forall (fun x => PrimFloat.leb (west bounds) x = true) lngs).
Proof.
  intros HGET Hfile Hparse Hne lats lngs.
  apply GET_success in HGET as (content' & records' & Hfile' & Hparse' & Hrespond).
  unfold events_path in Hfile. rewrite Hfile in Hfile'. injection Hfile' as <-.
  rewrite Hparse in Hparse'. injection Hparse' as <-.
  apply respond_Ok in Hrespond as (_ & _ & _ & _ & ->). fold lats lngs. simpl.
  assert (Hnum : forall name, name ∈ ["latitude"; "longitude"] ->
            Forall (fun x => Js.isNaN x = false)
              (map (fun r => ToNumber (r !! name)) (Events.validRecords records))).
  { intros name Hname. apply Forall_fmap, Forall_forall. intros r Hr.
    apply elem_of_validRecords in Hr as [Hr Hvalid]. simpl.
    assert (Hcol : name ∈ Events.numeric_columns).
    { clear -Hname. unfold Events.numeric_columns.
      repeat (apply elem_of_cons in Hname as [-> | Hname];
              [apply list_elem_of_In; simpl; tauto|]).
      by apply elem_of_nil in Hname. }
    destruct (r !! name) as [v|] eqn:Hv.
    - by destruct (figure_is_number tokenize _ _ _ _ _ Hparse Hr Hcol Hv) as (x & -> & Hx).
    - exfalso. unfold Events.is_valid in Hvalid. rewrite !andb_true_iff in Hvalid.
      destruct Hvalid as [[[[Hlat Hlng] _] _] _].
      apply elem_of_cons in Hname as [-> | Hname]; [rewrite Hv in Hlat; discriminate|].
      apply list_elem_of_singleton in Hname as ->. rewrite Hv in Hlng. discriminate. }
  assert (Hlat : lats <> []) by (subst lats; destruct (Events.validRecords records); [congruence | discriminate]).
  assert (Hlng : lngs <> []) by (subst lngs; destruct (Events.validRecords records); [congruence | discriminate]).
  assert (Hlats : Forall (fun x => Js.isNaN x = false) lats)
    by (apply (Hnum "latitude"), list_elem_of_In; simpl; tauto).
  assert (Hlngs : Forall (fun x => Js.isNaN x = false) lngs)
    by (apply (Hnum "longitude"), list_elem_of_In; simpl; tauto).
  split; [by apply Math_max_greatest|]. split; [by apply Math_min_least|].
  split; [by apply Math_max_greatest | by apply Math_min_least].
Qed.

End EventsClaims.

(** *** The handler on small files *)

Definition events_header : string :=
  "id,country,latitude,longitude,figure,displacement_date,locations_name".

Definition events_metadata : string :=
  "#id,#country,#geo+lat,#geo+lon,#affected,#date,#loc+name".

Definition events_file (lines : list string) : gmap string string :=
  {[ events_path := Js.join newline lines ]}.

(** Four data rows with figures 100, 250, 0 and 50; the last one is not
    in Palestine. *)
Definition events_csv : list string :=
  [events_header; events_metadata;
   "1,Palestine,31.5,34.45,100,2025-01-02,Gaza City Shelter";
   "2,Palestine,31.9,35.2,250,2025-01-03,Ramallah Center";
   "3,Palestine,31.9,35.2,0,2025-01-04,Ramallah Center";
   "4,Israel,31.25,34.8,50,2025-01-05,Beersheba";
   ""].

(** Three data rows. *)
Definition three_rows_csv : list string :=
  [events_header; events_metadata;
   "1,Palestine,31.5,34.45,100,2025-01-02,Gaza City Shelter";
   "2,Palestine,31.9,35.2,250,2025-01-03,Ramallah Center";
   "3,Palestine,32.2,35.25,75,2025-01-04,Nablus"].

(** A latitude that is not a number. *)
Definition unknown_latitude_csv : list string :=
  [events_header; events_metadata;
   "1,Palestine,unknown,34.45,100,2025-01-02,Gaza City Shelter";
   "2,Palestine,31.9,35.2,250,2025-01-03,Ramallah Center";
   ""].

(** Figures that are not whole numbers. *)
Definition fractional_csv : list string :=
  [events_header; events_metadata;
   "1,Palestine,31.5,34.45,0.1,2025-01-02,Gaza City Shelter";
   "2,Palestine,31.9,35.2,0.2,2025-01-03,Ramallah Center";
   "3,Palestine,32.2,35.25,0.3,2025-01-04,Nablus";
   ""].

(** A file whose only data row is not in Palestine. *)
Definition no_valid_csv : list string :=
  [events_header; events_metadata;
   "4,Israel,31.25,34.8,50,2025-01-05,Beersheba";
   ""].

Definition event (id country : string) (lat lng figure : float)
    (date name : string) : object :=
  list_to_map
    [("id", VStr id); ("country", VStr country);
     ("latitude", VNum lat); ("longitude", VNum lng); ("figure", VNum figure);
     ("displacement_date", VStr date); ("locations_name", VStr name)].

Definition gaza_event := event "1" "Palestine" 31.5 34.45 100 "2025-01-02" "Gaza City Shelter".
Definition ramallah_event := event "2" "Palestine" 31.9 35.2 250 "2025-01-03" "Ramallah Center".
Definition nablus_event := event "3" "Palestine" 32.2 35.25 75 "2025-01-04" "Nablus".
Definition empty_event := event "3" "Palestine" 31.9 35.2 0 "2025-01-04" "Ramallah Center".
Definition beersheba_event := event "4" "Israel" 31.25 34.8 50 "2025-01-05" "Beersheba".

Lemma events_csv_parsed :
  Events.parse_events Csv.plain_tokenize (Js.join newline events_csv)
  = Ok [gaza_event; ramallah_event; empty_event; beersheba_event].
Proof. by_evaluation. Qed.

Lemma events_csv_answer :
  Events.GET Csv.plain_tokenize (events_file events_csv) =
    ([], {| Events.body :=
              Events.Success_body [gaza_event] [ramallah_event]
                {| Events.total_events := 2;
                   Events.total_displaced := 350;
                   Events.gaza_displaced := 100;
                   Events.west_bank_displaced := 250;
                   Events.gaza_events_count := 1;
                   Events.west_bank_events_count := 1;
                   Events.largest_displacement := 250 |}
                {| north := 31.9; south := 31.5; east := 35.2; west := 34.45 |};
            Events.status := 200 |}).
Proof. by_evaluation. Qed.

Lemma events_file_content lines :
  events_file lines !! events_path = Some (Js.join newline lines).
Proof. apply lookup_singleton_eq. Qed.

Lemma valid_records_and_total_displaced_witness :
  Events.parse_events Csv.plain_tokenize (Js.join newline events_csv)
  = Ok [gaza_event; ramallah_event; empty_event; beersheba_event] /\
  (gaza_event ∈ Events.validRecords [gaza_event; ramallah_event; empty_event; beersheba_event] <->
   gaza_event ∈ [gaza_event; ramallah_event; empty_event; beersheba_event] /\
   truthy (gaza_event !! "latitude") = true /\
   truthy (gaza_event !! "longitude") = true /\
   PrimFloat.ltb PrimFloat.zero (ToNumber (gaza_event !! "figure")) = true /\
   truthy (gaza_event !! "displacement_date") = true /\
   gaza_event !! "country" = Some (VStr "Palestine")) /\
  Events.validRecords [gaza_event; ramallah_event; empty_event; beersheba_event]
  = [gaza_event; ramallah_event] /\
  Forall (fun r : object => is_Some (r !! "locations_name"))
    (Events.validRecords [gaza_event; ramallah_event; empty_event; beersheba_event]) /\
  Events.GET Csv.plain_tokenize (events_file events_csv) =
    ([], {| Events.body :=
              Events.Success_body [gaza_event] [ramallah_event]
                {| Events.total_events := 2;
                   Events.total_displaced := 350;
                   Events.gaza_displaced := 100;
                   Events.west_bank_displaced := 250;
                   Events.gaza_events_count := 1;
                   Events.west_bank_events_count := 1;
                   Events.largest_displacement := 250 |}
                {| north := 31.9; south := 31.5; east := 35.2; west := 34.45 |};
            Events.status := 200 |}) /\
  (exists gaza west summary bounds,
     Events.GET Csv.plain_tokenize (events_file events_csv) =
       ([], {| Events.body := Events.Success_body gaza west summary bounds;
               Events.status := 200 |}) /\
     Events.total_events summary
     = length (Events.validRecords
                 [gaza_event; ramallah_event; empty_event; beersheba_event]) /\
     Events.total_displaced summary =
       fold_left (fun sum record => PrimFloat.add sum (ToNumber (record !! "figure")))
         (Events.validRecords [gaza_event; ramallah_event; empty_event; beersheba_event])
         PrimFloat.zero) /\
  (2 = length (Events.validRecords
                 [gaza_event; ramallah_event; empty_event; beersheba_event]))%nat /\
  350%float =
    fold_left (fun sum record => PrimFloat.add sum (ToNumber (record !! "figure")))
      (Events.validRecords [gaza_event; ramallah_event; empty_event; beersheba_event])
      PrimFloat.zero.
Proof.
  destruct (valid_records_and_total_displaced Csv.plain_tokenize
              (events_file events_csv) (Js.join newline events_csv) _
              (events_file_content events_csv) events_csv_parsed)
    as (Hvalid & Hanswer & Htotal).
  assert (Hkept : Events.validRecords
                    [gaza_event; ramallah_event; empty_event; beersheba_event]
                  = [gaza_event; ramallah_event]) by by_evaluation.
  assert (Hnamed : Forall (fun r : object => is_Some (r !! "locations_name"))
                     (Events.validRecords
                        [gaza_event; ramallah_event; empty_event; beersheba_event])).
  { rewrite Hkept. repeat constructor; by eexists. }
  split; [exact events_csv_parsed|]. split; [exact (Hvalid gaza_event)|].
  split; [exact Hkept|]. split; [exact Hnamed|]. split; [exact events_csv_answer|].
  split; [exact (Hanswer Hnamed)|]. exact (Htotal _ _ _ _ _ _ events_csv_answer).
Defined.

Lemma events_metadata_line_is_removed_witness :
  Forall (free_of "010") three_rows_csv /\
  Csv.plain_tokenize
    (Js.join newline (events_header :: drop 2 three_rows_csv))
  = Csv.Scan (map (Js.split ",") (events_header :: drop 2 three_rows_csv)) None /\
  Forall (fun fields => length fields = length (Js.split "," events_header))
    (map (Js.split ",") (drop 2 three_rows_csv)) /\
  exists records,
    Events.parse_events Csv.plain_tokenize (Js.join newline three_rows_csv) = Ok records /\
    length records = 3%nat.
Proof.
  assert (Hfree : Forall (free_of "010") three_rows_csv).
  { unfold three_rows_csv. repeat constructor; discriminate. }
  assert (Htok : Csv.plain_tokenize
                   (Js.join newline (events_header :: drop 2 three_rows_csv))
                 = Csv.Scan (map (Js.split ",") (events_header :: drop 2 three_rows_csv)) None)
    by by_evaluation.
  assert (Hrect : Forall (fun fields => length fields = length (Js.split "," events_header))
                    (map (Js.split ",") (drop 2 three_rows_csv)))
    by (repeat constructor).
  split; [exact Hfree|]. split; [exact Htok|]. split; [exact Hrect|].
  destruct (events_metadata_line_is_removed Csv.plain_tokenize) as (_ & _ & Hthree).
  exact (Hthree events_header events_metadata _ _ _ _ _ _ _ Hfree Htok Hrect).
Defined.

Definition unknown_latitude_event :=
  event "1" "Palestine" 0 34.45 100 "2025-01-02" "Gaza City Shelter".

Lemma unknown_latitude_csv_parsed :
  Events.parse_events Csv.plain_tokenize (Js.join newline unknown_latitude_csv)
  = Ok [unknown_latitude_event; ramallah_event].
Proof. by_evaluation. Qed.

Lemma unknown_latitude_csv_answer :
  Events.GET Csv.plain_tokenize (events_file unknown_latitude_csv) =
    ([], {| Events.body :=
              Events.Success_body [] [ramallah_event]
                {| Events.total_events := 1;
                   Events.total_displaced := 250;
                   Events.gaza_displaced := 0;
                   Events.west_bank_displaced := 250;
                   Events.gaza_events_count := 0;
                   Events.west_bank_events_count := 1;
                   Events.largest_displacement := 250 |}
                {| north := 31.9; south := 31.9; east := 35.2; west := 35.2 |};
            Events.status := 200 |}).
Proof. by_evaluation. Qed.

Lemma events_unparseable_number_is_zero_witness :
  Js.isNaN (Js.parseFloat "unknown") = true /\
  Events.parse_events Csv.plain_tokenize (Js.join newline unknown_latitude_csv)
  = Ok [unknown_latitude_event; ramallah_event] /\
  Events.GET Csv.plain_tokenize (events_file unknown_latitude_csv) =
    ([], {| Events.body :=
              Events.Success_body [] [ramallah_event]
                {| Events.total_events := 1;
                   Events.total_displaced := 250;
                   Events.gaza_displaced := 0;
                   Events.west_bank_displaced := 250;
                   Events.gaza_events_count := 0;
                   Events.west_bank_events_count := 1;
                   Events.largest_displacement := 250 |}
                {| north := 31.9; south := 31.9; east := 35.2; west := 35.2 |};
            Events.status := 200 |}) /\
  (exists gaza west summary bounds,
     Events.GET Csv.plain_tokenize (events_file unknown_latitude_csv) =
       ([], {| Events.body := Events.Success_body gaza west summary bounds;
               Events.status := 200 |}) /\
     Events.total_events summary
     = length (Events.validRecords [unknown_latitude_event; ramallah_event])) /\
  unknown_latitude_event !! "latitude" = Some (VNum PrimFloat.zero) /\
  Events.is_valid unknown_latitude_event = false /\
  unknown_latitude_event ∉ Events.validRecords [unknown_latitude_event; ramallah_event].
Proof.
  destruct (events_unparseable_number_is_zero Csv.plain_tokenize) as (_ & _ & _ & Hload).
  destruct (Hload (Js.join newline unknown_latitude_csv)
              (Js.split "," events_header)
              (map (Js.split ",")
                 ["1,Palestine,unknown,34.45,100,2025-01-02,Gaza City Shelter";
                  "2,Palestine,31.9,35.2,250,2025-01-03,Ramallah Center"]))
    as (records & Hparse & _ & Hanswer & Hcells);
    [by_evaluation | by_evaluation | repeat constructor |].
  rewrite unknown_latitude_csv_parsed in Hparse.
  assert ([unknown_latitude_event; ramallah_event] = records) by congruence. subst records.
  assert (Hnan : Js.isNaN (Js.parseFloat "unknown") = true) by by_evaluation.
  assert (Hkept : Events.validRecords [unknown_latitude_event; ramallah_event]
                  = [ramallah_event]) by by_evaluation.
  assert (Hnamed : Forall (fun r : object => is_Some (r !! "locations_name"))
                     (Events.validRecords [unknown_latitude_event; ramallah_event])).
  { rewrite Hkept. repeat constructor; by eexists. }
  split; [exact Hnan|]. split; [exact unknown_latitude_csv_parsed|].
  split; [exact unknown_latitude_csv_answer|].
  split; [exact (Hanswer _ (events_file_content unknown_latitude_csv) Hnamed)|].
  apply (Hcells 0%nat _ unknown_latitude_event 2%nat "latitude" "unknown"
           eq_refl eq_refl eq_refl eq_refl); [| |exact Hnan].
  - intros j' Hlt Hj'.
    assert (Hnodup : NoDup (Js.split "," events_header))
      by (apply (bool_decide_unpack (NoDup _)); vm_compute; exact I).
    assert (2%nat = j') by (by apply (NoDup_lookup _ _ _ "latitude" Hnodup)). lia.
  - apply list_elem_of_In. simpl. tauto.
Defined.

Definition tenth_event := event "1" "Palestine" 31.5 34.45 0.1 "2025-01-02" "Gaza City Shelter".
Definition fifth_event := event "2" "Palestine" 31.9 35.2 0.2 "2025-01-03" "Ramallah Center".
Definition third_event := event "3" "Palestine" 32.2 35.25 0.3 "2025-01-04" "Nablus".

(** C6, as stated, fails.  With the figures 0.1 (Gaza) and 0.2, 0.3 (West
    Bank) the answer is a success, [total_displaced] is
    [((0 + 0.1) + 0.2) + 0.3 = 0.6000000000000001] and [gaza_displaced +
    west_bank_displaced] is [0.1 + 0.5 = 0.6]: the two differ. *)
Lemma displaced_sums_can_differ :
  exists summary bounds,
    Events.GET Csv.plain_tokenize (events_file fractional_csv) =
      ([], {| Events.body :=
                Events.Success_body [tenth_event] [fifth_event; third_event] summary bounds;
              Events.status := 200 |}) /\
    Events.total_displaced summary = 0.6000000000000001%float /\
    Events.gaza_displaced summary = 0.1%float /\
    Events.west_bank_displaced summary = 0.5%float /\
    (Events.gaza_displaced summary + Events.west_bank_displaced summary)%float = 0.6%float /\
    PrimFloat.eqb
      (Events.gaza_displaced summary + Events.west_bank_displaced summary)%float
      (Events.total_displaced summary) = false /\
    (Events.gaza_displaced summary + Events.west_bank_displaced summary)%float
    <> Events.total_displaced summary.
Proof.
  exists {| Events.total_events := 3;
            Events.total_displaced := 0.6000000000000001;
            Events.gaza_displaced := 0.1;
            Events.west_bank_displaced := 0.5;
            Events.gaza_events_count := 1;
            Events.west_bank_events_count := 2;
            Events.largest_displacement := 0.3 |},
         {| north := 32.2; south := 31.5; east := 35.25; west := 34.45 |}.
  split; [by_evaluation|]. cbn [Events.total_displaced Events.gaza_displaced
                                 Events.west_bank_displaced].
  repeat split; try by_evaluation.
  intros Heq.
  assert (Hne : PrimFloat.eqb (0.1 + 0.5)%float 0.6000000000000001%float = false)
    by by_evaluation.
  rewrite Heq in Hne. discriminate.
Qed.

Lemma gaza_and_west_bank_partition_witness :
  Events.GET Csv.plain_tokenize (events_file events_csv) =
    ([], {| Events.body :=
              Events.Success_body [gaza_event] [ramallah_event]
                {| Events.total_events := 2;
                   Events.total_displaced := 350;
                   Events.gaza_displaced := 100;
                   Events.west_bank_displaced := 250;
                   Events.gaza_events_count := 1;
                   Events.west_bank_events_count := 1;
                   Events.largest_displacement := 250 |}
                {| north := 31.9; south := 31.5; east := 35.2; west := 34.45 |};
            Events.status := 200 |}) /\
  Forall2 whole [100; 250]%float [100; 250] /\
  100 + 250 < 2 ^ 53 /\
  (1 + 1 = 2)%nat /\
  (100 + 250 = 350)%float.
Proof.
  destruct (gaza_and_west_bank_partition Csv.plain_tokenize _ _ _ _ _ _ _ events_csv_answer)
    as (content & records & Hfile & Hparse & _ & _ & Hcount & _ & Hsum).
  rewrite events_file_content in Hfile.
  assert (Js.join newline events_csv = content) by congruence. subst content.
  rewrite events_csv_parsed in Hparse.
  assert ([gaza_event; ramallah_event; empty_event; beersheba_event] = records)
    by congruence. subst records.
  assert (Hwhole : Forall2 whole [100; 250]%float [100; 250]).
  { repeat constructor; unfold whole; by_evaluation. }
  split; [exact events_csv_answer|]. split; [exact Hwhole|]. split; [lia|].
  split; [exact Hcount|]. apply (Hsum [100; 250] Hwhole). simpl. lia.
Defined.

(** C3, at the failing input.  For a file with no valid record the
    handler answers with a success whose bounds are not the default box
    of [calculateBounds] but minus infinity for north and east and plus
    infinity for south and west (which [JSON.stringify] then writes as
    [null]); [largest_displacement] is minus infinity likewise. *)
Theorem GET_bounds_of_no_valid_record_are_infinite :
  Events.parse_events Csv.plain_tokenize (Js.join newline no_valid_csv)
  = Ok [beersheba_event] /\
  Events.validRecords [beersheba_event] = [] /\
  Loader.calculateBounds [] = Loader.default_bounds /\
  Events.GET Csv.plain_tokenize (events_file no_valid_csv) =
    ([], {| Events.body :=
              Events.Success_body [] []
                {| Events.total_events := 0;
                   Events.total_displaced := 0;
                   Events.gaza_displaced := 0;
                   Events.west_bank_displaced := 0;
                   Events.gaza_events_count := 0;
                   Events.west_bank_events_count := 0;
                   Events.largest_displacement := neg_infinity |}
                {| north := neg_infinity; south := infinity;
                   east := neg_infinity; west := infinity |};
            Events.status := 200 |}).
Proof. repeat split; by_evaluation. Qed.

(** * Further properties *)

(** ** [getUniqueLocations] as a selection *)

Section FirstSeen.

(** The records that open a key not among [seen], in order. *)
Fixpoint first_seen (seen : list string) (records : list GeographicData)
    : list GeographicData :=
  match records with
  | [] => []
  | record :: rest =>
      if bool_decide (Loader.location_key record ∈ seen)
      then first_seen seen rest
      else record :: first_seen (seen ++ [Loader.location_key record]) rest
  end.

Lemma Map_has_keys {V} (m : list (string * V)) key :
  Loader.Map_has m key = bool_decide (key ∈ map fst m).
Proof.
  destruct (Loader.Map_has m key) eqn:H; symmetry.
  - apply bool_decide_eq_true. apply Map_has_true in H as [v Hv].
    apply list_elem_of_fmap. by exists (key, v).
  - apply bool_decide_eq_false. intros Hin.
    apply list_elem_of_fmap in Hin as ([k v] & Hk & Hin). simpl in Hk. subst k.
    assert (Loader.Map_has m key = true) by (apply Map_has_true; eauto). congruence.
Qed.

Lemma fold_add_location_first_seen records : forall m,
  fold_left add_location records m =
    (m ++ map (fun r => (Loader.location_key r, r)) (first_seen (map fst m) records))%list.
Proof.
  induction records as [|record rest IH]; intros m; simpl; [by rewrite app_nil_r|].
  rewrite IH. unfold add_location. rewrite Map_has_keys.
  destruct (bool_decide (Loader.location_key record ∈ map fst m)) eqn:Hseen; simpl.
  - reflexivity.
  - unfold Loader.Map_set. rewrite Map_has_keys, Hseen, copy_record.
    rewrite map_app, <- app_assoc. reflexivity.
Qed.

Lemma getUniqueLocations_first_seen records :
  Loader.getUniqueLocations records = first_seen [] records.
Proof.
  rewrite getUniqueLocations_fold, fold_add_location_first_seen. simpl.
  rewrite map_map. simpl. apply map_id.
Qed.

Lemma first_seen_sublist records : forall seen,
  first_seen seen records `sublist_of` records.
Proof.
  induction records as [|record rest IH]; intros seen; simpl; [constructor|].
  destruct (bool_decide _); [by apply sublist_cons | by apply sublist_skip].
Qed.

Lemma first_seen_again records : forall seen,
  first_seen seen (first_seen seen records) = first_seen seen records.
Proof.
  induction records as [|record rest IH]; intros seen; simpl; [reflexivity|].
  destruct (bool_decide (Loader.location_key record ∈ seen)) eqn:Hseen; [apply IH|].
  simpl. rewrite Hseen. f_equal. apply IH.
Qed.

Lemma first_seen_all records : forall seen,
  first_seen seen records = records <->
  NoDup (map Loader.location_key records) /\
  Forall (fun r => Loader.location_key r ∉ seen) records.
Proof.
  induction records as [|record rest IH]; intros seen; simpl.
  - split; [intros _; split; constructor | reflexivity].
  - destruct (bool_decide (Loader.location_key record ∈ seen)) eqn:Hseen.
    + apply bool_decide_eq_true in Hseen. split.
      * intros H. pose proof (sublist_length _ _ (first_seen_sublist rest seen)) as Hlen.
        rewrite H in Hlen. simpl in Hlen. exfalso. lia.
      * intros [_ H]. apply Forall_cons in H as [H _]. contradiction.
    + apply bool_decide_eq_false in Hseen. split.
      * intros [= H]. apply IH in H as [Hnodup Hall]. split.
        -- constructor; [|exact Hnodup]. intros Hin.
           apply list_elem_of_fmap in Hin as (r & Hkey & Hin).
           rewrite Forall_forall in Hall. apply (Hall r Hin).
           rewrite <- Hkey. apply elem_of_app. right. by apply list_elem_of_singleton.
        -- constructor; [exact Hseen|]. eapply Forall_impl; [exact Hall|].
           intros r Hr Hin. apply Hr. apply elem_of_app. by left.
      * intros [Hnodup Hall]. apply NoDup_cons in Hnodup as [Hnew Hnodup].
        apply Forall_cons in Hall as [_ Hall]. f_equal. apply IH. split; [exact Hnodup|].
        rewrite Forall_forall in Hall |- *. intros r Hin Hk.
        apply elem_of_app in Hk as [Hk|Hk]; [exact (Hall r Hin Hk)|].
        apply list_elem_of_singleton in Hk. apply Hnew. rewrite <- Hk.
        apply list_elem_of_fmap. by exists r.
Qed.

End FirstSeen.



(** ** [calculateBounds]: [NaN], order of the records, shape of the box *)

Section ExtremesMore.

(** A numbering that also tells the two zeros apart, [-0] just below
    [+0], as [Math.max] and [Math.min] order them. *)
Definition position (f : spec_float) : Z :=
  match f with
  | S754_zero false => 1
  | S754_zero true => 0
  | _ => 2 * rank f
  end.

Local Abbreviation pos x := (position (Prim2SF x)).

Lemma position_inj f g :
  valid_binary f = true -> valid_binary g = true ->
  f <> S754_nan -> g <> S754_nan ->
  position f = position g -> f = g.
Proof.
  intros Vf Vg Nf Ng.
  destruct f as [sf|sf| |sf mf ef]; [| |congruence|];
  destruct g as [sg|sg| |sg mg eg]; try congruence;
  try (apply valid_finite in Vf as (Hef & Hmf & _));
  try (apply valid_finite in Vg as (Heg & Hmg & _));
  unfold position, rank, cond_Zopp;
  repeat match goal with s : bool |- _ => destruct s end;
  intros H; try reflexivity; try (exfalso; lia).
  - assert (ef = eg) by lia. subst eg. assert (mf = mg) by lia. by subst mg.
  - assert (ef = eg) by lia. subst eg. assert (mf = mg) by lia. by subst mg.
Qed.

Lemma position_rank f g :
  valid_binary f = true -> valid_binary g = true ->
  f <> S754_nan -> g <> S754_nan ->
  rank f < rank g -> position f < position g.
Proof.
  intros Vf Vg Nf Ng.
  destruct f as [sf|sf| |sf mf ef]; [| |congruence|];
  destruct g as [sg|sg| |sg mg eg]; try congruence;
  try (apply valid_finite in Vf as (Hef & Hmf & _));
  try (apply valid_finite in Vg as (Heg & Hmg & _));
  unfold position, rank, cond_Zopp;
  repeat match goal with s : bool |- _ => destruct s end;
  intros H; lia.
Qed.

Lemma position_rank_le x y :
  Js.isNaN x = false -> Js.isNaN y = false ->
  rank (Prim2SF x) <= rank (Prim2SF y) ->
  PrimFloat.Leibniz.eqb x PrimFloat.zero && PrimFloat.Leibniz.eqb y neg_zero = false ->
  pos x <= pos y.
Proof.
  intros Hx Hy Hle Hzero.
  destruct (Z.eq_dec (rank (Prim2SF x)) (rank (Prim2SF y))) as [Heq|Hne].
  - pose proof (Prim2SF_valid x) as Vx. pose proof (Prim2SF_valid y) as Vy.
    apply Prim2SF_not_nan in Hx, Hy.
    destruct (Prim2SF x) as [sx|sx| |sx mx ex] eqn:Ex; [| |congruence|];
    destruct (Prim2SF y) as [sy|sy| |sy my ey] eqn:Ey; try congruence;
    try (apply valid_finite in Vx as (Hex & Hmx & _));
    try (apply valid_finite in Vy as (Hey & Hmy & _));
    unfold position, rank, cond_Zopp in *;
    repeat match goal with s : bool |- _ => destruct s end; try lia.
    (* [x] is [+0] and [y] is [-0] *)
    assert (x = PrimFloat.zero) as -> by (by apply Prim2SF_inj).
    assert (y = neg_zero) as -> by (by apply Prim2SF_inj).
    discriminate.
  - assert (pos x < pos y); [|lia].
    apply position_rank; auto using Prim2SF_valid, Prim2SF_not_nan. lia.
Qed.

Lemma max_from_position xs : forall highest,
  Js.isNaN highest = false -> Forall (fun x => Js.isNaN x = false) xs ->
  let r := Js.max_from highest xs in
  Js.isNaN r = false /\ (r = highest \/ r ∈ xs) /\
  pos highest <= pos r /\ Forall (fun x => pos x <= pos r) xs.
Proof.
  induction xs as [|x rest IH]; intros highest Hh Hxs; simpl.
  - repeat split; [exact Hh | by left | lia | constructor].
  - apply Forall_cons in Hxs as [Hx Hrest]. rewrite Hx.
    destruct (PrimFloat.Leibniz.eqb x PrimFloat.zero
              && PrimFloat.Leibniz.eqb highest neg_zero) eqn:Hzero.
    + apply andb_true_iff in Hzero as [H1 H2].
      apply FloatAxioms.Leibniz.eqb_spec in H1, H2. subst x highest.
      destruct (IH PrimFloat.zero Hx Hrest) as (Hr & Hin & Hle & Hall).
      repeat split; [exact Hr | | | constructor; assumption].
      * destruct Hin as [->|Hin]; right; [by left | by right].
      * change (pos neg_zero) with 0. change (pos PrimFloat.zero) with 1 in Hle. lia.
    + destruct (PrimFloat.ltb highest x) eqn:Hlt.
      * rewrite ltb_rank in Hlt by assumption. apply Z.ltb_lt in Hlt.
        apply position_rank in Hlt; auto using Prim2SF_valid, Prim2SF_not_nan.
        destruct (IH x Hx Hrest) as (Hr & Hin & Hle & Hall).
        repeat split; [exact Hr | | lia | constructor; assumption].
        destruct Hin as [->|Hin]; right; [by left | by right].
      * rewrite ltb_rank in Hlt by assumption. apply Z.ltb_ge in Hlt.
        pose proof (position_rank_le x highest Hx Hh Hlt Hzero).
        destruct (IH highest Hh Hrest) as (Hr & Hin & Hle & Hall).
        repeat split; [exact Hr | | exact Hle | constructor; [lia | assumption]].
        destruct Hin as [->|Hin]; [by left | right; by right].
Qed.

Lemma min_from_position xs : forall lowest,
  Js.isNaN lowest = false -> Forall (fun x => Js.isNaN x = false) xs ->
  let r := Js.min_from lowest xs in
  Js.isNaN r = false /\ (r = lowest \/ r ∈ xs) /\
  pos r <= pos lowest /\ Forall (fun x => pos r <= pos x) xs.
Proof.
  induction xs as [|x rest IH]; intros lowest Hl Hxs; simpl.
  - repeat split; [exact Hl | by left | lia | constructor].
  - apply Forall_cons in Hxs as [Hx Hrest]. rewrite Hx.
    destruct (PrimFloat.Leibniz.eqb x neg_zero
              && PrimFloat.Leibniz.eqb lowest PrimFloat.zero) eqn:Hzero.
    + apply andb_true_iff in Hzero as [H1 H2].
      apply FloatAxioms.Leibniz.eqb_spec in H1, H2. subst x lowest.
      destruct (IH neg_zero Hx Hrest) as (Hr & Hin & Hle & Hall).
      repeat split; [exact Hr | | | constructor; assumption].
      * destruct Hin as [->|Hin]; right; [by left | by right].
      * change (pos neg_zero) with 0 in Hle. change (pos PrimFloat.zero) with 1. lia.
    + destruct (PrimFloat.ltb x lowest) eqn:Hlt.
      * rewrite ltb_rank in Hlt by assumption. apply Z.ltb_lt in Hlt.
        apply position_rank in Hlt; auto using Prim2SF_valid, Prim2SF_not_nan.
        destruct (IH x Hx Hrest) as (Hr & Hin & Hle & Hall).
        repeat split; [exact Hr | | lia | constructor; assumption].
        destruct Hin as [->|Hin]; right; [by left | by right].
      * rewrite ltb_rank in Hlt by assumption. apply Z.ltb_ge in Hlt.
        rewrite andb_comm in Hzero.
        pose proof (position_rank_le lowest x Hl Hx Hlt Hzero).
        destruct (IH lowest Hl Hrest) as (Hr & Hin & Hle & Hall).
        repeat split; [exact Hr | | exact Hle | constructor; [lia | assumption]].
        destruct Hin as [->|Hin]; [by left | right; by right].
Qed.

Lemma NaN_or_not (xs : list float) :
  Forall (fun x => Js.isNaN x = false) xs \/ Exists (fun x => Js.isNaN x = true) xs.
Proof.
  induction xs as [|x rest [IH|IH]]; [by left | |right; by right].
  destruct (Js.isNaN x) eqn:Hx; [right; by left | left; by constructor].
Qed.

Lemma pos_inj x y :
  Js.isNaN x = false -> Js.isNaN y = false -> pos x = pos y -> x = y.
Proof.
  intros Hx Hy H. apply Prim2SF_inj.
  apply position_inj; auto using Prim2SF_valid, Prim2SF_not_nan.
Qed.

(** [Math.max] and [Math.min] do not depend on the order of their
    arguments. *)
Lemma Math_max_Permutation xs ys : xs ≡ₚ ys -> Js.Math_max xs = Js.Math_max ys.
Proof.
  intros Hp. unfold Js.Math_max. destruct (NaN_or_not xs) as [Hxs|Hxs].
  - assert (Hys : Forall (fun x => Js.isNaN x = false) ys) by (by rewrite <- Hp).
    destruct (max_from_position xs neg_infinity eq_refl Hxs) as (Hr & Hin & Hle & Hall).
    destruct (max_from_position ys neg_infinity eq_refl Hys) as (Hr' & Hin' & Hle' & Hall').
    rewrite Forall_forall in Hall, Hall'. apply pos_inj; [assumption..|].
    apply Z.le_antisymm.
    + destruct Hin as [->|Hin]; [exact Hle'|]. apply Hall'. by rewrite <- Hp.
    + destruct Hin' as [->|Hin']; [exact Hle|]. apply Hall. by rewrite Hp.
  - assert (Hys : Exists (fun x => Js.isNaN x = true) ys) by (by rewrite <- Hp).
    by rewrite !max_from_NaN.
Qed.

Lemma Math_min_Permutation xs ys : xs ≡ₚ ys -> Js.Math_min xs = Js.Math_min ys.
Proof.
  intros Hp. unfold Js.Math_min. destruct (NaN_or_not xs) as [Hxs|Hxs].
  - assert (Hys : Forall (fun x => Js.isNaN x = false) ys) by (by rewrite <- Hp).
    destruct (min_from_position xs infinity eq_refl Hxs) as (Hr & Hin & Hle & Hall).
    destruct (min_from_position ys infinity eq_refl Hys) as (Hr' & Hin' & Hle' & Hall').
    rewrite Forall_forall in Hall, Hall'. apply pos_inj; [assumption..|].
    apply Z.le_antisymm.
    + destruct Hin' as [->|Hin']; [exact Hle|]. apply Hall. by rewrite Hp.
    + destruct Hin as [->|Hin]; [exact Hle'|]. apply Hall'. by rewrite <- Hp.
  - assert (Hys : Exists (fun x => Js.isNaN x = true) ys) by (by rewrite <- Hp).
    by rewrite !min_from_NaN.
Qed.

End ExtremesMore.

(** X2.  The bounds do not depend on the order of the records, whatever
    the coordinates are ([NaN] and the two zeros included). *)
Theorem calculateBounds_order_independent records records' :
  records ≡ₚ records' ->
  Loader.calculateBounds records = Loader.calculateBounds records'.
Proof.
  intros Hp. unfold Loader.calculateBounds. rewrite <- (Permutation_length Hp).
  destruct (length records =? 0)%nat; [reflexivity|].
  assert (Hlat : map latitude records ≡ₚ map latitude records') by (by apply fmap_Permutation).
  assert (Hlng : map longitude records ≡ₚ map longitude records') by (by apply fmap_Permutation).
  by rewrite (Math_max_Permutation _ _ Hlat), (Math_min_Permutation _ _ Hlat),
    (Math_max_Permutation _ _ Hlng), (Math_min_Permutation _ _ Hlng).
Qed.

(** X3.  One record whose latitude is [NaN] makes [north] and [south] [NaN],
    and likewise a [NaN] longitude [east] and [west], whatever the other
    records hold. *)
Theorem calculateBounds_NaN_spreads records record :
  record ∈ records ->
  (Js.isNaN (latitude record) = true ->
   north (Loader.calculateBounds records) = nan /\
   south (Loader.calculateBounds records) = nan) /\
  (Js.isNaN (longitude record) = true ->
   east (Loader.calculateBounds records) = nan /\
   west (Loader.calculateBounds records) = nan).
Proof.
  intros Hin. unfold Loader.calculateBounds.
  destruct records as [|r0 rest]; [by apply elem_of_nil in Hin|].
  cbn [length Nat.eqb north south east west]. set (records := r0 :: rest) in *.
  unfold Js.Math_max, Js.Math_min.
  split; intros Hnan; split; (apply max_from_NaN || apply min_from_NaN);
    apply Exists_exists; eexists; (split; [|exact Hnan]);
    apply list_elem_of_fmap; by exists record.
Qed.

(** X4.  When no coordinate is [NaN] the box is never inside out: [south] is
    at most [north] and [west] at most [east], for no record (the default
    box) as for any number of them. *)
Theorem calculateBounds_is_a_box records :
  Forall (fun r => Js.isNaN (latitude r) = false /\ Js.isNaN (longitude r) = false)
    records ->
  let b := Loader.calculateBounds records in
  PrimFloat.leb (south b) (north b) = true /\ PrimFloat.leb (west b) (east b) = true.
Proof.
  intros Hnan b. subst b. unfold Loader.calculateBounds.
  destruct records as [|r0 rest]; [by split|].
  cbn [length Nat.eqb north south east west]. set (records := r0 :: rest) in *.
  assert (Hlat : Forall (fun x => Js.isNaN x = false) (map latitude records))
    by (apply Forall_fmap; eapply Forall_impl; [exact Hnan | by intros ? [? ?]]).
  assert (Hlng : Forall (fun x => Js.isNaN x = false) (map longitude records))
    by (apply Forall_fmap; eapply Forall_impl; [exact Hnan | by intros ? [? ?]]).
  assert (Hlats : map latitude records <> []) by discriminate.
  assert (Hlngs : map longitude records <> []) by discriminate.
  destruct (Math_max_greatest _ Hlats Hlat) as [_ Hn].
  destruct (Math_min_least _ Hlats Hlat) as [Hs _].
  destruct (Math_max_greatest _ Hlngs Hlng) as [_ He].
  destruct (Math_min_least _ Hlngs Hlng) as [Hw _].
  rewrite Forall_forall in Hn, He. split; [by apply Hn | by apply He].
Qed.

(** ** [validateCoordinates]: the box in exact terms *)

Section Box.

(** Of two floats with different exponents the one with the greater
    exponent is the greater number. *)
Lemma canonical_lt m e m' e' :
  -1074 <= e -> Zpos m < 9007199254740992 ->
  (e' = -1074 \/ 4503599627370496 <= Zpos m') ->
  e < e' -> Zpos m * 2 ^ (e + 1074) < Zpos m' * 2 ^ (e' + 1074).
Proof.
  intros He Hm Hm' Hlt.
  replace (e' + 1074) with ((e' - e) + (e + 1074)) by lia.
  rewrite (Z.pow_add_r 2 (e' - e) (e + 1074)), Z.mul_assoc by lia.
  apply Z.mul_lt_mono_pos_r; [apply Z.pow_pos_nonneg; lia|].
  assert (2 ^ 1 <= 2 ^ (e' - e)) by (apply Z.pow_le_mono_r; lia).
  change (2 ^ 1) with 2 in *. nia.
Qed.

Lemma canonical_le m e m' e' :
  -1074 <= e <= 971 -> Zpos m < 9007199254740992 ->
  (e = -1074 \/ 4503599627370496 <= Zpos m) ->
  -1074 <= e' <= 971 -> Zpos m' < 9007199254740992 ->
  (e' = -1074 \/ 4503599627370496 <= Zpos m') ->
  ((e + 1075) * 9007199254740992 + Zpos m <= (e' + 1075) * 9007199254740992 + Zpos m'
   <-> Zpos m * 2 ^ (e + 1074) <= Zpos m' * 2 ^ (e' + 1074)).
Proof.
  intros He Hm Hn He' Hm' Hn'.
  destruct (Z.lt_trichotomy e e') as [Hlt | [-> | Hgt]].
  - pose proof (canonical_lt m e m' e'). split; intros _; lia.
  - assert (0 < 2 ^ (e' + 1074)) by (apply Z.pow_pos_nonneg; lia). split; intros H'; nia.
  - pose proof (canonical_lt m' e' m e). split; intros H'; exfalso; lia.
Qed.

(** The order of two finite floats is the order of their values. *)
Lemma rank_scaled x y a b :
  scaled x = Some a -> scaled y = Some b ->
  (rank (Prim2SF x) <= rank (Prim2SF y) <-> a <= b).
Proof.
  unfold scaled. pose proof (Prim2SF_valid x) as Vx. pose proof (Prim2SF_valid y) as Vy.
  destruct (Prim2SF x) as [sx| | |sx mx ex]; try discriminate;
  destruct (Prim2SF y) as [sy| | |sy my ey]; try discriminate;
  intros [= <-] [= <-];
  try (pose proof (valid_finite _ _ _ Vx) as (Hex & Hmx & Hnx);
       assert (0 < 2 ^ (ex + 1074)) by (apply Z.pow_pos_nonneg; lia));
  try (pose proof (valid_finite _ _ _ Vy) as (Hey & Hmy & Hny);
       assert (0 < 2 ^ (ey + 1074)) by (apply Z.pow_pos_nonneg; lia));
  unfold rank, cond_Zopp.
  - tauto.
  - destruct sy; split; intros; nia.
  - destruct sx; split; intros; nia.
  - pose proof (canonical_le mx ex my ey Hex Hmx Hnx Hey Hmy Hny).
    pose proof (canonical_le my ey mx ex Hey Hmy Hny Hex Hmx Hnx).
    destruct sx, sy; split; intros; first [nia | tauto].
Qed.

Lemma leb_not_nan x y :
  PrimFloat.leb x y = true -> Js.isNaN x = false /\ Js.isNaN y = false.
Proof.
  rewrite leb_spec. unfold Js.isNaN. intros H.
  destruct (PrimFloat.is_nan x) eqn:Hx.
  { rewrite (Prim2SF_nan _ Hx) in H. discriminate. }
  destruct (PrimFloat.is_nan y) eqn:Hy; [|by split].
  rewrite (Prim2SF_nan _ Hy) in H. unfold SFleb, SFcompare in H.
  by destruct (Prim2SF x).
Qed.

(** A float between two finite floats is finite, and its value is
    between theirs; and conversely. *)
Lemma between_scaled lo hi x l h :
  scaled lo = Some l -> scaled hi = Some h ->
  (PrimFloat.leb lo x && PrimFloat.leb x hi = true <->
   exists a, scaled x = Some a /\ l <= a <= h).
Proof.
  intros Hlo Hhi. rewrite andb_true_iff. split.
  - intros [H1 H2].
    destruct (leb_not_nan _ _ H1) as [Nlo Nx]. destruct (leb_not_nan _ _ H2) as [_ Nhi].
    rewrite leb_rank in H1, H2 by assumption. apply Z.leb_le in H1, H2.
    destruct (scaled x) as [a|] eqn:Hx.
    + exists a. split; [reflexivity|].
      apply (rank_scaled _ _ _ _ Hlo Hx) in H1. apply (rank_scaled _ _ _ _ Hx Hhi) in H2. lia.
    + exfalso. unfold scaled in Hx, Hlo, Hhi.
      pose proof (Prim2SF_valid lo) as Vlo. pose proof (Prim2SF_valid hi) as Vhi.
      apply Prim2SF_not_nan in Nx.
      destruct (Prim2SF x) as [| s | |]; try discriminate; [|congruence].
      destruct (Prim2SF lo) as [|?| |sl ml el]; try discriminate;
      destruct (Prim2SF hi) as [|?| |sh mh eh]; try discriminate;
      try (apply valid_finite in Vlo as (? & ? & _));
      try (apply valid_finite in Vhi as (? & ? & _));
      unfold rank, cond_Zopp in H1, H2;
      repeat match goal with s : bool |- _ => destruct s end; lia.
  - intros (a & Hx & Hl & Hh).
    assert (Nx : Js.isNaN x = false).
    { unfold Js.isNaN. destruct (PrimFloat.is_nan x) eqn:E; [|reflexivity].
      unfold scaled in Hx. by rewrite (Prim2SF_nan _ E) in Hx. }
    assert (Nlo : Js.isNaN lo = false).
    { unfold Js.isNaN. destruct (PrimFloat.is_nan lo) eqn:E; [|reflexivity].
      unfold scaled in Hlo. by rewrite (Prim2SF_nan _ E) in Hlo. }
    assert (Nhi : Js.isNaN hi = false).
    { unfold Js.isNaN. destruct (PrimFloat.is_nan hi) eqn:E; [|reflexivity].
      unfold scaled in Hhi. by rewrite (Prim2SF_nan _ E) in Hhi. }
    rewrite !leb_rank by assumption. split; apply Z.leb_le.
    + by apply (rank_scaled _ _ _ _ Hlo Hx).
    + by apply (rank_scaled _ _ _ _ Hx Hhi).
Qed.

End Box.

(** X9.  [validateCoordinates] accepts exactly the pairs of finite numbers
    whose values lie in the closed box from 31 to 32 degrees of latitude
    and from 34 to 35 degrees of longitude, the edges included; [NaN]
    (so also a missing coordinate) and the infinities are refused.
    [scaled] is the value in units of [2^-1074]. *)
Theorem validateCoordinates_closed_box lat lng :
  Loader.validateCoordinates lat lng = true <->
  exists a b,
    scaled lat = Some a /\ scaled lng = Some b /\
    31 * 2 ^ 1074 <= a <= 32 * 2 ^ 1074 /\
    34 * 2 ^ 1074 <= b <= 35 * 2 ^ 1074.
Proof.
  unfold Loader.validateCoordinates. rewrite <- andb_assoc, andb_true_iff.
  assert (H31 : scaled 31 = Some (31 * 2 ^ 1074)) by (vm_compute; reflexivity).
  assert (H32 : scaled 32 = Some (32 * 2 ^ 1074)) by (vm_compute; reflexivity).
  assert (H34 : scaled 34 = Some (34 * 2 ^ 1074)) by (vm_compute; reflexivity).
  assert (H35 : scaled 35 = Some (35 * 2 ^ 1074)) by (vm_compute; reflexivity).
  rewrite (between_scaled 31 32 lat _ _ H31 H32), (between_scaled 34 35 lng _ _ H34 H35).
  split.
  - intros [(a & Ha & Hla) (b & Hb & Hlb)]. exists a, b. tauto.
  - intros (a & b & Ha & Hb & Hla & Hlb). split; eauto.
Qed.

(** ** The generic parser: what a parsed record can hold *)

Section Trim.

Lemma trimEnd_again s : Js.trimEnd (Js.trimEnd s) = Js.trimEnd s.
Proof.
  induction s as [|c rest IH]; simpl; [reflexivity|].
  destruct (Js.trimEnd rest) as [|c' rest'] eqn:Hrest.
  - destruct (Js.is_white_space c) eqn:Hc; simpl; [reflexivity | by rewrite Hc].
  - cbn [Js.trimEnd]. cbn [Js.trimEnd] in IH. by rewrite IH.
Qed.

(** What [trimEnd] leaves starts as the string did. *)
Lemma trimEnd_head c rest :
  Js.is_white_space c = false ->
  exists rest', Js.trimEnd (String c rest) = String c rest'.
Proof.
  intros Hc. simpl. destruct (Js.trimEnd rest); rewrite ?Hc; eauto.
Qed.

Lemma trimStart_head s :
  Js.trimStart s = EmptyString \/
  exists c rest, Js.trimStart s = String c rest /\ Js.is_white_space c = false.
Proof.
  induction s as [|c rest IH]; simpl; [by left|].
  destruct (Js.is_white_space c) eqn:Hc; [exact IH | right; eauto].
Qed.

(** A trimmed string has nothing left to trim. *)
Lemma trim_again s : Js.trim (Js.trim s) = Js.trim s.
Proof.
  unfold Js.trim. destruct (trimStart_head s) as [->|(c & rest & -> & Hc)]; [reflexivity|].
  destruct (trimEnd_head c rest Hc) as [rest' Hrest]. rewrite Hrest at 1.
  cbn [Js.trimStart]. rewrite Hc, <- Hrest. apply trimEnd_again.
Qed.

End Trim.

Section ParsedRecords.
Variable tokenize : string -> Csv.scan.
Variables numericColumns coordinateColumns : list string.

Local Abbreviation cast := (Loader.cast numericColumns coordinateColumns).

(** Without a record in the input there is none in the output. *)
Lemma parse_no_rows text records :
  Csv.rows (tokenize text) = [] ->
  Csv.parse tokenize cast text = Ok records -> records = [].
Proof.
  unfold Csv.parse, Csv.finish. intros ->.
  destruct (Csv.broken (tokenize text)) as [[fields code]|]; [|congruence].
  intros H. apply bind_Ok in H as (? & _ & H). discriminate.
Qed.

(** Every property of a parsed record is the cast of a cell under the
    column of its name. *)
Lemma parsed_property text log records record name v :
  Loader.parseCSVWithCoordinates tokenize text numericColumns coordinateColumns
    = Ok (log, records) ->
  record ∈ records -> record !! name = Some v ->
  exists raw, cast raw (Csv.ColName name) = Ok v.
Proof.
  intros H Hin Hv. apply parseCSVWithCoordinates_Ok in H.
  destruct (Csv.rows (tokenize text)) as [|header data] eqn:Hrows.
  - rewrite (parse_no_rows _ _ Hrows H) in Hin. by apply elem_of_nil in Hin.
  - destruct (parse_Ok _ _ _ _ _ _ H Hrows) as (_ & hs & names & Hhs & Hnames & Hrec).
    apply records_of_Ok in Hrec. apply list_elem_of_lookup in Hin as [i Hi].
    destruct (Forall2_lookup_r _ _ _ _ _ Hrec Hi) as (fields & _ & Hlen & vs & Hvs & ->).
    apply cast_fields_Ok in Hvs as [Hlenvs Hvs].
    apply make_object_Some in Hv as (j & Hn & Hv).
    assert (Hj : (j < length fields)%nat).
    { rewrite <- Hlenvs. by apply lookup_lt_Some in Hv. }
    apply lookup_lt_is_Some in Hj as [raw Hraw].
    destruct (Hvs j raw Hraw) as (v' & Hv' & Hc). rewrite Hv in Hv'. injection Hv' as <-.
    unfold Csv.context_column in Hc. simpl in Hc. rewrite Hn in Hc. eauto.
Qed.

(** X10.  What a successfully parsed record holds: under a numeric or
    coordinate column a number that is not [NaN], and under any other
    column a string without white space at either end.  In particular no
    [NaN] reaches [calculateBounds] from a parsed file. *)
Theorem parsed_fields_are_numbers_or_trimmed text log records record name v :
  Loader.parseCSVWithCoordinates tokenize text numericColumns coordinateColumns
    = Ok (log, records) ->
  record ∈ records -> record !! name = Some v ->
  (numeric numericColumns coordinateColumns name ->
   exists x, v = VNum x /\ Js.isNaN x = false) /\
  (~ numeric numericColumns coordinateColumns name ->
   exists s, v = VStr s /\ Js.trim s = s).
Proof.
  intros H Hin Hv. destruct (parsed_property _ _ _ _ _ _ H Hin Hv) as [raw Hc].
  split; intros Hn.
  - rewrite cast_numeric in Hc by exact Hn.
    destruct (Js.isNaN (Js.parseFloat raw)) eqn:Hnan; [discriminate|].
    injection Hc as <-. eauto.
  - rewrite cast_text in Hc by (intros ? [= <-]; exact Hn).
    injection Hc as <-. eexists. split; [reflexivity | apply trim_again].
Qed.

(** X11.  A text without records, and a text with a header only, parse to no
    record and no warning: the header's cells are never converted,
    whatever the columns are called. *)
Theorem parseCSVWithCoordinates_without_data text :
  Csv.broken (tokenize text) = None ->
  (Csv.rows (tokenize text) = [] \/ exists header, Csv.rows (tokenize text) = [header]) ->
  Loader.parseCSVWithCoordinates tokenize text numericColumns coordinateColumns = Ok ([], []).
Proof.
  intros Hbroken [Hrows | [header Hrows]]; unfold Loader.parseCSVWithCoordinates.
  - unfold Csv.parse. by rewrite Hrows, Hbroken.
  - rewrite (parse_with_header _ _ _ _ _ _ Hrows), Hbroken. reflexivity.
Qed.

End ParsedRecords.

(** ** The displacement-events handler: more of the answer *)

Section EventsMore.
Variable tokenize : string -> Csv.scan.

(** X16.  The handler answers 200 exactly when every valid record has a
    [locations_name]: the grouping calls [toLowerCase] on it, so one valid
    record without it (a file without that column, say) makes the whole
    request fail with the 500 answer, the [TypeError] going to the
    console.  Records that are not valid do not matter. *)
Theorem GET_needs_locations_name files content records :
  files !! events_path = Some content ->
  Events.parse_events tokenize content = Ok records ->
  (Forall (fun r : object => is_Some (r !! "locations_name")) (Events.validRecords records) ->
   fst (Events.GET tokenize files) = [] /\
   Events.status (snd (Events.GET tokenize files)) = 200%nat) /\
  (Exists (fun r : object => r !! "locations_name" = None) (Events.validRecords records) ->
   Events.GET tokenize files =
     ([Console_error "Error reading displacement events:" TypeError], events_failure)).
Proof.
  intros Hfile Hparse. unfold Events.GET, readFileSync. unfold events_path in Hfile.
  rewrite Hfile. simpl. rewrite Hparse. simpl.
  assert (Hstr : forall r, r ∈ Events.validRecords records ->
            (exists b, Events.mentions_gaza r = Ok b) \/ Events.mentions_gaza r = Throw TypeError).
  { intros r _. unfold Events.mentions_gaza.
    destruct (r !! "locations_name") as [[x|name]|]; eauto. }
  split.
  - intros Hall.
    assert (Hok : Forall (fun r => exists b, Events.mentions_gaza r = Ok b)
                    (Events.validRecords records)).
    { apply Forall_forall. intros r Hr. rewrite Forall_forall in Hall.
      pose proof (Hall r Hr) as Hsome. apply elem_of_validRecords in Hr as [Hr _].
      destruct (locations_name_is_string tokenize _ _ _ Hparse Hr Hsome) as [name Hname].
      unfold Events.mentions_gaza. rewrite Hname. eauto. }
    unfold Events.respond.
    destruct (filter_throwing_total _ _ Hok) as [gaza ->]. simpl.
    assert (Hok' : Forall (fun r => exists b,
                             (b ← Events.mentions_gaza r; Ok (negb b)) = Ok b)
                     (Events.validRecords records)).
    { eapply Forall_impl; [exact Hok|]. intros r [b ->]. simpl. eauto. }
    destruct (filter_throwing_total _ _ Hok') as [west ->]. simpl. by split.
  - intros Hex. unfold Events.respond.
    rewrite (filter_throwing_Throw Events.mentions_gaza TypeError); [reflexivity | |].
    + apply Forall_forall. exact Hstr.
    + eapply Exists_impl; [exact Hex|]. intros r Hr. unfold Events.mentions_gaza. by rewrite Hr.
Qed.

(** X15.  In a success answer over at least one valid record,
    [largest_displacement] is the figure of a valid record, no valid
    record has a greater one, and it is above zero. *)
Theorem GET_largest_displacement files log gaza_events west_events summary bounds st
    records content :
  Events.GET tokenize files =
    (log, {| Events.body := Events.Success_body gaza_events west_events summary bounds;
             Events.status := st |}) ->
  files !! events_path = Some content ->
  Events.parse_events tokenize content = Ok records ->
  Events.validRecords records <> [] ->
  let largest := Events.largest_displacement summary in
  (exists record, record ∈ Events.validRecords records /\
                  largest = ToNumber (record !! "figure")) /\
  (forall record, record ∈ Events.validRecords records ->
                  PrimFloat.leb (ToNumber (record !! "figure")) largest = true) /\
  PrimFloat.ltb PrimFloat.zero largest = true.
Proof.
  intros HGET Hfile Hparse Hne largest. subst largest.
  apply GET_success in HGET as (content' & records' & Hfile' & Hparse' & Hrespond).
  unfold events_path in Hfile. rewrite Hfile in Hfile'. injection Hfile' as <-.
  rewrite Hparse in Hparse'. injection Hparse' as <-.
  apply respond_Ok in Hrespond as (_ & _ & _ & -> & _). cbn [Events.largest_displacement].
  set (valid := Events.validRecords records) in *.
  set (figs := map (fun r : object => ToNumber (r !! "figure")) valid).
  assert (Hpos : forall r, r ∈ valid ->
            PrimFloat.ltb PrimFloat.zero (ToNumber (r !! "figure")) = true).
  { intros r Hr. apply elem_of_validRecords in Hr as [_ Hr].
    unfold Events.is_valid in Hr. rewrite !andb_true_iff in Hr. tauto. }
  assert (Hnum : Forall (fun x => Js.isNaN x = false) figs).
  { apply Forall_fmap, Forall_forall. intros r Hr. simpl.
    destruct (Js.isNaN (ToNumber (r !! "figure"))) eqn:Hnan; [|reflexivity].
    pose proof (Hpos r Hr) as Hlt. rewrite (ltb_nan_r _ _ Hnan) in Hlt. discriminate. }
  assert (Hfigs : figs <> []) by (subst figs; destruct valid; [congruence | discriminate]).
  destruct (Math_max_greatest figs Hfigs Hnum) as [Hin Hall].
  apply list_elem_of_fmap in Hin as (record & Hlargest & Hrecord).
  split; [by exists record|]. split.
  - intros r Hr. rewrite Forall_forall in Hall. apply Hall.
    apply list_elem_of_fmap. by exists r.
  - fold figs. rewrite Hlargest. by apply Hpos.
Qed.

End EventsMore.

(** ** The collection script *)

(** The names in a list of strings, one case each. *)
Ltac each_name H :=
  repeat (apply elem_of_cons in H as [H|H]; [try (injection H as H); subst|]);
  try (by apply elem_of_nil in H).

Section CollectFacts.

Definition gaza_entry : Collect.Coordinates :=
  {| Collect.lat := 31.5017; Collect.lng := 34.4668; Collect.area := "North Gaza" |}.

Definition gaza_strip_entry : Collect.Coordinates :=
  {| Collect.lat := 31.4181; Collect.lng := 34.3668; Collect.area := "Gaza Strip" |}.

Lemma own_Some {V} key (entries : list (string * V)) v :
  Collect.own key entries = Some v -> (key, v) ∈ entries.
Proof.
  induction entries as [|[k w] rest IH]; simpl; [discriminate|].
  destruct (String.eqb_spec k key) as [->|_].
  - intros [= ->]. by left.
  - intros H. right. by apply IH.
Qed.

(** A location that is not a key of the table and matches the first key
    in either direction gets the first key's entry. *)
Lemma getCoordinates_first_key location :
  Collect.own location Collect.GAZA_COORDINATES = None ->
  location ∉ Collect.Object_prototype ->
  Collect.partial_match location "Gaza" = true ->
  Collect.getCoordinates location = Collect.Entry gaza_entry.
Proof.
  intros Hown Hproto Hmatch. unfold Collect.getCoordinates, Collect.Get.
  rewrite Hown, (bool_decide_eq_false_2 _ Hproto). unfold Collect.GAZA_COORDINATES.
  cbn [List.find fst]. by rewrite Hmatch.
Qed.

Lemma no_inherited_name_mentions_gaza location :
  Js.includes "gaza" (Js.toLowerCase location) = true ->
  location ∉ Collect.Object_prototype.
Proof.
  intros H Hin. unfold Collect.Object_prototype in Hin. each_name Hin; discriminate.
Qed.

Lemma extractLocation_from_Some rowData fields value :
  Collect.extractLocation_from rowData fields = Some value ->
  exists field, field ∈ fields /\ rowData !! field = Some value /\
                Js.includes "gaza" (Js.toLowerCase value) = true.
Proof.
  induction fields as [|field rest IH]; simpl; [discriminate|].
  destruct (rowData !! field) as [v|] eqn:Hv.
  - destruct (negb (String.eqb v "") && Js.includes "gaza" (Js.toLowerCase v)) eqn:Hgaza.
    + intros [= ->]. apply andb_true_iff in Hgaza as [_ Hgaza].
      exists field. split; [by left | by split].
    + intros H. destruct (IH H) as (f & Hf & Hrest). exists f. split; [by right | exact Hrest].
  - intros H. destruct (IH H) as (f & Hf & Hrest). exists f. split; [by right | exact Hrest].
Qed.

Lemma extractLocation_from_None rowData fields :
  Collect.extractLocation_from rowData fields = None ->
  forall field value, field ∈ fields -> rowData !! field = Some value ->
                      Js.includes "gaza" (Js.toLowerCase value) = false.
Proof.
  induction fields as [|field rest IH]; simpl; intros H f value Hin Hv;
    [by apply elem_of_nil in Hin|].
  destruct (rowData !! field) as [v|] eqn:Hfield.
  - destruct (negb (String.eqb v "") && Js.includes "gaza" (Js.toLowerCase v)) eqn:Hgaza;
      [discriminate|].
    apply elem_of_cons in Hin as [->|Hin]; [|by eapply IH].
    rewrite Hfield in Hv. injection Hv as ->.
    apply andb_false_iff in Hgaza as [Hempty|Hgaza]; [|exact Hgaza].
    apply negb_false_iff, String.eqb_eq in Hempty. by subst value.
  - apply elem_of_cons in Hin as [->|Hin]; [congruence | by eapply IH].
Qed.

End CollectFacts.

(** X17.  [extractLocation] gives the cell of one of the six location fields
    only if the cell mentions Gaza (in any letter case), and otherwise
    ['Gaza Strip']: a row located by ['Rafah'] or ['Khan Younis'] alone is
    filed under ['Gaza Strip']. *)
Theorem extractLocation_mentions_gaza (rowData : gmap string string) :
  Js.includes "gaza" (Js.toLowerCase (Collect.extractLocation rowData)) = true /\
  ((exists field, field ∈ Collect.locationFields /\
                  rowData !! field = Some (Collect.extractLocation rowData)) \/
   (Collect.extractLocation rowData = "Gaza Strip" /\
    forall field value, field ∈ Collect.locationFields -> rowData !! field = Some value ->
                        Js.includes "gaza" (Js.toLowerCase value) = false)).
Proof.
  unfold Collect.extractLocation.
  destruct (Collect.extractLocation_from rowData Collect.locationFields) as [value|] eqn:H.
  - apply extractLocation_from_Some in H as (field & Hin & Hv & Hgaza).
    split; [exact Hgaza|]. left. eauto.
  - split; [reflexivity|]. right. split; [reflexivity|].
    by apply extractLocation_from_None.
Qed.

(** X18.  [getCoordinates] on every string.  A key of the table gets its
    entry.  A name that every object inherits ([constructor],
    [toString], ...) gets the inherited value, which has no coordinates.
    Any other location gets an entry of the table, and the entry of
    ['Gaza'] as soon as it mentions Gaza or is a part of the word (the
    empty string is): ['gaza strip'] in lower case is placed in North
    Gaza, not at the entry of ['Gaza Strip'].  Every entry it can give
    passes [validateCoordinates]. *)
Theorem getCoordinates_total location :
  (forall coords, (location, coords) ∈ Collect.GAZA_COORDINATES ->
                  Collect.getCoordinates location = Collect.Entry coords) /\
  (location ∈ Collect.Object_prototype ->
   Collect.getCoordinates location = Collect.Inherited location) /\
  (location ∉ Collect.Object_prototype ->
   exists key coords,
     (key, coords) ∈ Collect.GAZA_COORDINATES /\
     Collect.getCoordinates location = Collect.Entry coords /\
     Loader.validateCoordinates (Collect.lat coords) (Collect.lng coords) = true) /\
  (location ∉ map fst Collect.GAZA_COORDINATES ->
   location ∉ Collect.Object_prototype ->
   Collect.partial_match location "Gaza" = true ->
   Collect.getCoordinates location = Collect.Entry gaza_entry).
Proof.
  split; [|split; [|split]].
  - intros coords Hin. unfold Collect.GAZA_COORDINATES in Hin. each_name Hin; reflexivity.
  - intros Hin. unfold Collect.Object_prototype in Hin. each_name Hin; reflexivity.
  - intros Hproto. unfold Collect.getCoordinates, Collect.Get.
    assert (Hbox : forall key coords, (key, coords) ∈ Collect.GAZA_COORDINATES ->
              Loader.validateCoordinates (Collect.lat coords) (Collect.lng coords) = true).
    { intros key coords Hin. unfold Collect.GAZA_COORDINATES in Hin. each_name Hin; reflexivity. }
    destruct (Collect.own location Collect.GAZA_COORDINATES) as [coords|] eqn:Hown.
    + apply own_Some in Hown. exists location, coords. eauto.
    + rewrite (bool_decide_eq_false_2 _ Hproto).
      destruct (List.find _ Collect.GAZA_COORDINATES) as [[key coords]|] eqn:Hfind.
      * apply find_some in Hfind as [Hin _]. apply list_elem_of_In in Hin.
        exists key, coords. eauto.
      * exists "Gaza Strip", gaza_strip_entry. split; [|split; reflexivity].
        apply list_elem_of_In. simpl. tauto.
  - intros Hkey Hproto Hmatch. apply getCoordinates_first_key; [|exact Hproto|exact Hmatch].
    destruct (Collect.own location Collect.GAZA_COORDINATES) as [coords|] eqn:Hown;
      [|reflexivity].
    apply own_Some in Hown. destruct Hkey. apply list_elem_of_fmap. by exists (location, coords).
Qed.

(** X19.  The two helpers together, as [convertToCasualtyFormat] uses them:
    whatever the row holds, it is placed at the entry of ['Gaza Strip']
    when its location is exactly that, and at the entry of ['Gaza']
    (North Gaza) in every other case.  The entries of Khan Younis, Rafah,
    Deir al-Balah and Jabalia are never used for a row, and the
    coordinates written always pass [validateCoordinates]. *)
Theorem row_coordinates_are_gaza_or_gaza_strip (rowData : gmap string string) :
  let location := Collect.extractLocation rowData in
  let coords := if String.eqb location "Gaza Strip" then gaza_strip_entry else gaza_entry in
  Collect.getCoordinates location = Collect.Entry coords /\
  Loader.validateCoordinates (Collect.lat coords) (Collect.lng coords) = true.
Proof.
  intros location coords.
  assert (Hgaza : Js.includes "gaza" (Js.toLowerCase location) = true).
  { subst location. unfold Collect.extractLocation.
    destruct (Collect.extractLocation_from rowData Collect.locationFields) as [value|] eqn:H;
      [|reflexivity].
    by apply extractLocation_from_Some in H as (_ & _ & _ & H). }
  split; [|subst coords; by destruct (String.eqb location "Gaza Strip")].
  subst coords. clearbody location.
  destruct (Collect.own location Collect.GAZA_COORDINATES) as [c|] eqn:Hown.
  - apply own_Some in Hown. unfold Collect.GAZA_COORDINATES in Hown.
    each_name Hown; first [reflexivity | discriminate].
  - assert (Hne : String.eqb location "Gaza Strip" = false).
    { apply String.eqb_neq. intros ->. discriminate. }
    rewrite Hne. apply getCoordinates_first_key; [exact Hown | |].
    + by apply no_inherited_name_mentions_gaza.
    + unfold Collect.partial_match. change (Js.toLowerCase "Gaza") with "gaza".
      by rewrite Hgaza.
Qed.

(** ** Whole-number cells *)

Section WholeCells.

(** The strings of decimal digits, and the number one writes. *)
Fixpoint all_digits (s : string) : bool :=
  match s with
  | EmptyString => true
  | String c rest => Js.is_digit c && all_digits rest
  end.

Fixpoint value_from (acc : Z) (s : string) : Z :=
  match s with
  | EmptyString => acc
  | String c rest => value_from (10 * acc + Js.digit_value c) rest
  end.

Definition digits_value (s : string) : Z := value_from 0 s.

Lemma digit_cases c :
  Js.is_digit c = true ->
  c ∈ ["0"; "1"; "2"; "3"; "4"; "5"; "6"; "7"; "8"; "9"]%char.
Proof.
  destruct c as [[] [] [] [] [] [] [] []]; intros H; try discriminate H;
    apply list_elem_of_In; simpl; tauto.
Qed.

Lemma digit_value_range c : Js.is_digit c = true -> 0 <= Js.digit_value c <= 9.
Proof.
  intros Hc. apply digit_cases in Hc. each_name Hc; vm_compute; split; discriminate.
Qed.

Lemma value_from_nonneg s : forall acc,
  all_digits s = true -> 0 <= acc -> 0 <= value_from acc s.
Proof.
  induction s as [|c rest IH]; intros acc Hs Hacc; simpl; [exact Hacc|].
  simpl in Hs. apply andb_true_iff in Hs as [Hc Hrest]. apply IH; [exact Hrest|].
  apply digit_value_range in Hc. lia.
Qed.

Lemma read_digits_all s : forall acc n,
  all_digits s = true ->
  Js.read_digits s acc n = (value_from acc s, (n + String.length s)%nat, EmptyString).
Proof.
  induction s as [|c rest IH]; intros acc n Hs; simpl.
  - by rewrite Nat.add_0_r.
  - simpl in Hs. apply andb_true_iff in Hs as [Hc Hrest]. rewrite Hc, IH by exact Hrest.
    do 2 f_equal. lia.
Qed.

(** Such a string is a numeral with these digits and no exponent. *)
Lemma read_numeral_digits s :
  s <> EmptyString -> all_digits s = true ->
  Js.read_numeral (Js.trimStart s) = Some (Js.NDecimal false (digits_value s) 0, EmptyString).
Proof.
  intros Hne Hs. destruct s as [|c rest]; [congruence|].
  pose proof Hs as Hall. simpl in Hs. apply andb_true_iff in Hs as [Hc Hrest].
  assert (Htrim : Js.trimStart (String c rest) = String c rest).
  { apply digit_cases in Hc. each_name Hc; reflexivity. }
  rewrite Htrim. unfold Js.read_numeral.
  assert (Hsign : Js.read_sign (String c rest) = (false, String c rest)).
  { apply digit_cases in Hc. each_name Hc; reflexivity. }
  rewrite Hsign.
  assert (Hinf : String.prefix "Infinity" (String c rest) = false).
  { apply digit_cases in Hc. each_name Hc; reflexivity. }
  rewrite Hinf, (read_digits_all _ 0 0%nat Hall). reflexivity.
Qed.

(** Below [2^53] the number is a float, and it is the float read. *)
Lemma parseFloat_digits s :
  s <> EmptyString -> all_digits s = true -> digits_value s < 2 ^ 53 ->
  whole (Js.parseFloat s) (digits_value s).
Proof.
  intros Hne Hs Hlt. unfold Js.parseFloat. rewrite (read_numeral_digits s Hne Hs).
  pose proof (value_from_nonneg s 0 Hs ltac:(lia)) as Hpos. fold (digits_value s) in Hpos.
  unfold Js.numeral_to_float, Js.decimal_to_float, whole.
  destruct (digits_value s) as [|p|p] eqn:Hn; [reflexivity| |lia].
  change (0 <=? 0) with true. cbn [cond_Zopp]. rewrite Z.pow_0_r, Z.mul_1_r.
  destruct (whole_float (Zpos p) ltac:(lia)) as [z Hz].
  assert (H0 : 0 < Zpos p * 2 ^ 1074) by (apply Z.mul_pos_pos; [lia | by apply Z.pow_pos_nonneg]).
  destruct (scaled_finite z _ Hz H0) as (m & e & _ & Hb & Hval).
  unfold binary_normalize.
  rewrite (binary_round_exact p 0 m e Hb ltac:(lia) Hval).
  unfold scaled. rewrite Prim2SF_SF2Prim by exact Hb. cbn [cond_Zopp]. by rewrite Hval.
Qed.

End WholeCells.

(** X20.  A cell of decimal digits only, writing a number below [2^53], is
    converted by both casts, in a numeric column, to exactly that number:
    the generic loader does not reject it and neither cast rounds it.  So
    counts of people in the files are read as the whole numbers they
    are. *)
Theorem whole_number_cells_are_read_exactly numericColumns coordinateColumns name cell :
  cell <> EmptyString -> all_digits cell = true -> digits_value cell < 2 ^ 53 ->
  (numeric numericColumns coordinateColumns name ->
   exists x, Loader.cast numericColumns coordinateColumns cell (Csv.ColName name)
             = Ok (VNum x) /\
             whole x (digits_value cell)) /\
  (name ∈ Events.numeric_columns ->
   exists x, Events.cast cell (Csv.ColName name) = Ok (VNum x) /\
             whole x (digits_value cell)).
Proof.
  intros Hne Hs Hlt. pose proof (parseFloat_digits cell Hne Hs Hlt) as Hwhole.
  assert (Hnan : Js.isNaN (Js.parseFloat cell) = false).
  { unfold Js.isNaN. destruct (PrimFloat.is_nan (Js.parseFloat cell)) eqn:E; [|reflexivity].
    unfold whole, scaled in Hwhole. by rewrite (Prim2SF_nan _ E) in Hwhole. }
  split; intros Hname.
  - exists (Js.parseFloat cell). split; [|exact Hwhole].
    by rewrite cast_numeric, Hnan.
  - exists (Js.parseFloat cell). split; [|exact Hwhole].
    rewrite events_cast_name. unfold event_value.
    by rewrite (bool_decide_eq_true_2 _ Hname), Hnan.
Qed.

(** ** Cells that are not numbers *)

Section TextCells.

(** The characters a [StrDecimalLiteral] can start with: a digit, a
    sign, the decimal point, or the [I] of [Infinity]. *)
Definition may_start_number (c : ascii) : bool :=
  Js.is_digit c || Ascii.eqb c "+" || Ascii.eqb c "-" || Ascii.eqb c "." || Ascii.eqb c "I".

(** A cell that is empty or blank, or whose first character after the
    leading white space cannot start a number. *)
Definition no_number (cell : string) : bool :=
  match Js.trimStart cell with
  | EmptyString => true
  | String c _ => negb (may_start_number c)
  end.

Lemma parseFloat_no_number cell : no_number cell = true -> Js.parseFloat cell = nan.
Proof.
  unfold no_number, Js.parseFloat. destruct (Js.trimStart cell) as [|c rest]; [reflexivity|].
  destruct c as [[] [] [] [] [] [] [] []]; intros H; try discriminate H; reflexivity.
Qed.

End TextCells.

(** X21.  An empty or blank cell, and a cell whose text starts (after
    leading white space) with anything but a digit, a sign, a decimal
    point or [I], is not a number for either cast callback.  Called on
    such a cell of a numeric or coordinate column, the cast callback of
    [parseCSVWithCoordinates] throws its [Error] naming the cell and the
    column; called on such a cell of [latitude], [longitude], [figure] or
    [year], the cast callback of the events handler returns [0]. *)
Theorem cells_without_a_number numericColumns coordinateColumns name cell :
  no_number cell = true ->
  (numeric numericColumns coordinateColumns name ->
   Loader.cast numericColumns coordinateColumns cell (Csv.ColName name)
   = Throw (Error (Loader.invalid_numeric_message cell name))) /\
  (name ∈ Events.numeric_columns ->
   Events.cast cell (Csv.ColName name) = Ok (VNum PrimFloat.zero)).
Proof.
  intros H. apply parseFloat_no_number in H. split; intros Hname.
  - by rewrite cast_numeric, H.
  - rewrite events_cast_name. unfold event_value.
    by rewrite (bool_decide_eq_true_2 _ Hname), H.
Qed.

(** ** Sums of whole figures *)

Section WholeSums.
Variable tokenize : string -> Csv.scan.

(** The figures of valid records are above zero. *)
Lemma valid_figures_positive (records : list object) ns :
  Forall (fun r => Events.is_valid r = true) records ->
  Forall2 whole (figures records) ns ->
  Forall (fun x => exists n, 0 < n /\ whole x n) (figures records).
Proof.
  assert (HP : 0 < 2 ^ 1074) by (by apply Z.pow_pos_nonneg).
  unfold figures. intros Hvalid. revert ns.
  induction Hvalid as [|r rest Hr _ IH]; intros ns Hwhole; [constructor|].
  simpl in Hwhole. inversion Hwhole as [|x n xs ns' Hx Hxs]; subst.
  constructor; [|by eapply IH]. exists n. split; [|exact Hx].
  unfold Events.is_valid in Hr. rewrite !andb_true_iff in Hr.
  assert (Hfig : PrimFloat.ltb PrimFloat.zero (ToNumber (r !! "figure")) = true) by tauto.
  pose proof (scaled_positive _ _ Hfig Hx). nia.
Qed.

Lemma filter_figures_positive (p : object -> bool) (records : list object) :
  Forall (fun x => exists n, 0 < n /\ whole x n) (figures records) ->
  Forall (fun x => exists n, 0 < n /\ whole x n) (figures (List.filter p records)).
Proof.
  unfold figures. induction records as [|r rest IH]; intros H; [constructor|].
  apply Forall_cons in H as [Hr Hrest]. simpl. destruct (p r); [constructor|]; auto.
Qed.

Lemma exact_sum_of_positive xs :
  Forall (fun x => exists n, 0 < n /\ whole x n) xs -> 0 <= exact_sum xs.
Proof.
  assert (HP : 0 < 2 ^ 1074) by (by apply Z.pow_pos_nonneg).
  induction 1 as [|x rest (n & Hn & Hx) _ IH]; simpl; [lia|].
  unfold whole in Hx. rewrite Hx. simpl. nia.
Qed.

(** The sum of positive whole figures whose exact total is below [2^53]
    is that total. *)
Lemma sum_figures_whole (records : list object) :
  Forall (fun x => exists n, 0 < n /\ whole x n) (figures records) ->
  exact_sum (figures records) < 2 ^ 53 * 2 ^ 1074 ->
  scaled (Events.sum_figures records) = Some (exact_sum (figures records)).
Proof.
  intros Hpos Hlt. rewrite sum_figures_fold.
  assert (Hzero : whole PrimFloat.zero 0) by reflexivity.
  assert (Hadds : adds_exactly PrimFloat.zero (figures records) = true)
    by (apply (adds_exactly_whole _ _ 0 Hzero); [lia | exact Hpos | lia]).
  by destruct (adds_exactly_sum _ _ 0 Hadds eq_refl) as [-> _].
Qed.

(** X22.  When the figures of the valid records are whole numbers whose
    total is below [2^53], the three sums of a success answer are exact:
    [total_displaced] is that total, and [gaza_displaced] and
    [west_bank_displaced] are the totals of their groups.  No rounding
    error enters the summary. *)
Theorem displaced_sums_of_whole_figures_are_exact files log gaza_events west_events
    summary bounds st records content ns :
  Events.GET tokenize files =
    (log, {| Events.body := Events.Success_body gaza_events west_events summary bounds;
             Events.status := st |}) ->
  files !! events_path = Some content ->
  Events.parse_events tokenize content = Ok records ->
  Forall2 whole (figures (Events.validRecords records)) ns ->
  fold_right Z.add 0 ns < 2 ^ 53 ->
  whole (Events.total_displaced summary) (fold_right Z.add 0 ns) /\
  scaled (Events.gaza_displaced summary) = Some (exact_sum (figures gaza_events)) /\
  scaled (Events.west_bank_displaced summary) = Some (exact_sum (figures west_events)) /\
  exact_sum (figures gaza_events) + exact_sum (figures west_events)
  = fold_right Z.add 0 ns * 2 ^ 1074.
Proof.
  intros HGET Hfile Hparse Hwhole Hlt.
  assert (HP : 0 < 2 ^ 1074) by (by apply Z.pow_pos_nonneg).
  apply GET_success in HGET as (content' & records' & Hfile' & Hparse' & Hrespond).
  unfold events_path in Hfile. rewrite Hfile in Hfile'. injection Hfile' as <-.
  rewrite Hparse in Hparse'. injection Hparse' as <-.
  apply respond_Ok in Hrespond as (_ & Hgaza & Hwest & -> & _).
  cbn [Events.total_displaced Events.gaza_displaced Events.west_bank_displaced].
  set (valid := Events.validRecords records) in *.
  assert (Hvalid : Forall (fun r => Events.is_valid r = true) valid).
  { apply Forall_forall. intros x Hx. by apply elem_of_validRecords in Hx as [_ Hx]. }
  pose proof (valid_figures_positive valid ns Hvalid Hwhole) as Hpos.
  pose proof (exact_sum_whole _ _ Hwhole) as Htotal.
  pose proof (exact_sum_split in_gaza valid) as Hsplit.
  rewrite <- Hgaza, <- Hwest in Hsplit.
  assert (Hposg : Forall (fun x => exists n, 0 < n /\ whole x n) (figures gaza_events))
    by (rewrite Hgaza; by apply filter_figures_positive).
  assert (Hposw : Forall (fun x => exists n, 0 < n /\ whole x n) (figures west_events))
    by (rewrite Hwest; by apply filter_figures_positive).
  pose proof (exact_sum_of_positive _ Hposg). pose proof (exact_sum_of_positive _ Hposw).
  split; [|split; [|split]].
  - unfold whole. rewrite sum_figures_whole; [by rewrite Htotal | exact Hpos | nia].
  - apply sum_figures_whole; [exact Hposg | nia].
  - apply sum_figures_whole; [exact Hposw | nia].
  - lia.
Qed.

End WholeSums.

(** ** The two aggregators together *)

(** X13.  The bounds of the unique locations lie inside the bounds of all the
    records (no coordinate being [NaN]): leaving out the later records of
    a key can only shrink the box. *)
Theorem unique_locations_bounds_inside records :
  Forall (fun r => Js.isNaN (latitude r) = false /\ Js.isNaN (longitude r) = false)
    records ->
  let all := Loader.calculateBounds records in
  let unique := Loader.calculateBounds (Loader.getUniqueLocations records) in
  PrimFloat.leb (north unique) (north all) = true /\
  PrimFloat.leb (south all) (south unique) = true /\
  PrimFloat.leb (east unique) (east all) = true /\
  PrimFloat.leb (west all) (west unique) = true.
Proof.
  intros Hnan all unique. subst all unique. rewrite getUniqueLocations_first_seen.
  pose proof (first_seen_sublist records []) as Hsub.
  destruct records as [|r0 rest]; [by repeat split|].
  assert (Hnot_nil : first_seen [] (r0 :: rest) <> []) by (simpl; discriminate).
  set (records := r0 :: rest) in *. set (firsts := first_seen [] records) in *.
  assert (Hfirsts : Forall (fun r => Js.isNaN (latitude r) = false /\
                                     Js.isNaN (longitude r) = false) firsts).
  { apply Forall_forall. intros r Hr. rewrite Forall_forall in Hnan.
    apply Hnan. exact (elem_of_sublist _ _ _ Hr Hsub). }
  unfold Loader.calculateBounds.
  destruct firsts as [|f0 others] eqn:Hf; [congruence|]. rewrite <- Hf in *.
  cbn [length Nat.eqb north south east west]. rewrite Hf at 1 2 3 4. subst records.
  cbn [length Nat.eqb north south east west].
  set (records := r0 :: rest) in *.
  assert (Hlat : forall (rs : list GeographicData),
            Forall (fun r => Js.isNaN (latitude r) = false /\
                             Js.isNaN (longitude r) = false) rs ->
            Forall (fun x => Js.isNaN x = false) (map latitude rs) /\
            Forall (fun x => Js.isNaN x = false) (map longitude rs)).
  { intros rs H. split; apply Forall_fmap; (eapply Forall_impl; [exact H | by intros ? [? ?]]). }
  destruct (Hlat _ Hnan) as [Hlats Hlngs]. destruct (Hlat _ Hfirsts) as [Hlats' Hlngs'].
  assert (Hne : forall f : GeographicData -> float, map f records <> []) by (intros; discriminate).
  assert (Hne' : forall f : GeographicData -> float, map f firsts <> []).
  { intros f. rewrite Hf. discriminate. }
  assert (Hin : forall (f : GeographicData -> float) x, x ∈ map f firsts -> x ∈ map f records).
  { intros f x Hx. apply list_elem_of_fmap in Hx as (r & -> & Hr).
    apply list_elem_of_fmap. exists r. split; [reflexivity | exact (elem_of_sublist _ _ _ Hr Hsub)]. }
  destruct (Math_max_greatest _ (Hne latitude) Hlats) as [_ Hn].
  destruct (Math_min_least _ (Hne latitude) Hlats) as [_ Hs].
  destruct (Math_max_greatest _ (Hne longitude) Hlngs) as [_ He].
  destruct (Math_min_least _ (Hne longitude) Hlngs) as [_ Hw].
  destruct (Math_max_greatest _ (Hne' latitude) Hlats') as [Hn' _].
  destruct (Math_min_least _ (Hne' latitude) Hlats') as [Hs' _].
  destruct (Math_max_greatest _ (Hne' longitude) Hlngs') as [He' _].
  destruct (Math_min_least _ (Hne' longitude) Hlngs') as [Hw' _].
  rewrite Forall_forall in Hn, Hs, He, Hw.
  repeat split; [apply Hn | apply Hs | apply He | apply Hw]; by apply Hin.
Qed.

(** ** The further properties on small inputs *)

Definition rafah_record : GeographicData :=
  {| latitude := 31.2948; longitude := 34.2492; location := "Rafah"; area := "South Gaza" |}.
Definition jabalia_record : GeographicData :=
  {| latitude := 31.5314; longitude := 34.4831; location := "Jabalia"; area := "North Gaza" |}.
(** Rafah once more, a little to the north. *)
Definition rafah_again : GeographicData :=
  {| latitude := 31.3; longitude := 34.25; location := "Rafah"; area := "South Gaza" |}.
(** A record whose latitude is not a number. *)
Definition unlocated_record : GeographicData :=
  {| latitude := nan; longitude := 34.3; location := "Unknown"; area := "Gaza" |}.

Lemma two_records_have_numbers :
  Forall (fun r => Js.isNaN (latitude r) = false /\ Js.isNaN (longitude r) = false)
    [rafah_record; jabalia_record].
Proof. repeat constructor. Qed.

Lemma calculateBounds_extremes_witness :
  let records := [rafah_record; jabalia_record] in
  let b := Loader.calculateBounds records in
  Loader.calculateBounds [] = Loader.default_bounds /\
  (north b ∈ map latitude records /\
   Forall (fun r => PrimFloat.leb (latitude r) (north b) = true) records) /\
  (south b ∈ map latitude records /\
   Forall (fun r => PrimFloat.leb (south b) (latitude r) = true) records) /\
  (east b ∈ map longitude records /\
   Forall (fun r => PrimFloat.leb (longitude r) (east b) = true) records) /\
  (west b ∈ map longitude records /\
   Forall (fun r => PrimFloat.leb (west b) (longitude r) = true) records).
Proof.
  intros records b. split.
  - destruct (calculateBounds_extremes []) as [Hdefault _]. by apply Hdefault.
  - destruct (calculateBounds_extremes records) as [_ Hextremes].
    apply Hextremes; [discriminate | exact two_records_have_numbers].
Defined.

Lemma calculateBounds_order_independent_witness :
  [rafah_record; jabalia_record] ≡ₚ [jabalia_record; rafah_record] /\
  Loader.calculateBounds [rafah_record; jabalia_record]
  = Loader.calculateBounds [jabalia_record; rafah_record].
Proof.
  assert (Hp : [rafah_record; jabalia_record] ≡ₚ [jabalia_record; rafah_record])
    by apply Permutation_swap.
  split; [exact Hp|]. exact (calculateBounds_order_independent _ _ Hp).
Defined.

Lemma calculateBounds_NaN_spreads_witness :
  unlocated_record ∈ [rafah_record; unlocated_record] /\
  Js.isNaN (latitude unlocated_record) = true /\
  north (Loader.calculateBounds [rafah_record; unlocated_record]) = nan /\
  south (Loader.calculateBounds [rafah_record; unlocated_record]) = nan.
Proof.
  assert (Hin : unlocated_record ∈ [rafah_record; unlocated_record])
    by (apply list_elem_of_In; simpl; tauto).
  split; [exact Hin|]. split; [reflexivity|].
  destruct (calculateBounds_NaN_spreads _ _ Hin) as [Hlat _]. by apply Hlat.
Defined.

Lemma calculateBounds_is_a_box_witness :
  Forall (fun r => Js.isNaN (latitude r) = false /\ Js.isNaN (longitude r) = false)
    [rafah_record; jabalia_record] /\
  PrimFloat.leb (south (Loader.calculateBounds [rafah_record; jabalia_record]))
    (north (Loader.calculateBounds [rafah_record; jabalia_record])) = true /\
  PrimFloat.leb (west (Loader.calculateBounds [rafah_record; jabalia_record]))
    (east (Loader.calculateBounds [rafah_record; jabalia_record])) = true.
Proof.
  split; [exact two_records_have_numbers|].
  exact (calculateBounds_is_a_box _ two_records_have_numbers).
Defined.

Lemma getUniqueLocations_by_pair_witness :
  let records := [rafah_record; jabalia_record; rafah_again] in
  (forall r r', r ∈ records -> r' ∈ records ->
     Loader.location_key r = Loader.location_key r' ->
     location r = location r' /\ area r = area r') /\
  Loader.getUniqueLocations records = [rafah_record; jabalia_record] /\
  NoDup (map (fun g => (location g, area g)) (Loader.getUniqueLocations records)) /\
  (forall r, r ∈ records ->
     exists g, g ∈ Loader.getUniqueLocations records /\
               location g = location r /\ area g = area r).
Proof.
  intros records.
  assert (Hinj : forall r r', r ∈ records -> r' ∈ records ->
            Loader.location_key r = Loader.location_key r' ->
            location r = location r' /\ area r = area r').
  { intros r r' Hr Hr' Hkey. unfold records in Hr, Hr'.
    each_name Hr; each_name Hr'; first [by split | discriminate]. }
  split; [exact Hinj|]. split; [reflexivity|].
  exact (getUniqueLocations_by_pair records Hinj).
Defined.

Lemma GET_bounds_with_valid_records_witness :
  let records := [gaza_event; ramallah_event; empty_event; beersheba_event] in
  let lats := map (fun r : object => ToNumber (r !! "latitude")) (Events.validRecords records) in
  let lngs := map (fun r : object => ToNumber (r !! "longitude")) (Events.validRecords records) in
  let bounds := {| north := 31.9; south := 31.5; east := 35.2; west := 34.45 |} in
  Events.validRecords records <> [] /\
  (north bounds ∈ lats /\ Forall (fun x => PrimFloat.leb x (north bounds) = true) lats) /\
  (south bounds ∈ lats /\ Forall (fun x => PrimFloat.leb (south bounds) x = true) lats) /\
  (east bounds ∈ lngs /\ Forall (fun x => PrimFloat.leb x (east bounds) = true) lngs) /\
  (west bounds ∈ lngs /\ Forall (fun x => PrimFloat.leb (west bounds) x = true) lngs).
Proof.
  intros records lats lngs bounds.
  assert (Hvalid : Events.validRecords records = [gaza_event; ramallah_event]) by by_evaluation.
  assert (Hne : Events.validRecords records <> []) by (rewrite Hvalid; discriminate).
  split; [exact Hne|].
  exact (GET_bounds_with_valid_records Csv.plain_tokenize (events_file events_csv)
           _ _ _ _ _ _ _ _ events_csv_answer (events_file_content events_csv)
           events_csv_parsed Hne).
Defined.

Lemma GET_largest_displacement_witness :
  let records := [gaza_event; ramallah_event; empty_event; beersheba_event] in
  let largest := 250%float in
  Events.validRecords records <> [] /\
  (exists record, record ∈ Events.validRecords records /\
                  largest = ToNumber (record !! "figure")) /\
  (forall record, record ∈ Events.validRecords records ->
                  PrimFloat.leb (ToNumber (record !! "figure")) largest = true) /\
  PrimFloat.ltb PrimFloat.zero largest = true.
Proof.
  intros records largest.
  assert (Hvalid : Events.validRecords records = [gaza_event; ramallah_event]) by by_evaluation.
  assert (Hne : Events.validRecords records <> []) by (rewrite Hvalid; discriminate).
  split; [exact Hne|].
  exact (GET_largest_displacement Csv.plain_tokenize (events_file events_csv)
           _ _ _ _ _ _ _ _ events_csv_answer (events_file_content events_csv)
           events_csv_parsed Hne).
Defined.

(** A file without the [locations_name] column. *)
Definition nameless_csv : list string :=
  ["id,country,latitude,longitude,figure,displacement_date";
   "#id,#country,#geo+lat,#geo+lon,#affected,#date";
   "1,Palestine,31.5,34.45,100,2025-01-02";
   ""].

Definition nameless_event : object :=
  list_to_map
    [("id", VStr "1"); ("country", VStr "Palestine");
     ("latitude", VNum 31.5); ("longitude", VNum 34.45); ("figure", VNum 100);
     ("displacement_date", VStr "2025-01-02")].

Lemma nameless_csv_parsed :
  Events.parse_events Csv.plain_tokenize (Js.join newline nameless_csv) = Ok [nameless_event].
Proof. by_evaluation. Qed.

Lemma GET_needs_locations_name_witness :
  (Forall (fun r : object => is_Some (r !! "locations_name"))
     (Events.validRecords [gaza_event; ramallah_event; empty_event; beersheba_event]) /\
   fst (Events.GET Csv.plain_tokenize (events_file events_csv)) = [] /\
   Events.status (snd (Events.GET Csv.plain_tokenize (events_file events_csv))) = 200%nat) /\
  (Exists (fun r : object => r !! "locations_name" = None)
     (Events.validRecords [nameless_event]) /\
   Events.GET Csv.plain_tokenize (events_file nameless_csv) =
     ([Console_error "Error reading displacement events:" TypeError], events_failure)).
Proof.
  split.
  - assert (Hvalid : Events.validRecords
                       [gaza_event; ramallah_event; empty_event; beersheba_event]
                     = [gaza_event; ramallah_event]) by by_evaluation.
    assert (Hall : Forall (fun r : object => is_Some (r !! "locations_name"))
                     (Events.validRecords
                        [gaza_event; ramallah_event; empty_event; beersheba_event])).
    { rewrite Hvalid. repeat constructor; by eexists. }
    split; [exact Hall|].
    destruct (GET_needs_locations_name Csv.plain_tokenize (events_file events_csv) _ _
                (events_file_content events_csv) events_csv_parsed) as [Hok _].
    exact (Hok Hall).
  - assert (Hvalid : Events.validRecords [nameless_event] = [nameless_event]) by by_evaluation.
    assert (Hex : Exists (fun r : object => r !! "locations_name" = None)
                    (Events.validRecords [nameless_event])).
    { rewrite Hvalid. by left. }
    split; [exact Hex|].
    destruct (GET_needs_locations_name Csv.plain_tokenize (events_file nameless_csv) _ _
                (events_file_content nameless_csv) nameless_csv_parsed) as [_ Hfail].
    exact (Hfail Hex).
Defined.

Lemma gaza_city_record_parsed :
  gaza_city_record ∈ [gaza_city_record; elsewhere_record] /\
  gaza_city_record !! "killed" = Some (VNum 12) /\
  gaza_city_record !! "location" = Some (VStr "Gaza City").
Proof. split; [by left|]. split; by_evaluation. Qed.

Lemma parsed_fields_are_numbers_or_trimmed_witness :
  Loader.parseCSVWithCoordinates Csv.plain_tokenize casualties_csv
    casualties_columns Loader.default_coordinateColumns
  = Ok ([Warn_invalid_coordinates (Some (VStr "Elsewhere"))
           (Own_property (VNum 33.5)) (Own_property (VNum 34.45))],
        [gaza_city_record; elsewhere_record]) /\
  gaza_city_record ∈ [gaza_city_record; elsewhere_record] /\
  gaza_city_record !! "killed" = Some (VNum 12) /\
  gaza_city_record !! "location" = Some (VStr "Gaza City") /\
  (exists x, VNum 12 = VNum x /\ Js.isNaN x = false) /\
  (exists s, VStr "Gaza City" = VStr s /\ Js.trim s = s).
Proof.
  destruct gaza_city_record_parsed as (Hin & Hkilled & Hlocation).
  split; [exact casualties_csv_parsed|]. split; [exact Hin|].
  split; [exact Hkilled|]. split; [exact Hlocation|]. split.
  - destruct (parsed_fields_are_numbers_or_trimmed Csv.plain_tokenize
                casualties_columns Loader.default_coordinateColumns
                casualties_csv _ _ gaza_city_record "killed" (VNum 12)
                casualties_csv_parsed Hin Hkilled) as [Hnumber _].
    apply Hnumber. left. apply list_elem_of_In. simpl. tauto.
  - destruct (parsed_fields_are_numbers_or_trimmed Csv.plain_tokenize
                casualties_columns Loader.default_coordinateColumns
                casualties_csv _ _ gaza_city_record "location" (VStr "Gaza City")
                casualties_csv_parsed Hin Hlocation) as [_ Htext].
    apply Htext. intros [Hc|Hc]; apply list_elem_of_In in Hc; simpl in Hc;
      intuition discriminate.
Defined.

Lemma parseCSVWithCoordinates_without_data_witness :
  Csv.broken (Csv.plain_tokenize casualties_header) = None /\
  Csv.rows (Csv.plain_tokenize casualties_header) = [Js.split "," casualties_header] /\
  Loader.parseCSVWithCoordinates Csv.plain_tokenize casualties_header
    casualties_columns Loader.default_coordinateColumns = Ok ([], []) /\
  Csv.rows (Csv.plain_tokenize "") = [] /\
  Loader.parseCSVWithCoordinates Csv.plain_tokenize ""
    casualties_columns Loader.default_coordinateColumns = Ok ([], []).
Proof.
  assert (Hrows : Csv.rows (Csv.plain_tokenize casualties_header)
                  = [Js.split "," casualties_header]) by by_evaluation.
  assert (Hnone : Csv.rows (Csv.plain_tokenize "") = []) by by_evaluation.
  split; [reflexivity|]. split; [exact Hrows|]. split; [|split; [exact Hnone|]].
  - apply parseCSVWithCoordinates_without_data; [reflexivity | right; eauto].
  - apply parseCSVWithCoordinates_without_data; [reflexivity | by left].
Defined.

Lemma three_records_have_numbers :
  Forall (fun r => Js.isNaN (latitude r) = false /\ Js.isNaN (longitude r) = false)
    [rafah_again; jabalia_record; rafah_record].
Proof. repeat constructor. Qed.

Lemma unique_locations_bounds_inside_witness :
  let records := [rafah_again; jabalia_record; rafah_record] in
  let all := Loader.calculateBounds records in
  let unique := Loader.calculateBounds (Loader.getUniqueLocations records) in
  Forall (fun r => Js.isNaN (latitude r) = false /\ Js.isNaN (longitude r) = false)
    records /\
  south all = 31.2948%float /\ south unique = 31.3%float /\
  PrimFloat.leb (north unique) (north all) = true /\
  PrimFloat.leb (south all) (south unique) = true /\
  PrimFloat.leb (east unique) (east all) = true /\
  PrimFloat.leb (west all) (west unique) = true.
Proof.
  intros records all unique. split; [exact three_records_have_numbers|].
  split; [reflexivity|]. split; [reflexivity|].
  exact (unique_locations_bounds_inside records three_records_have_numbers).
Defined.

Lemma whole_number_cells_are_read_exactly_witness :
  "250" <> EmptyString /\ all_digits "250" = true /\ digits_value "250" = 250 /\
  250 < 2 ^ 53 /\
  (exists x, Loader.cast casualties_columns Loader.default_coordinateColumns
               "250" (Csv.ColName "killed") = Ok (VNum x) /\
             whole x 250) /\
  (exists x, Events.cast "250" (Csv.ColName "figure") = Ok (VNum x) /\ whole x 250).
Proof.
  assert (Hne : "250" <> EmptyString) by discriminate.
  assert (Hlt : digits_value "250" < 2 ^ 53) by (by apply Z.ltb_lt).
  destruct (whole_number_cells_are_read_exactly casualties_columns
              Loader.default_coordinateColumns "killed" "250" Hne eq_refl Hlt) as [Hloader _].
  destruct (whole_number_cells_are_read_exactly casualties_columns
              Loader.default_coordinateColumns "figure" "250" Hne eq_refl Hlt) as [_ Hevents].
  split; [exact Hne|]. split; [reflexivity|]. split; [reflexivity|].
  split; [by apply Z.ltb_lt|]. split.
  - apply Hloader. left. apply list_elem_of_In. simpl. tauto.
  - apply Hevents. apply list_elem_of_In. simpl. tauto.
Defined.

Lemma cells_without_a_number_witness :
  no_number "" = true /\ no_number " n/a" = true /\
  Loader.cast casualties_columns Loader.default_coordinateColumns "" (Csv.ColName "killed")
  = Throw (Error (Loader.invalid_numeric_message "" "killed")) /\
  Events.cast " n/a" (Csv.ColName "figure") = Ok (VNum PrimFloat.zero).
Proof.
  destruct (cells_without_a_number casualties_columns Loader.default_coordinateColumns
              "killed" "" eq_refl) as [Hloader _].
  destruct (cells_without_a_number casualties_columns Loader.default_coordinateColumns
              "figure" " n/a" eq_refl) as [_ Hevents].
  split; [reflexivity|]. split; [reflexivity|]. split.
  - apply Hloader. left. apply list_elem_of_In. simpl. tauto.
  - apply Hevents. apply list_elem_of_In. simpl. tauto.
Defined.

Lemma displaced_sums_of_whole_figures_are_exact_witness :
  let records := [gaza_event; ramallah_event; empty_event; beersheba_event] in
  Forall2 whole (figures (Events.validRecords records)) [100; 250] /\
  fold_right Z.add 0 [100; 250] < 2 ^ 53 /\
  whole 350 (fold_right Z.add 0 [100; 250]) /\
  scaled 100 = Some (exact_sum (figures [gaza_event])) /\
  scaled 250 = Some (exact_sum (figures [ramallah_event])) /\
  exact_sum (figures [gaza_event]) + exact_sum (figures [ramallah_event])
  = fold_right Z.add 0 [100; 250] * 2 ^ 1074.
Proof.
  intros records.
  assert (Hvalid : Events.validRecords records = [gaza_event; ramallah_event]) by by_evaluation.
  assert (Hwhole : Forall2 whole (figures (Events.validRecords records)) [100; 250]).
  { rewrite Hvalid. repeat constructor; by_evaluation. }
  assert (Hlt : fold_right Z.add 0 [100; 250] < 2 ^ 53) by (by apply Z.ltb_lt).
  split; [exact Hwhole|]. split; [exact Hlt|].
  exact (displaced_sums_of_whole_figures_are_exact Csv.plain_tokenize (events_file events_csv)
           _ _ _ _ _ _ _ _ _ events_csv_answer (events_file_content events_csv)
           events_csv_parsed Hwhole Hlt).
Defined.
